(** * DocuChat-AI: the ingestion-to-retrieval pipeline

    A shallow embedding of the backend of DocuChat-AI:

    - [backend/utils/chunker.js]: [splitIntoSentences], [estimateTokens],
      [chunkText], [addMetadataToChunks];
    - [backend/utils/freeEmbeddingService.js]: [InMemoryVectorStore]
      ([upsert], [query], [cosineSimilarity], [deleteMany]) and
      [DevelopmentEmbeddingService];
    - [backend/api/process.js]: the [POST /:documentId], [POST /chat] and
      [DELETE /:documentId] handlers and the candidate-sentence stage of
      [generateContextualResponse].

    JavaScript strings are sequences of UTF-16 code units, numbers that the
    vector store computes with are IEEE 754 binary64 values (Rocq's primitive
    floats), a [Map] is an insertion-ordered list of bindings with distinct
    keys.  The first part of the file holds the definitions, the second part
    the lemmas and theorems. *)

From Stdlib Require Import String Ascii DecimalString Floats Reals.
From Stdlib Require Import ZArith NArith QArith Qround Bool Lia Lra Psatz List.
Import ListNotations.

#[local] Close Scope Q_scope.
#[local] Close Scope R_scope.
#[local] Open Scope nat_scope.

Set Warnings "-inexact-float".

(* ================================================================== *)
(** * Part I: the embedding *)
(* ================================================================== *)

(** ** JavaScript strings *)

Module JsString.

(** A string is its sequence of UTF-16 code units. *)
Definition jsstring := list N.

(** String literals of the source, which are all ASCII. *)
Definition js (s : string) : jsstring :=
  map N_of_ascii (list_ascii_of_string s).

Fixpoint eqb (a b : jsstring) : bool :=
  match a, b with
  | [], [] => true
  | x :: a', y :: b' => N.eqb x y && eqb a' b'
  | _, _ => false
  end.

(** [\s] of a regular expression and the characters [trim] strips: the
    ECMAScript WhiteSpace and LineTerminator code points. *)
Definition isWhiteSpace (c : N) : bool :=
  ((9 <=? c) && (c <=? 13)                  (* \t \n \v \f \r *)
   || (c =? 32) || (c =? 160)               (* space, no-break space *)
   || (c =? 5760)                           (* U+1680 *)
   || ((8192 <=? c) && (c <=? 8202))        (* U+2000 .. U+200A *)
   || (c =? 8232) || (c =? 8233)            (* U+2028, U+2029 *)
   || (c =? 8239) || (c =? 8287)            (* U+202F, U+205F *)
   || (c =? 12288) || (c =? 65279))%N.      (* U+3000, U+FEFF *)

(** The character class [[.!?]]. *)
Definition isTerminal (c : N) : bool :=
  ((c =? 46) || (c =? 33) || (c =? 63))%N.

Fixpoint dropWhile (p : N -> bool) (s : jsstring) : jsstring :=
  match s with
  | [] => []
  | c :: s' => if p c then dropWhile p s' else s
  end.

Definition trimStart (s : jsstring) : jsstring := dropWhile isWhiteSpace s.
Definition trimEnd (s : jsstring) : jsstring :=
  rev (dropWhile isWhiteSpace (rev s)).

(** [String.prototype.trim] *)
Definition trim (s : jsstring) : jsstring := trimEnd (trimStart s).

(** [Array.prototype.join] on an array of strings *)
Fixpoint join (sep : jsstring) (parts : list jsstring) : jsstring :=
  match parts with
  | [] => []
  | [p] => p
  | p :: rest => p ++ sep ++ join sep rest
  end.

(** Length of the longest prefix of [s] made of characters in the class
    [p]: what the greedy [p+] matches at the start of [s] (0: no match). *)
Fixpoint runLength (p : N -> bool) (s : jsstring) : nat :=
  match s with
  | [] => 0
  | c :: s' => if p c then S (runLength p s') else 0
  end.

(** A separator pattern, tried at one position of the subject: it sees the
    code unit before the position (for a lookbehind) and the rest of the
    subject, and answers the length of its match there, 0 for none.  None
    of the three patterns of the source matches the empty string. *)
Definition pattern := option N -> jsstring -> nat.

(** [/\s+/] *)
Definition whitespaceRun : pattern := fun _ rest => runLength isWhiteSpace rest.

(** [/(?<=[.!?])\s+/] *)
Definition whitespaceAfterTerminal : pattern := fun prev rest =>
  match prev with
  | Some c => if isTerminal c then runLength isWhiteSpace rest else 0
  | None => 0
  end.

(** [/[.!?]+/] *)
Definition terminalRun : pattern := fun _ rest => runLength isTerminal rest.

(** [String.prototype.split] with a regular expression: scan the subject
    from the left; where the separator matches, close the piece under
    construction, jump over the match and go on behind it; the rest of the
    subject is the last piece (the empty subject gives one empty piece).
    [piece] is the piece under construction, reversed; [skip] counts the
    code units of the current match still to jump over. *)
Fixpoint splitFrom (sep : pattern) (prev : option N) (piece : jsstring)
         (skip : nat) (s : jsstring) : list jsstring :=
  match s with
  | [] => [rev piece]
  | c :: s' =>
      match skip with
      | S k => splitFrom sep (Some c) piece k s'
      | O =>
          match sep prev s with
          | O => splitFrom sep (Some c) (c :: piece) 0 s'
          | S k => rev piece :: splitFrom sep (Some c) [] k s'
          end
      end
  end.

Definition split (sep : pattern) (s : jsstring) : list jsstring :=
  splitFrom sep None [] 0 s.

(** [Array.prototype.slice(0, k)]: a negative [k] counts from the end. *)
Definition slice0 {A : Type} (k : Z) (l : list A) : list A :=
  if (k <? 0)%Z
  then firstn (Z.to_nat (Z.max (Z.of_nat (length l) + k) 0)) l
  else firstn (Z.to_nat k) l.

(** Decimal digits of a natural number, as template literals print an
    array index. *)
Definition ofNat (n : nat) : jsstring :=
  js (NilEmpty.string_of_uint (Nat.to_uint n)).

End JsString.
Export JsString.

(** ** JavaScript values *)

(** The primitive values that request bodies and metadata filters carry.
    Numbers in these positions are integral; objects and arrays do not occur
    (a document id is a string; the count [maxChunks], which may be any
    value, has the type [countValue] below). *)
Inductive jsval : Type :=
| JUndefined
| JNull
| JBool (b : bool)
| JNum (z : Z)
| JStr (s : jsstring).

(** ToBoolean *)
Definition truthy (v : jsval) : bool :=
  match v with
  | JUndefined | JNull => false
  | JBool b => b
  | JNum z => negb (z =? 0)%Z
  | JStr s => negb (JsString.eqb s [])
  end.

(** [a === b] *)
Definition strictEq (a b : jsval) : bool :=
  match a, b with
  | JUndefined, JUndefined => true
  | JNull, JNull => true
  | JBool x, JBool y => Bool.eqb x y
  | JNum x, JNum y => (x =? y)%Z
  | JStr x, JStr y => JsString.eqb x y
  | _, _ => false
  end.

(** [a || b] *)
Definition orElse (a b : jsval) : jsval := if truthy a then a else b.

(** ** Values read as a count *)

(** What a request body can hold where the code expects a count: nothing,
    or any JSON value.  A number is a double.  A string, an array or an
    object becomes a number when it is used as an index; their
    constructors carry [number], the double that ToNumber makes of the
    value (NaN for a string that spells no number and for an object that is
    no array). *)
Inductive countValue : Type :=
| CountUndefined
| CountNull
| CountBool (b : bool)
| CountNumber (x : float)
| CountString (s : jsstring) (number : float)
| CountObject (number : float).

(** ToBoolean *)
Definition countTruthy (v : countValue) : bool :=
  match v with
  | CountUndefined | CountNull => false
  | CountBool b => b
  | CountNumber x => negb (PrimFloat.eqb x 0) && negb (PrimFloat.is_nan x)
  | CountString s _ => negb (JsString.eqb s [])
  | CountObject _ => true
  end.

(** ToNumber *)
Definition countToNumber (v : countValue) : float :=
  match v with
  | CountUndefined => nan
  | CountNull => 0%float
  | CountBool b => if b then 1%float else 0%float
  | CountNumber x => x
  | CountString _ number => number
  | CountObject number => number
  end.

Inductive integerOrInfinity : Type :=
| MinusInfinity
| Integer (k : Z)
| PlusInfinity.

(** ToIntegerOrInfinity: NaN and the zeros give 0, an infinity stays, any
    other number loses its fraction. *)
Definition toIntegerOrInfinity (x : float) : integerOrInfinity :=
  match Prim2SF x with
  | S754_nan => Integer 0
  | S754_zero _ => Integer 0
  | S754_infinity sign => if sign then MinusInfinity else PlusInfinity
  | S754_finite sign mantissa exponent =>
      let magnitude :=
        if (0 <=? exponent)%Z
        then Z.shiftl (Z.pos mantissa) exponent
        else Z.shiftr (Z.pos mantissa) (- exponent) in
      Integer (if sign then (- magnitude)%Z else magnitude)
  end.

(** The end that [array.slice(0, end)] works with, for an array of at most
    [size] elements: [end] through ToIntegerOrInfinity, where plus infinity
    takes what [size] takes and minus infinity what [-size] takes. *)
Definition sliceEnd (size : Z) (v : countValue) : Z :=
  match toIntegerOrInfinity (countToNumber v) with
  | Integer k => k
  | PlusInfinity => size
  | MinusInfinity => (- size)%Z
  end.

(** ** [Map]: insertion-ordered bindings with distinct keys *)

Module JsMap.

Definition t (V : Type) := list (jsstring * V).

Definition empty {V} : t V := [].

Fixpoint get {V} (k : jsstring) (m : t V) : option V :=
  match m with
  | [] => None
  | (k', v) :: m' => if JsString.eqb k k' then Some v else get k m'
  end.

Definition has {V} (k : jsstring) (m : t V) : bool :=
  match get k m with Some _ => true | None => false end.

(** [set] keeps the position of a key that is already bound and appends a
    new key at the end. *)
Fixpoint set {V} (k : jsstring) (v : V) (m : t V) : t V :=
  match m with
  | [] => [(k, v)]
  | (k', v') :: m' =>
      if JsString.eqb k k' then (k, v) :: m' else (k', v') :: set k v m'
  end.

Fixpoint delete {V} (k : jsstring) (m : t V) : t V :=
  match m with
  | [] => []
  | (k', v') :: m' =>
      if JsString.eqb k k' then m' else (k', v') :: delete k m'
  end.

Definition size {V} (m : t V) : Z := Z.of_nat (length m).

Definition keys {V} (m : t V) : list jsstring := map fst m.
Definition values {V} (m : t V) : list V := map snd m.

(** The invariant of the representation: keys are pairwise distinct. *)
Definition wf {V} (m : t V) : Prop := NoDup (keys m).

(** How many bindings the map holds for a key. *)
Definition bindings {V} (k : jsstring) (m : t V) : nat :=
  length (filter (fun kv => JsString.eqb k (fst kv)) m).

End JsMap.

(** [Array.prototype.map] with the element and its index *)
Fixpoint mapiFrom {A B : Type} (f : A -> nat -> B) (i : nat) (l : list A)
  : list B :=
  match l with
  | [] => []
  | x :: l' => f x i :: mapiFrom f (S i) l'
  end.

Definition mapi {A B : Type} (f : A -> nat -> B) (l : list A) : list B :=
  mapiFrom f 0 l.

(** ** The chunker: [backend/utils/chunker.js] *)

Module Chunker.

(** [text.split(/(?<=[.!?])\s+/).filter(s => s.trim().length > 0)] *)
Definition splitIntoSentences (text : jsstring) : list jsstring :=
  filter (fun sentence => 0 <? length (trim sentence))
         (split whitespaceAfterTerminal text).

(** [Math.ceil(text.split(/\s+/).length * 0.75)].  The length of an array
    is an integer below 2^32 and 0.75 is a binary fraction, so the double
    product is exact and the rational computation below is the value the
    source returns. *)
Definition estimateTokens (text : jsstring) : Z :=
  let words := Z.of_nat (length (split whitespaceRun text)) in
  Qceiling (inject_Z words * (75 # 100)).

Record chunk : Type := mkChunk {
  text : jsstring;
  tokenCount : Z;
  sentenceCount : Z;
  chunkIndex : Z
}.

(** The variables of the main loop of [chunkText]. *)
Record loopState : Type := mkLoop {
  chunks : list chunk;
  currentChunk : list jsstring;
  currentTokens : Z
}.

(** The inner loop, [for (let j = currentChunk.length - 1; j >= 0; j--)]:
    [remaining] holds [currentChunk[j], currentChunk[j-1], ...]. *)
Fixpoint overlapLoop (overlapTokens : Z) (remaining : list jsstring)
         (overlapSentences : list jsstring) (overlapTokenCount : Z)
  : list jsstring * Z :=
  match remaining with
  | [] => (overlapSentences, overlapTokenCount)
  | overlapSentence :: remaining' =>
      let overlapSentenceTokens := estimateTokens overlapSentence in
      if (overlapTokenCount + overlapSentenceTokens <=? overlapTokens)%Z
      then overlapLoop overlapTokens remaining'
                       (overlapSentence :: overlapSentences)
                       (overlapTokenCount + overlapSentenceTokens)%Z
      else (overlapSentences, overlapTokenCount)
  end.

Definition overlapOf (currentChunk : list jsstring) (overlapTokens : Z)
  : list jsstring * Z :=
  overlapLoop overlapTokens (rev currentChunk) [] 0%Z.

(** [chunks.push({...})], guarded by [chunkText.length > 0]. *)
Definition pushChunk (chunks : list chunk) (currentChunk : list jsstring)
           (currentTokens : Z) : list chunk :=
  let chunkText := trim (join (js " ") currentChunk) in
  if 0 <? length chunkText
  then chunks ++ [ {| text := chunkText;
                      tokenCount := currentTokens;
                      sentenceCount := Z.of_nat (length currentChunk);
                      chunkIndex := Z.of_nat (length chunks) |} ]
  else chunks.

(** One iteration of [for (let i = 0; i < sentences.length; i++)]. *)
Definition chunkStep (maxTokens overlapTokens : Z) (st : loopState)
           (sentence : jsstring) : loopState :=
  let sentenceTokens := estimateTokens sentence in
  if (currentTokens st + sentenceTokens >? maxTokens)%Z
     && (0 <? length (currentChunk st))
  then
    let chunks' := pushChunk (chunks st) (currentChunk st) (currentTokens st) in
    let '(overlapSentences, overlapTokenCount) :=
      overlapOf (currentChunk st) overlapTokens in
    {| chunks := chunks';
       currentChunk := overlapSentences ++ [sentence];
       currentTokens := (overlapTokenCount + sentenceTokens)%Z |}
  else
    {| chunks := chunks st;
       currentChunk := currentChunk st ++ [sentence];
       currentTokens := (currentTokens st + sentenceTokens)%Z |}.

Definition chunkLoop (maxTokens overlapTokens : Z) (sentences : list jsstring)
  : loopState :=
  fold_left (chunkStep maxTokens overlapTokens) sentences
            {| chunks := []; currentChunk := []; currentTokens := 0%Z |}.

(** [chunkText(text, maxTokens = 400, overlapTokens = 50)] *)
Definition chunkText (text : jsstring) (maxTokens overlapTokens : Z)
  : list chunk :=
  let st := chunkLoop maxTokens overlapTokens (splitIntoSentences text) in
  if 0 <? length (currentChunk st)
  then pushChunk (chunks st) (currentChunk st) (currentTokens st)
  else chunks st.

(** *** The sentence arrays behind the chunks

    A chunk record keeps the joined text only.  To speak about the
    sentences a chunk was built from, the same loop is run once more with
    the arrays kept: each group is the [currentChunk] array at the moment
    it is closed, with the part of it that [overlapSentences] put there. *)
Record sentenceGroup : Type := mkGroup {
  overlapPrefix : list jsstring;
  groupSentences : list jsstring;
  groupTokens : Z
}.

Record traceState : Type := mkTrace {
  closed : list sentenceGroup;
  openOverlap : list jsstring;
  openSentences : list jsstring;
  openTokens : Z
}.

Definition closeGroup (st : traceState) : list sentenceGroup :=
  closed st ++ [ {| overlapPrefix := openOverlap st;
                    groupSentences := openSentences st;
                    groupTokens := openTokens st |} ].

Definition traceStep (maxTokens overlapTokens : Z) (st : traceState)
           (sentence : jsstring) : traceState :=
  let sentenceTokens := estimateTokens sentence in
  if (openTokens st + sentenceTokens >? maxTokens)%Z
     && (0 <? length (openSentences st))
  then
    let '(overlapSentences, overlapTokenCount) :=
      overlapOf (openSentences st) overlapTokens in
    {| closed := closeGroup st;
       openOverlap := overlapSentences;
       openSentences := overlapSentences ++ [sentence];
       openTokens := (overlapTokenCount + sentenceTokens)%Z |}
  else
    {| closed := closed st;
       openOverlap := openOverlap st;
       openSentences := openSentences st ++ [sentence];
       openTokens := (openTokens st + sentenceTokens)%Z |}.

Definition traceLoop (maxTokens overlapTokens : Z) (sentences : list jsstring)
  : traceState :=
  fold_left (traceStep maxTokens overlapTokens) sentences
            {| closed := []; openOverlap := []; openSentences := [];
               openTokens := 0%Z |}.

Definition chunkGroups (text : jsstring) (maxTokens overlapTokens : Z)
  : list sentenceGroup :=
  let st := traceLoop maxTokens overlapTokens (splitIntoSentences text) in
  if 0 <? length (openSentences st) then closeGroup st else closed st.

(** The chunk record that [chunkText] pushes for a group at position [i]. *)
Definition chunkOfGroup (g : sentenceGroup) (i : nat) : chunk :=
  {| text := trim (join (js " ") (groupSentences g));
     tokenCount := groupTokens g;
     sentenceCount := Z.of_nat (length (groupSentences g));
     chunkIndex := Z.of_nat i |}.

Definition sumTokens (sentences : list jsstring) : Z :=
  fold_right (fun s acc => (estimateTokens s + acc)%Z) 0%Z sentences.

(** *** [addMetadataToChunks] *)

(** [{...documentMetadata, chunkIndex, totalChunks, isFirstChunk,
    isLastChunk}]: the four computed keys come last and win over keys of
    the same name in [documentMetadata]. *)
Record chunkMetadata : Type := mkChunkMetadata {
  documentMetadata : list (jsstring * jsval);
  metaChunkIndex : Z;
  totalChunks : Z;
  isFirstChunk : bool;
  isLastChunk : bool
}.

(** [{id, documentId, ...chunk, metadata, createdAt}] *)
Record chunkWithMetadata : Type := mkChunkWithMetadata {
  id : jsstring;
  documentId : jsstring;
  base : chunk;
  metadata : chunkMetadata;
  createdAt : jsstring
}.

(** [clock i] is what [new Date().toISOString()] answers while the chunk
    of index [i] is built. *)
Definition addMetadataToChunks (clock : nat -> jsstring) (chunks : list chunk)
           (documentId : jsstring) (documentMetadata : list (jsstring * jsval))
  : list chunkWithMetadata :=
  mapi (fun chunk index =>
          {| id := documentId ++ js "_chunk_" ++ ofNat index;
             documentId := documentId;
             base := chunk;
             metadata :=
               {| documentMetadata := documentMetadata;
                  metaChunkIndex := Z.of_nat index;
                  totalChunks := Z.of_nat (length chunks);
                  isFirstChunk := (Z.of_nat index =? 0)%Z;
                  isLastChunk :=
                    (Z.of_nat index =? Z.of_nat (length chunks) - 1)%Z |};
             createdAt := clock index |})
       chunks.

(** [chunk.metadata[key]] for a key of [documentMetadata], an object
    given by its own properties (each key once). *)
Fixpoint lookupKey (key : jsstring) (object : list (jsstring * jsval)) : jsval :=
  match object with
  | [] => JUndefined
  | (k, v) :: object' =>
      if JsString.eqb key k then v else lookupKey key object'
  end.

End Chunker.

(** ** The vector store: [InMemoryVectorStore] *)

(** The arithmetic [cosineSimilarity] performs.  The source computes with
    doubles ([floatNumber]); the same function read over the real numbers
    ([realNumber]) is the quantity the doubles approximate. *)
Class JsNumber (T : Type) : Type := {
  zero : T;
  add : T -> T -> T;
  mul : T -> T -> T;
  div : T -> T -> T;
  sqrt : T -> T;
  gtb : T -> T -> bool
}.

#[export] Instance floatNumber : JsNumber float := {|
  zero := 0%float;
  add := PrimFloat.add;
  mul := PrimFloat.mul;
  div := PrimFloat.div;
  sqrt := PrimFloat.sqrt;
  gtb := fun x y => PrimFloat.ltb y x
|}.

#[export] Instance realNumber : JsNumber R := {|
  zero := 0%R;
  add := Rplus;
  mul := Rmult;
  div := Rdiv;
  sqrt := R_sqrt.sqrt;
  gtb := fun x y => if Rlt_dec y x then true else false
|}.

Module VectorStore.

Section Cosine.
Context {T : Type} `{JsNumber T}.

(** The body of [for (let i = 0; i < a.length; i++)]: the accumulators
    are [(dotProduct, normA, normB)]. *)
Definition cosineStep (acc : T * T * T) (ab : T * T) : T * T * T :=
  let '(dotProduct, normA, normB) := acc in
  let '(ai, bi) := ab in
  (add dotProduct (mul ai bi), add normA (mul ai ai), add normB (mul bi bi)).

Definition cosineSimilarity (a b : list T) : T :=
  if negb (length a =? length b) then zero
  else
    let '(dotProduct, normA, normB) :=
      fold_left cosineStep (combine a b) (zero, zero, zero) in
    let magnitude := mul (sqrt normA) (sqrt normB) in
    if gtb magnitude zero then div dotProduct magnitude else zero.

(** The formula of the specification: [dot(a,b) / (|a| * |b|)], the sums
    taken from the first component on. *)
Definition dot (a b : list T) : T :=
  fold_left (fun s ab => add s (mul (fst ab) (snd ab))) (combine a b) zero.

Definition norm (a : list T) : T := sqrt (dot a a).

Definition cosineFormula (a b : list T) : T :=
  if gtb (mul (norm a) (norm b)) zero
  then div (dot a b) (mul (norm a) (norm b))
  else zero.
End Cosine.

(** The metadata object that [generateEmbeddingsForChunks] stores with
    every vector. *)
Record embeddingMetadata : Type := mkMetadata {
  text : jsstring;
  documentId : jsstring;
  fileName : jsval;
  fileType : jsval;
  chunkIndex : Z;
  totalChunks : Z;
  tokenCount : Z;
  wordCount : jsval;
  createdAt : jsstring
}.

(** [metadata[key]] *)
Definition metadataGet (key : jsstring) (m : embeddingMetadata) : jsval :=
  if JsString.eqb key (js "text") then JStr (text m)
  else if JsString.eqb key (js "documentId") then JStr (documentId m)
  else if JsString.eqb key (js "fileName") then fileName m
  else if JsString.eqb key (js "fileType") then fileType m
  else if JsString.eqb key (js "chunkIndex") then JNum (chunkIndex m)
  else if JsString.eqb key (js "totalChunks") then JNum (totalChunks m)
  else if JsString.eqb key (js "tokenCount") then JNum (tokenCount m)
  else if JsString.eqb key (js "wordCount") then wordCount m
  else if JsString.eqb key (js "createdAt") then JStr (createdAt m)
  else JUndefined.

Record storedVector : Type := mkStored {
  id : jsstring;
  values : list float;
  metadata : embeddingMetadata
}.

(** [this.vectors]; [this.nextId] is never read or written after the
    constructor. *)
Definition store := JsMap.t storedVector.

(** A filter object, by its entries ([Object.entries]). *)
Definition metadataFilter := list (jsstring * jsval).

(** The filter loops of [query] and [deleteMany]: the flag stays [true]
    unless some entry has [metadata[key] !== value]. *)
Definition passesFilter (filter : metadataFilter) (v : storedVector) : bool :=
  forallb (fun kv => strictEq (metadataGet (fst kv) (metadata v)) (snd kv))
          filter.

Definition upsert (embeddings : list storedVector) (s : store) : store * Z :=
  (fold_left (fun vectors e => JsMap.set (id e) e vectors) embeddings s,
   Z.of_nat (length embeddings)).

Record queryOptions : Type := mkQuery {
  vector : list float;
  topK : Z;
  includeMetadata : bool;
  filter : metadataFilter
}.

Record queryMatch : Type := mkMatch {
  matchId : jsstring;
  score : float;
  matchMetadata : option embeddingMetadata
}.

(** [results.sort((a, b) => b.score - a.score)].  [Array.prototype.sort]
    is stable; [earlier] stood before the elements of [sorted] and moves
    behind those that the comparator puts strictly first.  (With a NaN
    among the scores the comparator is inconsistent and the standard
    leaves the order to the engine; the model fixes this one.) *)
Fixpoint insertSorted (earlier : queryMatch) (sorted : list queryMatch)
  : list queryMatch :=
  match sorted with
  | [] => [earlier]
  | later :: sorted' =>
      if (score earlier - score later <? 0)%float
      then later :: insertSorted earlier sorted'
      else earlier :: sorted
  end.

Definition sortByScore (results : list queryMatch) : list queryMatch :=
  fold_right insertSorted [] results.

Definition scoreAll (options : queryOptions) (s : store) : list queryMatch :=
  map (fun storedVector =>
         {| matchId := id storedVector;
            score := cosineSimilarity (vector options) (values storedVector);
            matchMetadata :=
              if includeMetadata options
              then Some (metadata storedVector) else None |})
      (List.filter (passesFilter (filter options)) (JsMap.values s)).

(** [query(options)]: the [matches] of the answer.  [topK] is the integer
    that [results.slice(0, topK)] works with. *)
Definition query (options : queryOptions) (s : store) : list queryMatch :=
  slice0 (topK options) (sortByScore (scoreAll options s)).

Definition describeIndexStats (s : store) : Z * Z * Z :=
  (JsMap.size s, 1536%Z, 0%Z).

(** The argument of [deleteMany]: an object whose [filter] property may be
    missing and that may carry a [deleteAll] property. *)
Record deleteArgument : Type := mkDeleteArgument {
  filterProperty : option metadataFilter;
  deleteAllProperty : option bool
}.

(** [filter.filter || {}] *)
Definition filterOrEmpty (argument : deleteArgument) : metadataFilter :=
  match filterProperty argument with
  | Some f => f
  | None => []
  end.

(** The body of [for (const [id, vector] of this.vectors)]; a [Map] that
    loses the entry under the cursor goes on with the next one. *)
Definition deleteStep (argument : deleteArgument) (acc : store * Z)
           (entry : jsstring * storedVector) : store * Z :=
  let '(vectors, deletedCount) := acc in
  if passesFilter (filterOrEmpty argument) (snd entry)
  then (JsMap.delete (fst entry) vectors, (deletedCount + 1)%Z)
  else (vectors, deletedCount).

(** [deleteMany(filter)]: the store afterwards and [deletedCount]. *)
Definition deleteMany (argument : deleteArgument) (s : store) : store * Z :=
  fold_left (deleteStep argument) s (s, 0%Z).

End VectorStore.

(** ** The embedding service: [DevelopmentEmbeddingService] *)

(** What a call that may raise comes back with. *)
Inductive outcome (A : Type) : Type :=
| Returned (value : A)
| Raised (message : jsstring).
Arguments Returned {A} value.
Arguments Raised {A} message.

Module EmbeddingService.

(** The options of [searchSimilarChunks]; [topK] is whatever the caller
    hands on, [CountUndefined] for an object without the property. *)
Record searchOptions : Type := mkSearchOptions {
  topK : countValue;
  documentId : jsval;
  threshold : float
}.

Record searchResult : Type := mkSearchResult {
  queryText : jsstring;
  results : list VectorStore.queryMatch;
  totalFound : Z;
  aboveThreshold : Z;
  queryTokens : Z
}.

Record deletionResult : Type := mkDeletionResult {
  success : bool;
  deletedCount : Z;
  deletedDocumentId : jsstring;
  statsBefore : Z * Z * Z;
  statsAfter : Z * Z * Z
}.

(** ToBoolean of a number *)
Definition numberTruthy (x : float) : bool :=
  negb (PrimFloat.eqb x 0) && negb (PrimFloat.is_nan x).

Section Service.

(** [InMemoryVectorStore.textToVector], the placeholder embedding: a
    function of the text alone.  Its values come out of [Math.sin],
    which the language leaves to the engine; the service is modelled
    for an arbitrary embedding function. *)
Variable textToVector : jsstring -> list float.

(** [generateEmbedding(text)]: the vector and [usage.total_tokens]. *)
Definition generateEmbedding (text : jsstring) : list float * Z :=
  (textToVector text, Z.of_nat (length (split whitespaceRun text))).

(** [generateEmbeddingsForChunks(chunks)]: the records to store and
    [totalTokens]. *)
Definition generateEmbeddingsForChunks
           (chunks : list Chunker.chunkWithMetadata)
  : list VectorStore.storedVector * Z :=
  fold_left
    (fun acc chunk =>
       let '(embeddings, totalTokens) := acc in
       let '(embedding, tokens) :=
         generateEmbedding (Chunker.text (Chunker.base chunk)) in
       let meta := Chunker.documentMetadata (Chunker.metadata chunk) in
       (embeddings ++
          [ {| VectorStore.id := Chunker.id chunk;
               VectorStore.values := embedding;
               VectorStore.metadata :=
                 {| VectorStore.text :=
                      firstn 1000 (Chunker.text (Chunker.base chunk));
                    VectorStore.documentId := Chunker.documentId chunk;
                    VectorStore.fileName :=
                      Chunker.lookupKey (js "fileName") meta;
                    VectorStore.fileType :=
                      Chunker.lookupKey (js "fileType") meta;
                    VectorStore.chunkIndex :=
                      Chunker.chunkIndex (Chunker.base chunk);
                    VectorStore.totalChunks :=
                      Chunker.totalChunks (Chunker.metadata chunk);
                    VectorStore.tokenCount :=
                      Chunker.tokenCount (Chunker.base chunk);
                    VectorStore.wordCount := JUndefined;
                    VectorStore.createdAt := Chunker.createdAt chunk |} |} ],
        (totalTokens + tokens)%Z))
    chunks ([], 0%Z).

Definition storeEmbeddings (embeddings : list VectorStore.storedVector)
           (s : VectorStore.store) : VectorStore.store * Z :=
  VectorStore.upsert embeddings s.

(** The options [searchSimilarChunks] hands to [vectorStore.query] on the
    store [s].  [topK] is [options.topK || 5]; [query] uses it in
    [results.slice(0, topK)] only, and [VectorStore.query] takes the
    integer that [slice] works with, so the value is converted here.  No
    array of results is longer than the store. *)
Definition queryOptionsOf (s : VectorStore.store) (queryText : jsstring)
           (options : searchOptions) : VectorStore.queryOptions :=
  {| VectorStore.vector := fst (generateEmbedding queryText);
     VectorStore.topK :=
       sliceEnd (JsMap.size s)
                (if countTruthy (topK options) then topK options
                 else CountNumber 5);
     VectorStore.includeMetadata := true;
     VectorStore.filter :=
       if truthy (documentId options)
       then [(js "documentId", documentId options)]
       else [] |}.

Definition searchSimilarChunks (s : VectorStore.store) (queryText : jsstring)
           (options : searchOptions) : searchResult :=
  let matches := VectorStore.query (queryOptionsOf s queryText options) s in
  let minimum :=
    if numberTruthy (threshold options) then threshold options
    else 0.5%float in
  let filteredResults :=
    filter (fun m => PrimFloat.leb minimum (VectorStore.score m)) matches in
  {| queryText := queryText;
     results := filteredResults;
     totalFound := Z.of_nat (length matches);
     aboveThreshold := Z.of_nat (length filteredResults);
     queryTokens := snd (generateEmbedding queryText) |}.

End Service.

(** [[...new Set(ids)]]: first occurrences, in order. *)
Fixpoint unique (seen : list jsstring) (ids : list jsstring) : list jsstring :=
  match ids with
  | [] => []
  | i :: ids' =>
      if existsb (JsString.eqb i) seen then unique seen ids'
      else i :: unique (i :: seen) ids'
  end.

(** [getAvailableDocumentIds()].  [this.embeddingDimension] is never set,
    so the dummy vector [new Array(undefined).fill(0)] is [[0]].  The
    answer is only printed. *)
Definition getAvailableDocumentIds (s : VectorStore.store) : list jsstring :=
  let matches :=
    VectorStore.query
      {| VectorStore.vector := [0%float];
         VectorStore.topK := 10000%Z;
         VectorStore.includeMetadata := true;
         VectorStore.filter := [] |} s in
  unique []
    (filter (fun i => negb (JsString.eqb i []))
       (flat_map (fun m => match VectorStore.matchMetadata m with
                           | Some meta => [VectorStore.documentId meta]
                           | None => []
                           end) matches)).

(** [deleteDocumentEmbeddings(documentId)]: the store afterwards and the
    answer.  Nothing inside the [try] raises on a store of well-formed
    records, so the call returns. *)
Definition deleteDocumentEmbeddings (s : VectorStore.store)
           (documentId : jsstring)
  : VectorStore.store * outcome deletionResult :=
  let statsBefore := VectorStore.describeIndexStats s in
  let '(s', count) :=
    VectorStore.deleteMany
      {| VectorStore.filterProperty :=
           Some [(js "documentId", JStr documentId)];
         VectorStore.deleteAllProperty := None |} s in
  let statsAfter := VectorStore.describeIndexStats s' in
  (s', Returned {| success := true;
                   deletedCount := count;
                   deletedDocumentId := documentId;
                   statsBefore := statsBefore;
                   statsAfter := statsAfter |}).

(** [clearAllEmbeddings()]: the store afterwards and the [deletedCount] of
    the answer, [result.deletedCount || "all"]. *)
Definition clearAllEmbeddings (s : VectorStore.store)
  : VectorStore.store * jsval :=
  let '(s', count) :=
    VectorStore.deleteMany
      {| VectorStore.filterProperty := None;
         VectorStore.deleteAllProperty := Some true |} s in
  (s', orElse (JNum count) (JStr (js "all"))).

End EmbeddingService.

(** ** The processing routes: [backend/api/process.js] *)

Module ProcessApi.

Inductive jobStatus : Type := Processing | Completed | Failed.

(** An entry of [processedDocuments].  A completed entry also carries the
    statistics of its run ([extractionResult], [chunkingStats],
    [embeddingStats], [totalChunks], [processingTimeMs]); the handlers
    below never look at them. *)
Record job : Type := mkJob {
  documentId : jsstring;
  fileName : jsval;
  fileType : jsval;
  s3Key : jsval;
  status : jobStatus;
  startedAt : jsstring;
  progress : jsstring;
  progressDetails : option jsstring;
  completedAt : option jsstring;
  error : option jsstring;
  errorAt : option jsstring
}.

(** The module-level state: the two maps and the embedding service with
    its vector store. *)
Record server : Type := mkServer {
  processedDocuments : JsMap.t job;
  documentChunks : JsMap.t (list Chunker.chunkWithMetadata);
  vectorStore : VectorStore.store
}.

Record source : Type := mkSource { sourceName : jsval }.

Record storageCleared : Type := mkCleared {
  clearedProcessedDocuments : bool;
  clearedDocumentChunks : bool;
  clearedEmbeddings : bool
}.

Record deletionSummary : Type := mkSummary {
  summaryDocumentId : jsstring;
  summaryFileName : jsval;
  cleared : storageCleared;
  remainingDocs : Z;
  remainingChunks : Z
}.

Inductive responseBody : Type :=
| ErrorBody (error : jsstring)
| ConflictBody (error : jsstring) (document : job)
| StartedBody (message : jsstring) (document : job)
| ChatBody (message : jsval) (answer : jsstring) (sources : list source)
           (relevantChunks : Z)
| DeletedBody (message : jsstring) (summary : deletionSummary).

Record response : Type := mkResponse {
  statusCode : Z;
  body : responseBody
}.

(** *** [POST /:documentId] *)

Record processRequest : Type := mkProcessRequest {
  reqFileName : jsval;
  reqFileType : jsval;
  reqS3Key : jsval
}.

(** A body that passes the check for missing fields. *)
Definition complete (request : processRequest) : Prop :=
  truthy (reqFileName request) = true /\
  truthy (reqFileType request) = true /\
  truthy (reqS3Key request) = true.

(** [updateProgress] of [processDocumentInBackground] *)
Definition updateProgress (documentId progress details : jsstring)
           (srv : server) : server :=
  match JsMap.get documentId (processedDocuments srv) with
  | Some doc =>
      {| processedDocuments :=
           JsMap.set documentId
             {| documentId := ProcessApi.documentId doc;
                fileName := fileName doc;
                fileType := fileType doc;
                s3Key := s3Key doc;
                status := status doc;
                startedAt := startedAt doc;
                progress := progress;
                progressDetails := Some details;
                completedAt := completedAt doc;
                error := error doc;
                errorAt := errorAt doc |}
             (processedDocuments srv);
         documentChunks := documentChunks srv;
         vectorStore := vectorStore srv |}
  | None => srv
  end.

(** The part of [processDocumentInBackground] that runs inside the call:
    an [async] function runs up to its first [await], here the first
    [updateProgress]; the stages behind it belong to later turns of the
    event loop. *)
Definition processDocumentInBackgroundStart (documentId : jsstring)
           (srv : server) : server :=
  updateProgress documentId (js "Extracting text...")
                 (js "Downloading and parsing document") srv.

Definition processingDoc (now : jsstring) (documentId : jsstring)
           (request : processRequest) : job :=
  {| documentId := documentId;
     fileName := reqFileName request;
     fileType := reqFileType request;
     s3Key := reqS3Key request;
     status := Processing;
     startedAt := now;
     progress := js "Initializing...";
     progressDetails := None;
     completedAt := None;
     error := None;
     errorAt := None |}.

(** [processedDocuments.set(documentId, processingDoc)] *)
Definition register (doc : job) (srv : server) : server :=
  {| processedDocuments :=
       JsMap.set (documentId doc) doc (processedDocuments srv);
     documentChunks := documentChunks srv;
     vectorStore := vectorStore srv |}.

(** The handler: the state when it returns and the response it sent.
    [now] is the value of [new Date().toISOString()].  [res.json]
    serialises the job before the background task touches it. *)
Definition postProcess (now : jsstring) (srv : server)
           (documentId : jsstring) (request : processRequest)
  : server * response :=
  if negb (truthy (reqFileName request))
     || negb (truthy (reqFileType request))
     || negb (truthy (reqS3Key request))
  then
    (srv, {| statusCode := 400;
             body := ErrorBody
               (js "Missing required fields: fileName, fileType, s3Key") |})
  else
    let fresh := processingDoc now documentId request in
    let started :=
      (processDocumentInBackgroundStart documentId (register fresh srv),
       {| statusCode := 200;
          body := StartedBody (js "Document processing started") fresh |}) in
    match JsMap.get documentId (processedDocuments srv) with
    | Some existingDoc =>
        match status existingDoc with
        | Processing =>
            (srv, {| statusCode := 409;
                     body := ConflictBody
                       (js "Document is already being processed")
                       existingDoc |})
        | _ => started
        end
    | None => started
    end.

(** *** [POST /chat] *)

Record chatRequest : Type := mkChatRequest {
  chatMessage : jsval;
  chatDocumentId : jsval;       (* [JUndefined] when the body has none *)
  chatMaxChunks : countValue    (* [CountUndefined] when the body has none *)
}.

Record contextChunk : Type := mkContextChunk {
  contextId : jsstring;
  contextText : jsstring;
  contextSource : jsval;
  contextChunkIndex : Z;
  similarity : float
}.

(** [combinedContext.split(/[.!?]+/).map(s => s.trim())
      .filter(s => s.length > 20).slice(0, 15)] *)
Definition candidateSentences (combinedContext : jsstring) : list jsstring :=
  slice0 15
    (filter (fun s => 20 <? length s)
       (map trim (split terminalRun combinedContext))).

Definition noContextAnswer : jsstring :=
  js "I couldn't find relevant information in your documents to answer this question.".

Definition noDocumentsAnswer : jsstring :=
  js "I don't have any processed documents to search through yet. Please upload and process some documents first, then try asking your question again.".

Definition notFoundAnswer : jsstring :=
  js "I couldn't find any relevant information in your documents to answer that question. Try asking about topics that are covered in your uploaded documents, or try rephrasing your question.".

Section Chat.

Variable textToVector : jsstring -> list float.

(** The rest of [generateContextualResponse]: the keyword tests on the
    question, the [build...Response] function they select, the fallback
    and the final [trim], as a function of the question, the candidate
    sentences and the combined context. *)
Variable composeAnswer : jsstring -> list jsstring -> jsstring -> jsstring.

Definition generateContextualResponse (question : jsstring)
           (contextChunks : list contextChunk) : jsstring :=
  match contextChunks with
  | [] => noContextAnswer
  | _ =>
      let combinedContext := join (js " ") (map contextText contextChunks) in
      let sentences := candidateSentences combinedContext in
      composeAnswer question sentences combinedContext
  end.

Definition contextChunkOf (result : VectorStore.queryMatch) : contextChunk :=
  match VectorStore.matchMetadata result with
  | Some meta =>
      {| contextId := VectorStore.matchId result;
         contextText := VectorStore.text meta;
         contextSource := VectorStore.fileName meta;
         contextChunkIndex := VectorStore.chunkIndex meta;
         similarity := VectorStore.score result |}
  | None =>
      (* not reached: [searchSimilarChunks] asks for the metadata *)
      {| contextId := VectorStore.matchId result;
         contextText := [];
         contextSource := JUndefined;
         contextChunkIndex := 0;
         similarity := VectorStore.score result |}
  end.

(** The end of the handler, from [searchResult.results] on. *)
Definition answerFrom (message : jsstring)
           (results : list VectorStore.queryMatch) : response :=
  let contextChunks := map contextChunkOf results in
  let aiResponse := generateContextualResponse message contextChunks in
  let sources :=
    map (fun chunk => {| sourceName := contextSource chunk |})
        contextChunks in
  {| statusCode := 200;
     body := ChatBody (JStr message) aiResponse sources
                      (Z.of_nat (length results)) |}.

Definition searchArguments (request : chatRequest) (threshold : float)
  : EmbeddingService.searchOptions :=
  {| EmbeddingService.topK :=
       match chatMaxChunks request with
       | CountUndefined => CountNumber 8
       | maxChunks => maxChunks
       end;
     EmbeddingService.documentId :=
       match chatDocumentId request with
       | JUndefined => JNull
       | d => d
       end;
     EmbeddingService.threshold := threshold |}.

(** The handler: the calls it makes to [searchSimilarChunks], in order,
    and the response.  The handler does not change the state. *)
Definition postChat (srv : server) (request : chatRequest)
  : list EmbeddingService.searchOptions * response :=
  match chatMessage request with
  | JStr message =>
      if negb (truthy (JStr message)) || (length (trim message) =? 0)
      then ([], {| statusCode := 400;
                   body := ErrorBody (js "Message is required") |})
      else
        let completedDocs :=
          filter (fun doc => match status doc with
                             | Completed => true
                             | _ => false
                             end)
                 (JsMap.values (processedDocuments srv)) in
        if length completedDocs =? 0
        then ([], {| statusCode := 200;
                     body := ChatBody (JStr message) noDocumentsAnswer [] 0 |})
        else
          let first := searchArguments request 0.15%float in
          let searchResult :=
            EmbeddingService.searchSimilarChunks
              textToVector (vectorStore srv) message first in
          if length (EmbeddingService.results searchResult) =? 0
          then
            let retry := searchArguments request 0.05%float in
            let retryResult :=
              EmbeddingService.searchSimilarChunks
                textToVector (vectorStore srv) message retry in
            if length (EmbeddingService.results retryResult) =? 0
            then ([first; retry],
                  {| statusCode := 200;
                     body := ChatBody (JStr message) notFoundAnswer [] 0 |})
            else ([first; retry],
                  answerFrom message (EmbeddingService.results retryResult))
          else ([first],
                answerFrom message (EmbeddingService.results searchResult))
  | other =>
      if negb (truthy other)
      then ([], {| statusCode := 400;
                   body := ErrorBody (js "Message is required") |})
      else
        (* [message.trim] is not a function: the [catch] answers *)
        ([], {| statusCode := 500; body := ErrorBody (js "Chat failed") |})
  end.

End Chat.

(** *** [DELETE /:documentId] *)

Definition deleteDocument (srv : server) (documentId : jsstring)
  : server * response :=
  let processedDoc := JsMap.get documentId (processedDocuments srv) in
  let fileName :=
    orElse (match processedDoc with
            | Some doc => fileName doc
            | None => JUndefined
            end)
           (JStr (js "Unknown Document")) in
  let hadProcessedDoc := JsMap.has documentId (processedDocuments srv) in
  let processedDocuments' := JsMap.delete documentId (processedDocuments srv) in
  let hadChunks := JsMap.has documentId (documentChunks srv) in
  let documentChunks' := JsMap.delete documentId (documentChunks srv) in
  let '(vectorStore', result) :=
    EmbeddingService.deleteDocumentEmbeddings (vectorStore srv) documentId in
  let embeddingsCleared :=
    match result with
    | Returned _ => true
    | Raised _ => false
    end in
  ({| processedDocuments := processedDocuments';
      documentChunks := documentChunks';
      vectorStore := vectorStore' |},
   {| statusCode := 200;
      body := DeletedBody (js "Document deletion completed")
        {| summaryDocumentId := documentId;
           summaryFileName := fileName;
           cleared :=
             {| clearedProcessedDocuments := hadProcessedDoc;
                clearedDocumentChunks := hadChunks;
                clearedEmbeddings := embeddingsCleared |};
           remainingDocs := JsMap.size processedDocuments';
           remainingChunks := JsMap.size documentChunks' |} |}).

End ProcessApi.

(** ** The statements of the specification

    Readings of the specification's own words, to be compared with the code
    above. *)

Module Spec.

(** "reports zero cleared items": how many of the three stores the
    deletion summary reports as cleared. *)
Definition clearedItems (summary : ProcessApi.deletionSummary) : nat :=
  let flags := ProcessApi.cleared summary in
  (if ProcessApi.clearedProcessedDocuments flags then 1 else 0)
  + (if ProcessApi.clearedDocumentChunks flags then 1 else 0)
  + (if ProcessApi.clearedEmbeddings flags then 1 else 0).

Definition summaryOf (r : ProcessApi.response)
  : option ProcessApi.deletionSummary :=
  match ProcessApi.body r with
  | ProcessApi.DeletedBody _ summary => Some summary
  | _ => None
  end.

(** No record of the store belongs to the document. *)
Definition noEmbeddings (d : jsstring) (s : VectorStore.store) : Prop :=
  Forall (fun e => VectorStore.documentId (VectorStore.metadata (snd e)) <> d) s.

(** "the number of whitespace-separated words": the pieces between runs of
    whitespace that are not empty, as the extraction routines of the source
    count words. *)
Definition wordCount (s : jsstring) : Z :=
  Z.of_nat (length (filter (fun word => 0 <? length word)
                           (split whitespaceRun s))).

(** "ceil(wordCount(s) * 0.75)" *)
Definition estimateTokens (s : jsstring) : Z :=
  Qceiling (inject_Z (wordCount s) * (75 # 100)).

(** "split into sentences (same rule as the chunker), discard sentences
    under 20 characters, cap to the first 15 candidate sentences". *)
Definition candidateSentences (combinedContext : jsstring) : list jsstring :=
  firstn 15
    (filter (fun s => 20 <=? length s)
       (Chunker.splitIntoSentences combinedContext)).

(** [q] follows [p] among the sentence groups of a run with overlap budget
    [overlapTokens]: the sentences carried over, the overlap of [q], are
    the last sentences of [p] and the first of [q]; they are none, or
    their estimated tokens stay within the budget; and they are all that
    fit: [p] holds no sentence before them, or that sentence would take
    the sum over the budget. *)
Definition carriesOver (overlapTokens : Z) (p q : Chunker.sentenceGroup) : Prop :=
  Chunker.groupSentences p <> []
  /\ (exists rest,
        Chunker.groupSentences q = Chunker.overlapPrefix q ++ rest)
  /\ exists before,
      Chunker.groupSentences p = before ++ Chunker.overlapPrefix q
      /\ (Chunker.overlapPrefix q = []
          \/ (Chunker.sumTokens (Chunker.overlapPrefix q) <= overlapTokens)%Z)
      /\ forall earlier sentence,
          before = earlier ++ [sentence] ->
          (overlapTokens
           < Chunker.estimateTokens sentence
             + Chunker.sumTokens (Chunker.overlapPrefix q))%Z.

(** [P] holds of every two neighbours of a list. *)
Fixpoint neighbours {A : Type} (P : A -> A -> Prop) (l : list A) : Prop :=
  match l with
  | a :: (b :: _) as rest => P a b /\ neighbours P rest
  | _ => True
  end.


(** The [sources] entry of a retrieved chunk. *)
Definition sourceOf (result : VectorStore.queryMatch) : ProcessApi.source :=
  {| ProcessApi.sourceName :=
       match VectorStore.matchMetadata result with
       | Some meta => VectorStore.fileName meta
       | None => JUndefined
       end |}.

End Spec.

(** ** Sample data *)

Module Samples.

Definition sampleMetadata (d : string) (file : string) (i : Z)
  : VectorStore.embeddingMetadata :=
  {| VectorStore.text := js "Quarterly revenue grew.";
     VectorStore.documentId := js d;
     VectorStore.fileName := JStr (js file);
     VectorStore.fileType := JStr (js "text/plain");
     VectorStore.chunkIndex := i;
     VectorStore.totalChunks := 2;
     VectorStore.tokenCount := 3;
     VectorStore.wordCount := JUndefined;
     VectorStore.createdAt := js "2025-01-01T00:00:00.000Z" |}.

Definition sampleVector (d : string) (file : string) (i : nat)
           (values : list float) : jsstring * VectorStore.storedVector :=
  (js d ++ js "_chunk_" ++ ofNat i,
   {| VectorStore.id := js d ++ js "_chunk_" ++ ofNat i;
      VectorStore.values := values;
      VectorStore.metadata := sampleMetadata d file (Z.of_nat i) |}).

Definition sampleStore : VectorStore.store :=
  [ sampleVector "doc-1" "report.txt" 0 [1; 0]%float;
    sampleVector "doc-1" "report.txt" 1 [0.6; 0.8]%float ].

Definition sampleJob (d : string) (st : ProcessApi.jobStatus) : ProcessApi.job :=
  {| ProcessApi.documentId := js d;
     ProcessApi.fileName := JStr (js "report.txt");
     ProcessApi.fileType := JStr (js "text/plain");
     ProcessApi.s3Key := JStr (js "documents/1-report.txt");
     ProcessApi.status := st;
     ProcessApi.startedAt := js "2025-01-01T00:00:00.000Z";
     ProcessApi.progress := js "Initializing...";
     ProcessApi.progressDetails := None;
     ProcessApi.completedAt := None;
     ProcessApi.error := None;
     ProcessApi.errorAt := None |}.

Definition sampleServer (st : ProcessApi.jobStatus) : ProcessApi.server :=
  {| ProcessApi.processedDocuments := [(js "doc-1", sampleJob "doc-1" st)];
     ProcessApi.documentChunks := [];
     ProcessApi.vectorStore := sampleStore |}.

Definition sampleRequest : ProcessApi.processRequest :=
  {| ProcessApi.reqFileName := JStr (js "report.txt");
     ProcessApi.reqFileType := JStr (js "text/plain");
     ProcessApi.reqS3Key := JStr (js "documents/1-report.txt") |}.

Definition emptyRequest : ProcessApi.processRequest :=
  {| ProcessApi.reqFileName := JUndefined;
     ProcessApi.reqFileType := JUndefined;
     ProcessApi.reqS3Key := JUndefined |}.

Definition sampleNow : jsstring := js "2025-01-02T00:00:00.000Z".

(** A stand-in embedding that sends every text to the first unit vector,
    and a stand-in for the template stage of the answer. *)
Definition constantEmbedding : jsstring -> list float :=
  fun _ => [1; 0]%float.

Definition plainAnswer : jsstring -> list jsstring -> jsstring -> jsstring :=
  fun _ sentences _ => join (js " ") sentences.

(** A body with the message alone, or with the message and a small
    natural number as [maxChunks]. *)
Definition sampleChat (message : string) (maxChunks : option Z)
  : ProcessApi.chatRequest :=
  {| ProcessApi.chatMessage := JStr (js message);
     ProcessApi.chatDocumentId := JUndefined;
     ProcessApi.chatMaxChunks :=
       match maxChunks with
       | Some k => CountNumber (PrimFloat.of_uint63 (Uint63.of_Z k))
       | None => CountUndefined
       end |}.


Definition sampleContext (t : string) : ProcessApi.contextChunk :=
  {| ProcessApi.contextId := js "doc-1_chunk_0";
     ProcessApi.contextText := js t;
     ProcessApi.contextSource := JStr (js "report.txt");
     ProcessApi.contextChunkIndex := 0;
     ProcessApi.similarity := 1%float |}.

End Samples.

From Stdlib Require DecimalNat.

(** ** Text cleaning: [backend/utils/textExtractor.js] *)

Module TextCleaning.

Definition isNewline (c : N) : bool := (c =? 10)%N.

(** [s.replace(/\r\n/g, '\n')]: a carriage return in front of a line feed
    goes. *)
Fixpoint replaceCRLF (s : jsstring) : jsstring :=
  match s with
  | [] => []
  | c :: s' =>
      match s' with
      | c' :: _ =>
          if ((c =? 13) && (c' =? 10))%N then replaceCRLF s'
          else c :: replaceCRLF s'
      | [] => [c]
      end
  end.

(** [s.replace(/p{least,}/g, replacement)] for a character class [p]: the
    scan goes from the left; where a run of [p] of [least] characters or
    more starts, the whole run is replaced and the scan goes on behind it;
    other characters are copied.  [skip] counts the characters of the
    current run still to jump over. *)
Fixpoint replaceRuns (p : N -> bool) (least : nat) (replacement : jsstring)
         (skip : nat) (s : jsstring) : jsstring :=
  match s with
  | [] => []
  | c :: s' =>
      match skip with
      | S k => replaceRuns p least replacement k s'
      | O =>
          if p c && (least <=? runLength p s)
          then replacement ++ replaceRuns p least replacement (runLength p s') s'
          else c :: replaceRuns p least replacement 0 s'
      end
  end.

(** The cleaning of [extractTextFromPDF] and [extractTextFromTXT]:
    [.replace(/\r\n/g, '\n').replace(/\n{3,}/g, '\n\n')
     .replace(/\s{2,}/g, ' ').trim()] *)
Definition cleanText (raw : jsstring) : jsstring :=
  trim (replaceRuns isWhiteSpace 2 (js " ") 0
          (replaceRuns isNewline 3 [10; 10]%N 0 (replaceCRLF raw))).

(** The cleaning of [extractTextFromDOCX], which also turns tabs into
    spaces: [.replace(/\t/g, ' ')] comes third. *)
Definition cleanDocxText (raw : jsstring) : jsstring :=
  trim (replaceRuns isWhiteSpace 2 (js " ") 0
          (map (fun c => if (c =? 9)%N then 32%N else c)
               (replaceRuns isNewline 3 [10; 10]%N 0 (replaceCRLF raw)))).

(** [cleanText.split(/\s+/).filter(word => word.length > 0).length] *)
Definition countWords (cleaned : jsstring) : Z :=
  Z.of_nat (length (filter (fun word => 0 <? length word)
                           (split whitespaceRun cleaned))).

(** [Math.max(1, Math.ceil(wordCount / 250))] *)
Definition estimatePages (wordCount : Z) : Z :=
  Z.max 1 (Qceiling (inject_Z wordCount / inject_Z 250)).

Record extraction : Type := mkExtraction {
  text : jsstring;
  pages : Z;
  metadata : list (jsstring * jsval);
  wordCount : Z;
  characterCount : Z
}.

(** [extractTextFromTXT], from the text that [buffer.toString('utf-8')]
    decoded. *)
Definition extractTextFromTXT (decoded : jsstring) : extraction :=
  let cleaned := cleanText decoded in
  let words := countWords cleaned in
  let estimatedPages := estimatePages words in
  {| text := cleaned;
     pages := estimatedPages;
     metadata := [ (js "title", JStr []); (js "author", JStr []);
                   (js "subject", JStr []); (js "pages", JNum estimatedPages);
                   (js "encoding", JStr (js "utf-8")) ];
     wordCount := words;
     characterCount := Z.of_nat (length cleaned) |}.

End TextCleaning.

(** ** Chunk statistics: [getChunkingStats] *)

(** The numbers that the statistics can be: integers, the two infinities
    and NaN. *)
Inductive number : Type :=
| NaN
| NegInfinity
| Finite (z : Z)
| PosInfinity.

Module ChunkStats.

(** [Math.max(...values)]: [-Infinity] without arguments. *)
Definition maxOf (values : list Z) : number :=
  fold_left (fun best v =>
               match best with
               | Finite b => Finite (Z.max b v)
               | _ => Finite v
               end) values NegInfinity.

(** [Math.min(...values)]: [Infinity] without arguments. *)
Definition minOf (values : list Z) : number :=
  fold_left (fun best v =>
               match best with
               | Finite b => Finite (Z.min b v)
               | _ => Finite v
               end) values PosInfinity.

(** [Math.round(total / count)]: the quotient rounded to the nearest
    integer, halves upwards; a division by 0 gives NaN or an infinity.
    (For totals below 2^52 the double quotient rounds as the exact one.) *)
Definition roundedMean (total : Z) (count : nat) : number :=
  match count with
  | O => if (total =? 0)%Z then NaN
         else if (0 <? total)%Z then PosInfinity else NegInfinity
  | S _ => Finite (Qfloor (inject_Z total / inject_Z (Z.of_nat count)
                           + (1 # 2)))
  end.

Record chunkingStats : Type := mkStats {
  totalChunks : Z;
  totalTokens : Z;
  avgTokensPerChunk : number;
  maxTokensPerChunk : number;
  minTokensPerChunk : number
}.

Definition getChunkingStats (chunks : list Chunker.chunkWithMetadata)
  : chunkingStats :=
  let tokenCounts :=
    map (fun c => Chunker.tokenCount (Chunker.base c)) chunks in
  let totalTokens := fold_left Z.add tokenCounts 0%Z in
  {| totalChunks := Z.of_nat (length chunks);
     totalTokens := totalTokens;
     avgTokensPerChunk := roundedMean totalTokens (length chunks);
     maxTokensPerChunk := maxOf tokenCounts;
     minTokensPerChunk := minOf tokenCounts |}.

End ChunkStats.

(** ** The placeholder embedding: [InMemoryVectorStore.textToVector] *)

Module Embedding.

(** [vector[i] += x]; an index that is no element index changes no
    element. *)
Fixpoint addAt (i : nat) (x : float) (vector : list float) : list float :=
  match vector, i with
  | [], _ => []
  | y :: vector', O => (y + x)%float :: vector'
  | y :: vector', S i' => y :: addAt i' x vector'
  end.

(** An integer as a double (exact below 2^53). *)
Definition numberOf (n : nat) : float :=
  PrimFloat.of_uint63 (Uint63.of_Z (Z.of_nat n)).

Section TextToVector.

(** [String.prototype.toLowerCase] and [Math.sin] are taken as the engine
    gives them. *)
Variable toLowerCase : jsstring -> jsstring.
Variable sin : float -> float.

(** [for (let i = 0; i < word.length; i++)], from position [i] on. *)
Fixpoint charLoop (dimensions index i : nat) (word : jsstring)
         (vector : list float) : list float :=
  match word with
  | [] => vector
  | charCode :: word' =>
      let vectorIndex := (N.to_nat charCode + index * i) mod dimensions in
      charLoop dimensions index (S i) word'
        (addAt vectorIndex
               (sin (numberOf (N.to_nat charCode + index)) * 0.1)%float
               vector)
  end.

(** [words.forEach((word, index) => ...)], from the word of index [index]
    on. *)
Fixpoint wordLoop (dimensions index : nat) (words : list jsstring)
         (vector : list float) : list float :=
  match words with
  | [] => vector
  | word :: words' =>
      wordLoop dimensions (S index) words'
               (charLoop dimensions index 0 word vector)
  end.

(** [textToVector(text, dimensions = 1536)] *)
Definition textToVector (dimensions : nat) (text : jsstring) : list float :=
  let words := split whitespaceRun (toLowerCase text) in
  let vector := wordLoop dimensions 0 words (repeat 0%float dimensions) in
  let magnitude :=
    PrimFloat.sqrt
      (fold_left (fun sum val => (sum + val * val)%float) vector 0%float) in
  if (0 <? magnitude)%float
  then map (fun val => (val / magnitude)%float) vector
  else vector.

End TextToVector.

End Embedding.

(** ** Answer synthesis: the rest of [generateContextualResponse] *)

Module AnswerSynthesis.

Fixpoint startsWith (s prefix : jsstring) : bool :=
  match prefix, s with
  | [], _ => true
  | p :: prefix', c :: s' => (p =? c)%N && startsWith s' prefix'
  | _ :: _, [] => false
  end.

(** [s.includes(needle)] *)
Fixpoint includes (s needle : jsstring) : bool :=
  startsWith s needle
  || match s with
     | [] => false
     | _ :: s' => includes s' needle
     end.

(** [\d] and [\w] *)
Definition isDigit (c : N) : bool := ((48 <=? c) && (c <=? 57))%N.

Definition isWordChar (c : N) : bool :=
  (isDigit c || ((65 <=? c) && (c <=? 90)) || ((97 <=? c) && (c <=? 122))
   || (c =? 95))%N.

(** [/^\d+[\.)]\s/.test(s)] *)
Definition numberedItem (s : jsstring) : bool :=
  (0 <? runLength isDigit s)
  && match skipn (runLength isDigit s) s with
     | mark :: space :: _ =>
         ((mark =? 46) || (mark =? 41))%N && isWhiteSpace space
     | _ => false
     end.

(** A word of [/\b(w1|w2|...)\b/], tried at one position: the words of the
    source begin and end with a word character, so [\b] asks for no word
    character on the other side. *)
Definition wordAt (prev : option N) (s word : jsstring) : bool :=
  match prev with
  | Some c => negb (isWordChar c)
  | None => true
  end
  && startsWith s word
  && match skipn (length word) s with
     | c :: _ => negb (isWordChar c)
     | [] => true
     end.

(** [/\b(w1|w2|...)\b/.test(s)] *)
Fixpoint hasWord (words : list jsstring) (prev : option N) (s : jsstring)
  : bool :=
  existsb (wordAt prev s) words
  || match s with
     | [] => false
     | c :: s' => hasWord words (Some c) s'
     end.

Definition includesAny (s : jsstring) (needles : list string) : bool :=
  existsb (fun needle => includes s (js needle)) needles.

Definition basedOn : jsstring := js "Based on your documents:" ++ [10; 10]%N.
Definition accordingTo : jsstring :=
  js "According to your documents:" ++ [10; 10]%N.
Definition blankLine : jsstring := [10; 10]%N.

Definition fallbackAnswer : jsstring :=
  js "I found some information in your documents, but couldn't extract a clear answer to your question.".

Section Builders.

(** [String.prototype.toLowerCase], as the engine gives it. *)
Variable toLowerCase : jsstring -> jsstring.

Definition buildOverviewResponse (sentences : list jsstring) : jsstring :=
  let overviewSentences :=
    filter (fun s =>
              includesAny (toLowerCase s)
                ["overview"; "introduction"; "document"; "project"; "system";
                 "assignment"; "implements"; "designed"]%string)
           sentences in
  if 0 <? length overviewSentences
  then basedOn ++ join (js ". ") (slice0 3 overviewSentences) ++ js "."
  else basedOn ++ join (js ". ") (slice0 3 sentences) ++ js ".".

(** [sentences.forEach(...)] pushes a sentence once for each of the two
    tests it passes. *)
Definition buildListResponse (sentences : list jsstring) : jsstring :=
  let listItems :=
    flat_map
      (fun sentence =>
         (if numberedItem (trim sentence)
             || includes sentence (js "first")
             || includes sentence (js "second")
          then [sentence] else [])
         ++ (if includesAny sentence ["include"; "contains"; "consists"]%string
             then [sentence] else []))
      sentences in
  if 0 <? length listItems
  then basedOn ++ join blankLine (slice0 5 listItems)
  else basedOn ++ join blankLine (slice0 4 sentences).

Definition buildHowResponse (sentences : list jsstring) : jsstring :=
  let howSentences :=
    filter (fun s =>
              let lower := toLowerCase s in
              includesAny lower
                ["step"; "process"; "method"; "procedure"; "implement";
                 "create"; "build"; "setup"]%string
              || hasWord [js "first"; js "then"; js "next"; js "finally";
                          js "after"] None lower)
           sentences in
  if 0 <? length howSentences
  then basedOn ++ join blankLine (slice0 4 howSentences)
  else
    let instructionalSentences :=
      filter (fun s =>
                includesAny s ["must"; "should"; "need to"; "required"]%string)
             sentences in
    if 0 <? length instructionalSentences
    then basedOn ++ join blankLine (slice0 3 instructionalSentences)
    else basedOn ++ join blankLine (slice0 3 sentences).

Definition buildWhyResponse (sentences : list jsstring) : jsstring :=
  let whySentences :=
    filter (fun s =>
              includesAny (toLowerCase s)
                ["because"; "since"; "reason"; "purpose"; "goal"; "objective";
                 "due to"; "in order to"]%string)
           sentences in
  if 0 <? length whySentences
  then accordingTo ++ join blankLine (slice0 3 whySentences)
  else accordingTo ++ join blankLine (slice0 3 sentences).

Definition buildWhenWhereResponse (sentences : list jsstring)
           (questionLower : jsstring) : jsstring :=
  let isWhen := includes questionLower (js "when") in
  let isWhere := includes questionLower (js "where") in
  let relevantSentences :=
    filter (fun s =>
              let lower := toLowerCase s in
              if isWhen
              then includesAny lower
                     ["time"; "date"; "when"; "during"; "before"; "after"]%string
              else if isWhere
              then includesAny lower
                     ["location"; "directory"; "path"; "where"; "environment";
                      "system"]%string
              else false)
           sentences in
  if 0 <? length relevantSentences
  then basedOn ++ join blankLine (slice0 3 relevantSentences)
  else basedOn ++ join blankLine (slice0 3 sentences).

Definition buildGeneralResponse (question : jsstring)
           (sentences : list jsstring) : jsstring :=
  let questionWords :=
    filter (fun word =>
              (3 <? length word)
              && negb (existsb (fun stop => JsString.eqb (js stop) word)
                         ["what"; "how"; "why"; "when"; "where"; "does";
                          "this"]%string))
           (split whitespaceRun (toLowerCase question)) in
  let relevantSentences :=
    filter (fun s =>
              let lower := toLowerCase s in
              existsb (fun word => includes lower word) questionWords)
           sentences in
  if 0 <? length relevantSentences
  then basedOn ++ join blankLine (slice0 4 relevantSentences)
  else basedOn ++ join blankLine (slice0 3 sentences).

Definition buildFallbackResponse (sentences : list jsstring) : jsstring :=
  if length sentences =? 0
  then fallbackAnswer
  else basedOn ++ join blankLine (slice0 2 sentences).

(** The keyword tests on the question, in the order of the source, the
    builder they select, the fallback for an empty response and the final
    [trim]. *)
Definition composeAnswer (question : jsstring) (sentences : list jsstring)
           (combinedContext : jsstring) : jsstring :=
  let questionLower := trim (toLowerCase question) in
  let isWhatQuestion := includes questionLower (js "what") in
  let isHowQuestion := includes questionLower (js "how") in
  let isWhyQuestion := includes questionLower (js "why") in
  let isOverviewQuestion :=
    includes questionLower (js "about")
    || includes questionLower (js "overview")
    || includes questionLower (js "summary") in
  let isWhenQuestion := includes questionLower (js "when") in
  let isWhereQuestion := includes questionLower (js "where") in
  let isListQuestion :=
    includes questionLower (js "list")
    || includes questionLower (js "what are") in
  let response :=
    if isOverviewQuestion
       || (isWhatQuestion
           && (includes questionLower (js "document")
               || includes questionLower (js "project")))
    then buildOverviewResponse sentences
    else if isListQuestion then buildListResponse sentences
    else if isHowQuestion then buildHowResponse sentences
    else if isWhyQuestion then buildWhyResponse sentences
    else if isWhenQuestion || isWhereQuestion
    then buildWhenWhereResponse sentences questionLower
    else buildGeneralResponse question sentences in
  let response :=
    if (length response =? 0) || (length (trim response) =? 0)
    then buildFallbackResponse sentences
    else response in
  trim response.

End Builders.

End AnswerSynthesis.

(** ** The background task: [processDocumentInBackground] *)

Module Pipeline.
Import ProcessApi.

(** [{...object, [key]: value}] on an object given by its properties *)
Fixpoint setKey (key : jsstring) (value : jsval)
         (object : list (jsstring * jsval)) : list (jsstring * jsval) :=
  match object with
  | [] => [(key, value)]
  | (k, v) :: object' =>
      if JsString.eqb key k then (k, value) :: object'
      else (k, v) :: setKey key value object'
  end.

(** [{...object, ...extra}] *)
Definition spread (object extra : list (jsstring * jsval))
  : list (jsstring * jsval) :=
  fold_left (fun o kv => setKey (fst kv) (snd kv) o) extra object.

Record embeddingStats : Type := mkEmbeddingStats {
  totalEmbeddings : Z;
  failedEmbeddings : Z;
  totalTokensUsed : Z;
  vectorsStored : Z
}.

(** What the entry of a completed document holds beside the fields of
    [ProcessApi.job] ([processingTimeMs], a difference of two clock
    readings, left aside). *)
Record completionDetails : Type := mkDetails {
  extractionWordCount : Z;
  extractionCharacterCount : Z;
  extractionPages : Z;
  extractionMetadata : list (jsstring * jsval);
  previewText : jsstring;
  chunkingStats : ChunkStats.chunkingStats;
  embeddings : embeddingStats;
  totalChunks : Z
}.

Section Background.

Variable textToVector : jsstring -> list float.

(** [clock i]: the timestamp given to the chunk of index [i]; [now]: the
    timestamp of the completion or of the failure. *)
Variable clock : nat -> jsstring.
Variable now : jsstring.

(** The chunks with metadata that a run makes of an extracted text. *)
Definition chunksOf (documentId : jsstring) (fileName fileType : jsval)
           (extractionResult : TextCleaning.extraction)
  : list Chunker.chunkWithMetadata :=
  Chunker.addMetadataToChunks clock
    (Chunker.chunkText (TextCleaning.text extractionResult) 400 50)
    documentId
    (spread [(js "fileName", fileName); (js "fileType", fileType)]
            (TextCleaning.metadata extractionResult)).

Definition detailsOf (documentId : jsstring) (fileName fileType : jsval)
           (extractionResult : TextCleaning.extraction) : completionDetails :=
  let chunksWithMetadata :=
    chunksOf documentId fileName fileType extractionResult in
  let '(embeddings, totalTokens) :=
    EmbeddingService.generateEmbeddingsForChunks textToVector
                                                 chunksWithMetadata in
  {| extractionWordCount := TextCleaning.wordCount extractionResult;
     extractionCharacterCount := TextCleaning.characterCount extractionResult;
     extractionPages := TextCleaning.pages extractionResult;
     extractionMetadata := TextCleaning.metadata extractionResult;
     previewText :=
       firstn 300 (TextCleaning.text extractionResult) ++ js "...";
     chunkingStats := ChunkStats.getChunkingStats chunksWithMetadata;
     embeddings :=
       {| totalEmbeddings := Z.of_nat (length embeddings);
          failedEmbeddings := 0;
          totalTokensUsed := totalTokens;
          vectorsStored := Z.of_nat (length embeddings) |};
     totalChunks := Z.of_nat (length chunksWithMetadata) |}.

(** The [catch] of the task *)
Definition recordFailure (documentId message : jsstring) (srv : server)
  : server :=
  match JsMap.get documentId (processedDocuments srv) with
  | Some doc =>
      {| processedDocuments :=
           JsMap.set documentId
             {| documentId := ProcessApi.documentId doc;
                fileName := ProcessApi.fileName doc;
                fileType := ProcessApi.fileType doc;
                s3Key := ProcessApi.s3Key doc;
                status := Failed;
                startedAt := startedAt doc;
                progress := js "Error";
                progressDetails := Some message;
                completedAt := completedAt doc;
                error := Some message;
                errorAt := Some now |}
             (processedDocuments srv);
         documentChunks := documentChunks srv;
         vectorStore := vectorStore srv |}
  | None => srv
  end.

(** The task from the moment the extraction settles.  The functions awaited
    from here on do no input or output, so their continuations run before
    any other request is handled.  When the entry of the document is gone,
    reading its [startedAt] raises; the [catch] then finds no entry to mark
    and the chunks and vectors stored just before stay. *)
Definition processDocumentInBackgroundRest (documentId : jsstring)
           (fileName fileType s3Key : jsval)
           (extracted : outcome TextCleaning.extraction) (srv : server)
  : server :=
  match extracted with
  | Raised message => recordFailure documentId message srv
  | Returned extractionResult =>
      let srv1 :=
        updateProgress documentId (js "Text chunked") (js "Created chunks")
                       srv in
      let srv2 :=
        updateProgress documentId (js "Adding metadata...")
          (js "Enriching chunks with document information") srv1 in
      let chunksWithMetadata :=
        chunksOf documentId fileName fileType extractionResult in
      let srv3 :=
        updateProgress documentId (js "Generating embeddings...")
          (js "Converting text to AI vectors") srv2 in
      let embeddingResult :=
        EmbeddingService.generateEmbeddingsForChunks textToVector
                                                     chunksWithMetadata in
      let srv4 :=
        updateProgress documentId (js "Storing vectors...")
          (js "Saving embeddings to vector store") srv3 in
      let storeResult :=
        EmbeddingService.storeEmbeddings (fst embeddingResult)
                                         (vectorStore srv4) in
      let stored :=
        {| processedDocuments := processedDocuments srv4;
           documentChunks :=
             JsMap.set documentId chunksWithMetadata (documentChunks srv4);
           vectorStore := fst storeResult |} in
      match JsMap.get documentId (processedDocuments stored) with
      | Some doc =>
          {| processedDocuments :=
               JsMap.set documentId
                 {| documentId := documentId;
                    fileName := fileName;
                    fileType := fileType;
                    s3Key := s3Key;
                    status := Completed;
                    startedAt := startedAt doc;
                    progress := js "Completed";
                    progressDetails :=
                      Some (js "Document processing finished successfully");
                    completedAt := Some now;
                    error := None;
                    errorAt := None |}
                 (processedDocuments stored);
             documentChunks := documentChunks stored;
             vectorStore := vectorStore stored |}
      | None => stored
      end
  end.

End Background.

End Pipeline.

(** ** Fetching and dispatching: [extractTextFromDocument] *)

Module Extraction.

Definition pdfType : jsstring := js "application/pdf".
Definition docxType : jsstring :=
  js "application/vnd.openxmlformats-officedocument.wordprocessingml.document".
Definition txtType : jsstring := js "text/plain".

(** [`${value}`] for a primitive value (an integer prints its decimal
    digits while its magnitude is below 10^21) *)
Definition display (value : jsval) : jsstring :=
  match value with
  | JUndefined => js "undefined"
  | JNull => js "null"
  | JBool true => js "true"
  | JBool false => js "false"
  | JNum z =>
      if (z <? 0)%Z then js "-" ++ ofNat (Z.to_nat (- z))
      else ofNat (Z.to_nat z)
  | JStr s => s
  end.

Section Document.

(** The contents of a file.  The routines for PDF and DOCX, which rest on
    the parsers of two libraries, and the UTF-8 decoding of
    [buffer.toString] are taken as they come. *)
Variable buffer : Type.
Variable extractTextFromPDF : buffer -> outcome TextCleaning.extraction.
Variable extractTextFromDOCX : buffer -> outcome TextCleaning.extraction.
Variable decode : buffer -> jsstring.

(** [getFileFromS3]: [download] is what the request to the object store
    and the reading of the body come to. *)
Definition getFileFromS3 (download : outcome buffer) : outcome buffer :=
  match download with
  | Returned contents => Returned contents
  | Raised message =>
      Raised (js "Failed to retrieve file from S3: " ++ message)
  end.

(** [extractTextFromDocument]: the file is fetched before its type is
    looked at; the [catch] throws the error on as it is.  (The object
    returned also carries [fileName], [fileType], [s3Key] and
    [extractedAt], which the caller does not read.) *)
Definition extractTextFromDocument (download : outcome buffer)
           (fileType : jsval) : outcome TextCleaning.extraction :=
  match getFileFromS3 download with
  | Raised message => Raised message
  | Returned contents =>
      if strictEq fileType (JStr pdfType)
      then extractTextFromPDF contents
      else if strictEq fileType (JStr docxType)
      then extractTextFromDOCX contents
      else if strictEq fileType (JStr txtType)
      then Returned (TextCleaning.extractTextFromTXT (decode contents))
      else Raised (js "Unsupported file type: " ++ display fileType)
  end.

End Document.

End Extraction.

(** ** The status route: [GET /:documentId] *)

Module StatusRoute.

(** The two bodies: [{error: "Document not found", documentId}] and
    [{document}]. *)
Inductive statusBody : Type :=
| NotFound (documentId : jsstring)
| Found (document : ProcessApi.job).

(** The handler: status code and body.  An entry of the registry is an
    object, so [!processedDoc] holds of a missing entry only. *)
Definition getDocument (srv : ProcessApi.server) (documentId : jsstring)
  : Z * statusBody :=
  match JsMap.get documentId (ProcessApi.processedDocuments srv) with
  | Some processedDoc => (200%Z, Found processedDoc)
  | None => (404%Z, NotFound documentId)
  end.

End StatusRoute.

(** ** Notions used in the statements *)

Module Notions.

(** Without the whitespace characters *)
Definition strip (s : jsstring) : jsstring :=
  filter (fun c => negb (isWhiteSpace c)) s.

(** The string is not empty and neither starts nor ends with whitespace. *)
Definition clean (s : jsstring) : Prop :=
  s <> []
  /\ (forall c s', s = c :: s' -> isWhiteSpace c = false)
  /\ (forall s' c, s = s' ++ [c] -> isWhiteSpace c = false).

(** The string starts with a whitespace character. *)
Definition headIsSpace (s : jsstring) : bool :=
  match s with
  | c :: _ => isWhiteSpace c
  | [] => false
  end.

(** No two whitespace characters stand side by side. *)
Fixpoint singleSpaced (s : jsstring) : Prop :=
  match s with
  | c :: ((c' :: _) as s') =>
      ~ (isWhiteSpace c = true /\ isWhiteSpace c' = true) /\ singleSpaced s'
  | _ => True
  end.

Definition endsWithTerminal (s : jsstring) : Prop :=
  exists s' c, s = s' ++ [c] /\ isTerminal c = true.

(** The sentences of a group that are new in it. *)
Definition fresh (g : Chunker.sentenceGroup) : list jsstring :=
  skipn (length (Chunker.overlapPrefix g)) (Chunker.groupSentences g).

(** The shape of a sentence group of a run with budget [maxTokens]. *)
Definition wellFormed (maxTokens : Z) (g : Chunker.sentenceGroup) : Prop :=
  (exists added,
      added <> []
      /\ Chunker.groupSentences g = Chunker.overlapPrefix g ++ added)
  /\ Chunker.groupTokens g = Chunker.sumTokens (Chunker.groupSentences g)
  /\ ((Chunker.groupTokens g <= maxTokens)%Z
      \/ exists sentence,
          Chunker.groupSentences g = Chunker.overlapPrefix g ++ [sentence]).

(** What the loop keeps true: the open group is empty or well formed, the
    closed groups are well formed, and the new sentences of all groups are
    the sentences read so far. *)
Definition invariant (maxTokens : Z) (done : list jsstring)
           (st : Chunker.traceState)
  : Prop :=
  Forall (wellFormed maxTokens) (Chunker.closed st)
  /\ concat (map fresh (Chunker.closed st))
     ++ skipn (length (Chunker.openOverlap st)) (Chunker.openSentences st) = done
  /\ ((Chunker.openSentences st = [] /\ Chunker.openOverlap st = [] /\ Chunker.openTokens st = 0%Z
       /\ Chunker.closed st = [])
      \/ wellFormed maxTokens
           {| Chunker.overlapPrefix := Chunker.openOverlap st;
              Chunker.groupSentences := Chunker.openSentences st;
              Chunker.groupTokens := Chunker.openTokens st |}).

(** The records of a store that belong to a document *)
Definition recordsOf (d : jsstring) (s : VectorStore.store)
  : VectorStore.store :=
  filter (fun e => JsString.eqb
                     (VectorStore.documentId (VectorStore.metadata (snd e))) d)
         s.

Definition recordsNotOf (d : jsstring) (s : VectorStore.store)
  : VectorStore.store :=
  filter (fun e => negb (JsString.eqb
                           (VectorStore.documentId
                              (VectorStore.metadata (snd e))) d))
         s.

(** The record that the loop of [generateEmbeddingsForChunks] pushes for a
    chunk *)
Definition recordOfChunk (textToVector : jsstring -> list float)
           (chunk : Chunker.chunkWithMetadata) : VectorStore.storedVector :=
  let meta := Chunker.documentMetadata (Chunker.metadata chunk) in
  {| VectorStore.id := Chunker.id chunk;
     VectorStore.values := textToVector (Chunker.text (Chunker.base chunk));
     VectorStore.metadata :=
       {| VectorStore.text :=
            firstn 1000 (Chunker.text (Chunker.base chunk));
          VectorStore.documentId := Chunker.documentId chunk;
          VectorStore.fileName := Chunker.lookupKey (js "fileName") meta;
          VectorStore.fileType := Chunker.lookupKey (js "fileType") meta;
          VectorStore.chunkIndex := Chunker.chunkIndex (Chunker.base chunk);
          VectorStore.totalChunks :=
            Chunker.totalChunks (Chunker.metadata chunk);
          VectorStore.tokenCount := Chunker.tokenCount (Chunker.base chunk);
          VectorStore.wordCount := JUndefined;
          VectorStore.createdAt := Chunker.createdAt chunk |} |}.

(** The entry of a document whose processing finished *)
Definition completedDoc (documentId : jsstring) (fileName fileType s3Key : jsval)
           (startedAt now : jsstring) : ProcessApi.job :=
  {| ProcessApi.documentId := documentId;
     ProcessApi.fileName := fileName;
     ProcessApi.fileType := fileType;
     ProcessApi.s3Key := s3Key;
     ProcessApi.status := ProcessApi.Completed;
     ProcessApi.startedAt := startedAt;
     ProcessApi.progress := js "Completed";
     ProcessApi.progressDetails :=
       Some (js "Document processing finished successfully");
     ProcessApi.completedAt := Some now;
     ProcessApi.error := None;
     ProcessApi.errorAt := None |}.

(** The state the handlers keep: the three maps have distinct keys and
    every record of the vector store sits under its own id. *)
Definition consistent (srv : ProcessApi.server) : Prop :=
  JsMap.wf (ProcessApi.processedDocuments srv)
  /\ JsMap.wf (ProcessApi.documentChunks srv)
  /\ JsMap.wf (ProcessApi.vectorStore srv)
  /\ Forall (fun e => fst e = VectorStore.id (snd e))
            (ProcessApi.vectorStore srv).

(** [after] differs from [before] at most in the entry of the document,
    which keeps its [startedAt]; where the document has no entry nothing
    differs. *)
Definition progressed (d : jsstring) (before after : ProcessApi.server)
  : Prop :=
  ProcessApi.documentChunks after = ProcessApi.documentChunks before
  /\ ProcessApi.vectorStore after = ProcessApi.vectorStore before
  /\ (forall k, k <> d ->
        JsMap.get k (ProcessApi.processedDocuments after)
        = JsMap.get k (ProcessApi.processedDocuments before))
  /\ (JsMap.wf (ProcessApi.processedDocuments before) ->
      JsMap.wf (ProcessApi.processedDocuments after))
  /\ match JsMap.get d (ProcessApi.processedDocuments before) with
     | Some doc =>
         exists doc',
           JsMap.get d (ProcessApi.processedDocuments after) = Some doc'
           /\ ProcessApi.startedAt doc' = ProcessApi.startedAt doc
     | None => after = before
     end.

(** The run ended in the [catch]: the entry of the document records the
    failure with the message, and the chunk table and the vector store are
    as before. *)
Definition failedWith (d message : jsstring)
           (before after : ProcessApi.server) : Prop :=
  (exists failed,
      JsMap.get d (ProcessApi.processedDocuments after) = Some failed
      /\ ProcessApi.status failed = ProcessApi.Failed
      /\ ProcessApi.error failed = Some message
      /\ ProcessApi.progress failed = js "Error")
  /\ ProcessApi.documentChunks after = ProcessApi.documentChunks before
  /\ ProcessApi.vectorStore after = ProcessApi.vectorStore before.

(** A store whose records sit under their own ids *)
Definition keyedById (s : VectorStore.store) : Prop :=
  Forall (fun e => fst e = VectorStore.id (snd e)) s.

End Notions.

(** ** More sample data *)

Module MoreSamples.

(** Lower case for the letters A to Z, other code units as they are. *)
Definition asciiLower (s : jsstring) : jsstring :=
  map (fun c => if ((65 <=? c) && (c <=? 90))%N then (c + 32)%N else c) s.

(** A stand-in for the sine *)
Definition sineStandIn (x : float) : float := 1%float.

Definition sampleExtraction : TextCleaning.extraction :=
  TextCleaning.extractTextFromTXT
    (js "Quarterly revenue grew by ten percent.  Costs fell. ").

Definition sampleClock : nat -> jsstring :=
  fun _ => js "2025-01-03T00:00:00.000Z".

End MoreSamples.

(* ================================================================== *)
(** * Part II: properties *)
(* ================================================================== *)

(** ** Strings and maps *)

Module JsStringFacts.

Lemma eqb_refl (a : jsstring) : JsString.eqb a a = true.
Proof.
  induction a as [|x a IH]; simpl; [reflexivity|].
  now rewrite N.eqb_refl, IH.
Qed.

Lemma eqb_eq (a b : jsstring) : JsString.eqb a b = true <-> a = b.
Proof.
  split; [|intros ->; apply eqb_refl].
  revert b; induction a as [|x a IH]; intros [|y b]; simpl;
    try discriminate; [reflexivity|].
  rewrite andb_true_iff, N.eqb_eq.
  intros [-> Hab]. now rewrite (IH _ Hab).
Qed.

Lemma eqb_neq (a b : jsstring) : JsString.eqb a b = false <-> a <> b.
Proof.
  rewrite <- eqb_eq. destruct (JsString.eqb a b); intuition congruence.
Qed.

Lemma dropWhile_nil_iff (p : N -> bool) (s : jsstring) :
  dropWhile p s = [] <-> forallb p s = true.
Proof.
  induction s as [|c s IH]; simpl; [tauto|].
  destruct (p c); simpl; [exact IH|]. split; discriminate.
Qed.

Lemma trim_nil_iff (s : jsstring) :
  trim s = [] <-> forallb isWhiteSpace s = true.
Proof.
  unfold trim, trimEnd, trimStart. split.
  - intros H.
    assert (Hd : dropWhile isWhiteSpace (rev (dropWhile isWhiteSpace s)) = []).
    { rewrite <- (rev_involutive (dropWhile _ (rev _))), H. reflexivity. }
    apply dropWhile_nil_iff in Hd.
    rewrite forallb_forall in Hd.
    induction s as [|c s IH]; simpl in *; [reflexivity|].
    destruct (isWhiteSpace c) eqn:Hc; simpl.
    + apply IH; [|exact Hd]. now rewrite H.
    + specialize (Hd c). rewrite Hc in Hd. apply Hd.
      rewrite <- in_rev. now left.
  - intros H. apply dropWhile_nil_iff in H. now rewrite H.
Qed.

Lemma forallb_join (p : N -> bool) (sep : jsstring) (parts : list jsstring) :
  forallb p (join sep parts) = true ->
  forall part, In part parts -> forallb p part = true.
Proof.
  induction parts as [|x parts IH]; intros H part Hin; [destruct Hin|].
  destruct parts as [|y parts].
  - destruct Hin as [<-|[]]. exact H.
  - change (join sep (x :: y :: parts)) with (x ++ sep ++ join sep (y :: parts)) in H.
    rewrite !forallb_app, !andb_true_iff in H.
    destruct H as (Hx & _ & Hrest).
    destruct Hin as [<-|Hin]; [exact Hx|]. now apply IH.
Qed.

Lemma forallb_rev (p : N -> bool) (s : jsstring) :
  forallb p (rev s) = forallb p s.
Proof.
  induction s as [|c s IH]; simpl; [reflexivity|].
  rewrite forallb_app, IH. simpl. rewrite andb_true_r. apply andb_comm.
Qed.

(** A piece of [split] by [/[.!?]+/] holds no terminal mark. *)
Lemma splitFrom_terminalRun_clean (s piece : jsstring) (prev : option N) (skip : nat) :
  forallb (fun c => negb (isTerminal c)) piece = true ->
  skip <= runLength isTerminal s ->
  Forall (fun p => forallb (fun c => negb (isTerminal c)) p = true)
         (splitFrom terminalRun prev piece skip s).
Proof.
  revert piece prev skip.
  induction s as [|c s IH]; intros piece prev skip Hp Hskip; simpl.
  - constructor; [|constructor]. rewrite forallb_rev. exact Hp.
  - destruct skip as [|k].
    + unfold terminalRun at 1. simpl. destruct (isTerminal c) eqn:Hc.
      * constructor; [rewrite forallb_rev; exact Hp|].
        apply IH; [reflexivity|lia].
      * apply IH; [simpl; now rewrite Hc|lia].
    + simpl in Hskip. destruct (isTerminal c); [|lia].
      apply IH; [exact Hp|lia].
Qed.

Lemma split_terminalRun_clean (s : jsstring) :
  Forall (fun p => forallb (fun c => negb (isTerminal c)) p = true)
         (split terminalRun s).
Proof. apply splitFrom_terminalRun_clean; [reflexivity|lia]. Qed.

Lemma forallb_dropWhile (q p : N -> bool) (s : jsstring) :
  forallb q s = true -> forallb q (dropWhile p s) = true.
Proof.
  induction s as [|c s IH]; simpl; [auto|].
  rewrite andb_true_iff. intros [Hc Hs].
  destruct (p c); [auto|]. simpl. now rewrite Hc, Hs.
Qed.

Lemma forallb_trim (q : N -> bool) (s : jsstring) :
  forallb q s = true -> forallb q (trim s) = true.
Proof.
  intros H. unfold trim, trimEnd, trimStart.
  rewrite forallb_rev. apply forallb_dropWhile.
  rewrite forallb_rev. now apply forallb_dropWhile.
Qed.

Lemma in_firstn {A : Type} (n : nat) (l : list A) (x : A) :
  In x (firstn n l) -> In x l.
Proof.
  revert l. induction n as [|n IH]; intros [|y l]; simpl; try tauto.
  intros [->|H]; [now left|right; now apply IH].
Qed.

Lemma length_slice0_le {A : Type} (k : nat) (l : list A) :
  length (slice0 (Z.of_nat k) l) <= k.
Proof.
  unfold slice0. destruct (Z.ltb_spec (Z.of_nat k) 0); [lia|].
  rewrite Nat2Z.id, length_firstn. lia.
Qed.

End JsStringFacts.

Module JsMapFacts.
Import JsStringFacts.

Lemma get_none_notin {V} (k : jsstring) (m : JsMap.t V) :
  JsMap.get k m = None <-> ~ In k (JsMap.keys m).
Proof.
  induction m as [|[k' v] m IH]; simpl; [tauto|].
  destruct (JsString.eqb k k') eqn:E.
  - apply eqb_eq in E. subst. split; [discriminate|]. intros H. elim H. now left.
  - apply eqb_neq in E. rewrite IH. intuition congruence.
Qed.

Lemma delete_absent {V} (k : jsstring) (m : JsMap.t V) :
  JsMap.get k m = None -> JsMap.delete k m = m.
Proof.
  induction m as [|[k' v] m IH]; simpl; [reflexivity|].
  destruct (JsString.eqb k k'); [discriminate|].
  intros H. now rewrite IH.
Qed.

Lemma get_set_same {V} (k : jsstring) (v : V) (m : JsMap.t V) :
  JsMap.get k (JsMap.set k v m) = Some v.
Proof.
  induction m as [|[k' v'] m IH]; simpl.
  - now rewrite eqb_refl.
  - destruct (JsString.eqb k k') eqn:E; simpl.
    + now rewrite eqb_refl.
    + now rewrite E.
Qed.

Lemma keys_set {V} (k : jsstring) (v : V) (m : JsMap.t V) :
  JsMap.keys (JsMap.set k v m) =
  if JsMap.has k m then JsMap.keys m else JsMap.keys m ++ [k].
Proof.
  unfold JsMap.has.
  induction m as [|[k' v'] m IH]; simpl; [reflexivity|].
  destruct (JsString.eqb k k') eqn:E; simpl.
  - apply eqb_eq in E. now subst.
  - rewrite IH. now destruct (JsMap.get k m).
Qed.

Lemma wf_set {V} (k : jsstring) (v : V) (m : JsMap.t V) :
  JsMap.wf m -> JsMap.wf (JsMap.set k v m).
Proof.
  unfold JsMap.wf. intros Hwf. rewrite keys_set. unfold JsMap.has.
  destruct (JsMap.get k m) eqn:G; [exact Hwf|].
  apply get_none_notin in G.
  apply NoDup_app; [exact Hwf|repeat constructor; simpl; tauto|].
  intros x Hx [<-|[]]. contradiction.
Qed.

Lemma bindings_notin {V} (k : jsstring) (m : JsMap.t V) :
  ~ In k (JsMap.keys m) -> JsMap.bindings k m = 0.
Proof.
  unfold JsMap.bindings.
  induction m as [|[k' v] m IH]; simpl; [reflexivity|].
  intros H. destruct (JsString.eqb k k') eqn:E.
  - apply eqb_eq in E. subst. elim H. now left.
  - apply IH. tauto.
Qed.

(** In a well-formed map a bound key has exactly one binding. *)
Lemma bindings_get {V} (k : jsstring) (m : JsMap.t V) :
  JsMap.wf m ->
  JsMap.bindings k m = match JsMap.get k m with Some _ => 1 | None => 0 end.
Proof.
  unfold JsMap.wf.
  induction m as [|[k' v] m IH]; simpl; [reflexivity|].
  intros Hwf. inversion Hwf as [|? ? Hnotin Hwf']; subst.
  unfold JsMap.bindings in *. simpl.
  destruct (JsString.eqb k k') eqn:E; simpl.
  - apply eqb_eq in E. subst.
    f_equal. now apply (@bindings_notin V).
  - now apply IH.
Qed.

Lemma length_set {V} (k : jsstring) (v : V) (m : JsMap.t V) :
  length (JsMap.set k v m) =
  if JsMap.has k m then length m else S (length m).
Proof.
  unfold JsMap.has.
  induction m as [|[k' v'] m IH]; simpl; [reflexivity|].
  destruct (JsString.eqb k k'); simpl; [reflexivity|].
  rewrite IH. now destruct (JsMap.get k m).
Qed.

End JsMapFacts.

(** ** Deleting from the vector store *)

Module VectorStoreFacts.
Import JsStringFacts JsMapFacts VectorStore.

(** With no constraint every iteration deletes the entry under the
    cursor. *)
Lemma deleteLoop_unconstrained (argument : deleteArgument) (s : store) (count : Z) :
  filterOrEmpty argument = [] ->
  fold_left (deleteStep argument) s (s, count) =
  ([], (count + JsMap.size s)%Z).
Proof.
  intros Hf. revert count.
  induction s as [|[k v] s IH]; intros count.
  - simpl. f_equal. unfold JsMap.size. simpl. lia.
  - cbn [fold_left]. unfold deleteStep at 2. rewrite Hf.
    cbn [passesFilter forallb fst snd JsMap.delete]. rewrite eqb_refl.
    rewrite IH. f_equal. unfold JsMap.size. cbn [length]. lia.
Qed.

(** With a constraint that no record meets no iteration deletes. *)
Lemma deleteLoop_no_match (argument : deleteArgument) (entries : store)
      (acc : store * Z) :
  Forall (fun e => passesFilter (filterOrEmpty argument) (snd e) = false) entries ->
  fold_left (deleteStep argument) entries acc = acc.
Proof.
  revert acc. induction entries as [|e entries IH]; intros acc H; [reflexivity|].
  inversion H as [|? ? He Hrest]; subst. cbn [fold_left].
  unfold deleteStep at 2. destruct acc as [vectors count]. rewrite He.
  now apply IH.
Qed.

Lemma passesFilter_documentId (d : jsstring) (v : storedVector) :
  passesFilter [(js "documentId", JStr d)] v =
  JsString.eqb (documentId (metadata v)) d.
Proof.
  unfold passesFilter. cbn [forallb fst snd].
  rewrite andb_true_r. reflexivity.
Qed.

End VectorStoreFacts.

(** ** The claims about the processing routes *)

Module ProcessApiFacts.
Import JsStringFacts JsMapFacts VectorStoreFacts ProcessApi.

Lemma postProcess_complete (now : jsstring) (srv : server) (d : jsstring)
      (request : processRequest) :
  complete request ->
  postProcess now srv d request =
  match JsMap.get d (processedDocuments srv) with
  | Some existingDoc =>
      match status existingDoc with
      | Processing =>
          (srv, {| statusCode := 409;
                   body := ConflictBody
                             (js "Document is already being processed")
                             existingDoc |})
      | _ =>
          (processDocumentInBackgroundStart d
             (register (processingDoc now d request) srv),
           {| statusCode := 200;
              body := StartedBody (js "Document processing started")
                                  (processingDoc now d request) |})
      end
  | None =>
      (processDocumentInBackgroundStart d
         (register (processingDoc now d request) srv),
       {| statusCode := 200;
          body := StartedBody (js "Document processing started")
                              (processingDoc now d request) |})
  end.
Proof.
  intros (H1 & H2 & H3). unfold postProcess. rewrite H1, H2, H3. reflexivity.
Qed.

Lemma get_after_start (now : jsstring) (srv : server) (d : jsstring)
      (request : processRequest) :
  exists running,
    JsMap.get d (processedDocuments
                   (processDocumentInBackgroundStart d
                      (register (processingDoc now d request) srv)))
    = Some running /\
    status running = Processing /\
    documentId running = d /\
    startedAt running = now.
Proof.
  unfold processDocumentInBackgroundStart, updateProgress, register.
  cbn [processedDocuments documentId processingDoc].
  rewrite get_set_same. cbn [processedDocuments].
  rewrite get_set_same. eexists. split; [reflexivity|]. now cbn.
Qed.

Lemma wf_after_start (now : jsstring) (srv : server) (d : jsstring)
      (request : processRequest) :
  JsMap.wf (processedDocuments srv) ->
  JsMap.wf (processedDocuments
              (processDocumentInBackgroundStart d
                 (register (processingDoc now d request) srv))).
Proof.
  intros Hwf.
  unfold processDocumentInBackgroundStart, updateProgress, register.
  cbn [processedDocuments documentId processingDoc].
  rewrite get_set_same. cbn [processedDocuments].
  now apply wf_set, wf_set.
Qed.

Lemma one_binding_after_start (now : jsstring) (srv : server) (d : jsstring)
      (request : processRequest) :
  JsMap.wf (processedDocuments srv) ->
  JsMap.bindings d
    (processedDocuments
       (processDocumentInBackgroundStart d
          (register (processingDoc now d request) srv))) = 1.
Proof.
  intros Hwf. rewrite bindings_get by now apply wf_after_start.
  destruct (get_after_start now srv d request) as (running & -> & _).
  reflexivity.
Qed.

(** C1, as amended.  A processing request with the three required fields, for a
    document whose registered job is in status [Processing], is answered
    409 with the registered job, and the registry is left as it was, with
    its one job for the document.  When no job of the document is in
    status [Processing], a job with status [Processing] and progress
    "Initializing..." is registered and that job is the body of the 200
    answer; when the handler returns the registry holds exactly one job
    for the document, still in status [Processing].  A second request for
    the same document directly after the first is answered 409 and
    changes nothing. *)
Theorem processing_request_entry (now : jsstring) (srv : server)
        (d : jsstring) (request : processRequest) :
  JsMap.wf (processedDocuments srv) ->
  complete request ->
  (forall existing,
      JsMap.get d (processedDocuments srv) = Some existing ->
      status existing = Processing ->
      postProcess now srv d request =
        (srv, {| statusCode := 409;
                 body := ConflictBody
                           (js "Document is already being processed")
                           existing |})
      /\ JsMap.bindings d (processedDocuments srv) = 1)
  /\
  ((forall existing,
       JsMap.get d (processedDocuments srv) = Some existing ->
       status existing <> Processing) ->
   let fresh := processingDoc now d request in
   let registered := register fresh srv in
   let after := fst (postProcess now srv d request) in
   snd (postProcess now srv d request) =
     {| statusCode := 200;
        body := StartedBody (js "Document processing started") fresh |}
   /\ JsMap.get d (processedDocuments registered) = Some fresh
   /\ status fresh = Processing
   /\ progress fresh = js "Initializing..."
   /\ after = processDocumentInBackgroundStart d registered
   /\ JsMap.bindings d (processedDocuments after) = 1
   /\ exists running,
        JsMap.get d (processedDocuments after) = Some running
        /\ status running = Processing)
  /\
  (forall now' request',
      complete request' ->
      let after := fst (postProcess now srv d request) in
      postProcess now' after d request' =
        (after, {| statusCode := 409;
                   body := ConflictBody
                             (js "Document is already being processed")
                             (match JsMap.get d (processedDocuments after) with
                              | Some running => running
                              | None => processingDoc now d request
                              end) |})
      /\ JsMap.bindings d (processedDocuments after) = 1).
Proof.
  intros Hwf Hreq.
  assert (Hstart :
            (forall existing,
                JsMap.get d (processedDocuments srv) = Some existing ->
                status existing <> Processing) ->
            postProcess now srv d request =
            (processDocumentInBackgroundStart d
               (register (processingDoc now d request) srv),
             {| statusCode := 200;
                body := StartedBody (js "Document processing started")
                                    (processingDoc now d request) |})).
  { intros Hfree. rewrite postProcess_complete by exact Hreq.
    destruct (JsMap.get d (processedDocuments srv)) as [existing|] eqn:G;
      [|reflexivity].
    specialize (Hfree existing eq_refl).
    destruct (status existing); [congruence|reflexivity|reflexivity]. }
  split; [|split].
  - intros existing G Hst. split.
    + rewrite postProcess_complete by exact Hreq. now rewrite G, Hst.
    + rewrite bindings_get by exact Hwf. now rewrite G.
  - intros Hfree fresh registered after. subst after.
    rewrite (Hstart Hfree). cbn [fst snd].
    repeat split.
    + unfold registered, register. cbn [processedDocuments].
      unfold fresh at 1. cbn [documentId processingDoc]. apply get_set_same.
    + now apply one_binding_after_start.
    + destruct (get_after_start now srv d request) as (running & G & Hst & _).
      now exists running.
  - intros now' request' Hreq' after.
    assert (Hafter : exists running,
               JsMap.get d (processedDocuments after) = Some running
               /\ status running = Processing
               /\ JsMap.bindings d (processedDocuments after) = 1).
    { subst after. rewrite postProcess_complete by exact Hreq.
      destruct (JsMap.get d (processedDocuments srv)) as [existing|] eqn:G.
      - destruct (status existing) eqn:Hst; cbn [fst].
        + exists existing. repeat split; [exact G|exact Hst|].
          rewrite bindings_get by exact Hwf. now rewrite G.
        + destruct (get_after_start now srv d request) as (running & G' & Hst' & _).
          exists running. repeat split; [exact G'|exact Hst'|].
          now apply one_binding_after_start.
        + destruct (get_after_start now srv d request) as (running & G' & Hst' & _).
          exists running. repeat split; [exact G'|exact Hst'|].
          now apply one_binding_after_start.
      - cbn [fst].
        destruct (get_after_start now srv d request) as (running & G' & Hst' & _).
        exists running. repeat split; [exact G'|exact Hst'|].
        now apply one_binding_after_start. }
    destruct Hafter as (running & G & Hst & Hone).
    split; [|exact Hone].
    rewrite postProcess_complete by exact Hreq'. now rewrite G, Hst.
Qed.

Lemma processing_request_entry_witness :
  postProcess Samples.sampleNow (Samples.sampleServer Processing)
              (js "doc-1") Samples.sampleRequest =
    (Samples.sampleServer Processing,
     {| statusCode := 409;
        body := ConflictBody (js "Document is already being processed")
                             (Samples.sampleJob "doc-1" Processing) |})
  /\ JsMap.bindings (js "doc-1")
       (processedDocuments (Samples.sampleServer Processing)) = 1.
Proof.
  refine (proj1 (processing_request_entry
                   Samples.sampleNow (Samples.sampleServer Processing)
                   (js "doc-1") Samples.sampleRequest _ _)
                (Samples.sampleJob "doc-1" Processing) _ _).
  - unfold JsMap.wf. vm_compute. repeat constructor. simpl. tauto.
  - unfold complete. vm_compute. tauto.
  - reflexivity.
  - reflexivity.
Defined.

(** C1, as stated, fails: a request without the required fields, for a
    document whose job is in status [Processing], is answered 400, not
    409. *)
Lemma incomplete_request_is_not_a_conflict :
  statusCode (snd (postProcess Samples.sampleNow
                               (Samples.sampleServer Processing)
                               (js "doc-1") Samples.emptyRequest)) = 400%Z
  /\ statusCode (snd (postProcess Samples.sampleNow
                                  (Samples.sampleServer Processing)
                                  (js "doc-1") Samples.emptyRequest)) <> 409%Z.
Proof. split; [reflexivity|discriminate]. Qed.

(** With no constraint on the document the deletion finds nothing. *)
Lemma deleteDocumentEmbeddings_absent (s : VectorStore.store) (d : jsstring) :
  Spec.noEmbeddings d s ->
  EmbeddingService.deleteDocumentEmbeddings s d =
  (s, Returned {| EmbeddingService.success := true;
                  EmbeddingService.deletedCount := 0;
                  EmbeddingService.deletedDocumentId := d;
                  EmbeddingService.statsBefore :=
                    VectorStore.describeIndexStats s;
                  EmbeddingService.statsAfter :=
                    VectorStore.describeIndexStats s |}).
Proof.
  intros Hnone. unfold EmbeddingService.deleteDocumentEmbeddings.
  unfold VectorStore.deleteMany.
  rewrite deleteLoop_no_match; [reflexivity|].
  unfold Spec.noEmbeddings in Hnone.
  eapply Forall_impl; [|exact Hnone].
  intros e He. cbn [VectorStore.filterOrEmpty VectorStore.filterProperty].
  rewrite passesFilter_documentId. now apply eqb_neq.
Qed.

(** C9, as amended.  Deleting a document that has no job, no chunks and
    no embeddings is answered 200; the summary reports that neither a job
    nor chunks were cleared, names the file "Unknown Document" and gives
    the unchanged sizes of the two maps, while its embeddings flag is
    [true]: the flag records that the call to the embedding service
    returned, which it does with a deleted count of 0.  The registry, the
    chunk table and the vector store are left as they were. *)
Theorem delete_unknown_document (srv : server) (d : jsstring) :
  JsMap.get d (processedDocuments srv) = None ->
  JsMap.get d (documentChunks srv) = None ->
  Spec.noEmbeddings d (vectorStore srv) ->
  deleteDocument srv d =
    (srv,
     {| statusCode := 200;
        body := DeletedBody (js "Document deletion completed")
          {| summaryDocumentId := d;
             summaryFileName := JStr (js "Unknown Document");
             cleared := {| clearedProcessedDocuments := false;
                           clearedDocumentChunks := false;
                           clearedEmbeddings := true |};
             remainingDocs := JsMap.size (processedDocuments srv);
             remainingChunks := JsMap.size (documentChunks srv) |} |})
  /\ exists result,
       snd (EmbeddingService.deleteDocumentEmbeddings (vectorStore srv) d)
       = Returned result
       /\ EmbeddingService.deletedCount result = 0%Z.
Proof.
  intros Hjob Hchunks Hnone. split.
  - unfold deleteDocument.
    rewrite (deleteDocumentEmbeddings_absent _ _ Hnone).
    unfold JsMap.has. rewrite Hjob, Hchunks.
    rewrite !delete_absent by assumption.
    destruct srv; reflexivity.
  - rewrite (deleteDocumentEmbeddings_absent _ _ Hnone).
    eexists. split; reflexivity.
Qed.

Lemma delete_unknown_document_witness :
  fst (deleteDocument (Samples.sampleServer Completed) (js "doc-2"))
  = Samples.sampleServer Completed.
Proof.
  refine (f_equal fst
            (proj1 (delete_unknown_document
                      (Samples.sampleServer Completed) (js "doc-2") _ _ _))).
  - reflexivity.
  - reflexivity.
  - unfold Spec.noEmbeddings. vm_compute.
    repeat constructor; discriminate.
Defined.

(** C9, as stated, fails: the summary for a document that never existed
    reports one cleared item, the embeddings. *)
Lemma unknown_document_reports_embeddings_cleared :
  option_map Spec.clearedItems
    (Spec.summaryOf
       (snd (deleteDocument (Samples.sampleServer Completed) (js "doc-2"))))
  = Some 1
  /\ option_map Spec.clearedItems
       (Spec.summaryOf
          (snd (deleteDocument (Samples.sampleServer Completed) (js "doc-2"))))
     <> Some 0.
Proof. split; [reflexivity|discriminate]. Qed.

(** C10.  [deleteMany] with an argument whose [filter] property is absent
    or has no entries empties the store and answers the number of records
    the store held; [clearAllEmbeddings], which passes [{deleteAll: true}],
    leaves the store empty. *)
Theorem deleteMany_without_constraints
        (argument : VectorStore.deleteArgument) (s : VectorStore.store) :
  VectorStore.filterProperty argument = None
  \/ VectorStore.filterProperty argument = Some [] ->
  VectorStore.deleteMany argument s = ([], JsMap.size s)
  /\ fst (EmbeddingService.clearAllEmbeddings s) = [].
Proof.
  intros Hf. split.
  - unfold VectorStore.deleteMany.
    rewrite deleteLoop_unconstrained; [reflexivity|].
    unfold VectorStore.filterOrEmpty. now destruct Hf as [-> | ->].
  - unfold EmbeddingService.clearAllEmbeddings, VectorStore.deleteMany.
    now rewrite deleteLoop_unconstrained.
Qed.

Lemma deleteMany_without_constraints_witness :
  VectorStore.deleteMany
    {| VectorStore.filterProperty := None;
       VectorStore.deleteAllProperty := Some true |}
    Samples.sampleStore = ([], 2%Z)
  /\ fst (EmbeddingService.clearAllEmbeddings Samples.sampleStore) = [].
Proof.
  apply (deleteMany_without_constraints
           {| VectorStore.filterProperty := None;
              VectorStore.deleteAllProperty := Some true |}
           Samples.sampleStore).
  left. reflexivity.
Defined.

End ProcessApiFacts.


(** ** The claims about the chat route *)

Module ChatFacts.
Import JsStringFacts ProcessApi.

Section Chat.

Variable textToVector : jsstring -> list float.
Variable composeAnswer : jsstring -> list jsstring -> jsstring -> jsstring.

Lemma contextSource_sourceOf (result : VectorStore.queryMatch) :
  {| sourceName := contextSource (contextChunkOf result) |} = Spec.sourceOf result.
Proof.
  unfold contextChunkOf, Spec.sourceOf.
  now destruct (VectorStore.matchMetadata result).
Qed.

Lemma answerFrom_body (message : jsstring) (results : list VectorStore.queryMatch) :
  answerFrom composeAnswer message results =
  {| statusCode := 200;
     body := ChatBody (JStr message)
               (generateContextualResponse composeAnswer message
                  (map contextChunkOf results))
               (map Spec.sourceOf results)
               (Z.of_nat (length results)) |}.
Proof.
  unfold answerFrom. rewrite map_map.
  rewrite (map_ext _ Spec.sourceOf contextSource_sourceOf). reflexivity.
Qed.



Lemma length_eqb_0 {A : Type} (l : list A) :
  (length l =? 0) = match l with [] => true | _ => false end.
Proof. now destruct l. Qed.


(** C3, as amended.  When a chat request retrieves chunks (the matches of
    the last search the handler made are not empty), the [sources] of the
    answer hold one entry per retrieved chunk, in the order of retrieval,
    each made of the chunk's [fileName] alone; a file that gave several
    chunks is listed several times.  [relevantChunks] is the number of
    retrieved chunks, which is also the number of entries. *)
Theorem chat_sources (srv : server) (request : chatRequest) (message : jsstring)
        (calls : list EmbeddingService.searchOptions) (answered : response) :
  chatMessage request = JStr message ->
  postChat textToVector composeAnswer srv request = (calls, answered) ->
  let retrieved :=
    EmbeddingService.results
      (EmbeddingService.searchSimilarChunks
         textToVector (vectorStore srv) message
         (last calls (searchArguments request 0.15%float))) in
  calls <> [] ->
  retrieved <> [] ->
  answered =
    {| statusCode := 200;
       body := ChatBody (JStr message)
                 (generateContextualResponse composeAnswer message
                    (map contextChunkOf retrieved))
                 (map Spec.sourceOf retrieved)
                 (Z.of_nat (length retrieved)) |}
  /\ length (map Spec.sourceOf retrieved) = length retrieved.
Proof.
  intros Hmsg Hrun retrieved Hcalls Hret.
  split; [|apply length_map].
  unfold postChat in Hrun. rewrite Hmsg in Hrun.
  destruct (negb (truthy (JStr message)) || (length (trim message) =? 0));
    [injection Hrun as <- _; now elim Hcalls|].
  destruct (length (filter _ _) =? 0);
    [injection Hrun as <- _; now elim Hcalls|].
  rewrite !length_eqb_0 in Hrun.
  destruct (EmbeddingService.results
              (EmbeddingService.searchSimilarChunks
                 textToVector (vectorStore srv) message
                 (searchArguments request 0.15%float))) eqn:H1.
  - destruct (EmbeddingService.results
                (EmbeddingService.searchSimilarChunks
                   textToVector (vectorStore srv) message
                   (searchArguments request 0.05%float))) eqn:H2.
    + injection Hrun as <- _. subst retrieved. cbn [last] in Hret.
      rewrite H2 in Hret. now elim Hret.
    + injection Hrun as <- <-. subst retrieved. cbn [last].
      rewrite H2. apply answerFrom_body.
  - injection Hrun as <- <-. subst retrieved. cbn [last].
    rewrite H1. apply answerFrom_body.
Qed.

(** C7, as amended.  For a chat request that retrieved chunks, the candidate
    sentences are the first 15 of: the pieces of the combined context
    between runs of terminal marks (a run of '.', '!' or '?' separates,
    whatever follows it, and belongs to no piece), each trimmed, that are
    longer than 20 code units.  So there are at most 15 candidates, each has
    21 code units or more and holds no terminal mark. *)
Theorem candidate_sentences (question : jsstring) (contextChunks : list contextChunk) :
  contextChunks <> [] ->
  let combinedContext := join (js " ") (map contextText contextChunks) in
  let pieces := map trim (split terminalRun combinedContext) in
  generateContextualResponse composeAnswer question contextChunks =
    composeAnswer question (candidateSentences combinedContext) combinedContext
  /\ candidateSentences combinedContext =
     firstn 15 (filter (fun s => 21 <=? length s) pieces)
  /\ length (candidateSentences combinedContext) <= 15
  /\ Forall (fun s => 21 <= length s
                      /\ forallb (fun c => negb (isTerminal c)) s = true)
            (candidateSentences combinedContext).
Proof.
  intros Hne combinedContext pieces.
  assert (Heq : candidateSentences combinedContext =
                firstn 15 (filter (fun s => 21 <=? length s) pieces)).
  { unfold candidateSentences, slice0. cbn [Z.ltb Z.compare Z.to_nat Pos.to_nat].
    reflexivity. }
  split; [|split; [|split]].
  - destruct contextChunks; [now elim Hne|reflexivity].
  - exact Heq.
  - rewrite Heq, length_firstn. lia.
  - rewrite Heq. apply Forall_forall. intros s Hin.
    apply in_firstn in Hin.
    apply filter_In in Hin. destruct Hin as [Hin Hlen].
    split; [now apply Nat.leb_le|].
    unfold pieces in Hin. apply in_map_iff in Hin.
    destruct Hin as (p & <- & Hp). apply forallb_trim.
    pose proof (split_terminalRun_clean combinedContext) as Hclean.
    rewrite Forall_forall in Hclean. now apply Hclean.
Qed.

End Chat.



Lemma chat_sources_witness :
  exists answer,
    snd (postChat Samples.constantEmbedding Samples.plainAnswer
                  (Samples.sampleServer Completed)
                  (Samples.sampleChat "revenue" None))
    = {| statusCode := 200;
         body := ChatBody (JStr (js "revenue")) answer
                   [ {| sourceName := JStr (js "report.txt") |};
                     {| sourceName := JStr (js "report.txt") |} ] 2 |}.
Proof.
  eexists.
  refine (proj1 (chat_sources Samples.constantEmbedding Samples.plainAnswer
                   (Samples.sampleServer Completed)
                   (Samples.sampleChat "revenue" None) (js "revenue")
                   [searchArguments (Samples.sampleChat "revenue" None) 0.15%float]
                   _ _ _ _ _)).
  - reflexivity.
  - vm_compute. reflexivity.
  - discriminate.
  - vm_compute. discriminate.
Defined.

(** C3, as stated, fails: two chunks of one file are retrieved and the file
    is listed twice in [sources]. *)
Lemma chat_sources_not_deduplicated :
  exists message answer sources count,
    body (snd (postChat Samples.constantEmbedding Samples.plainAnswer
                        (Samples.sampleServer Completed)
                        (Samples.sampleChat "revenue" None)))
    = ChatBody message answer sources count
    /\ ~ NoDup sources.
Proof.
  vm_compute. do 4 eexists. split; [reflexivity|].
  intros Hnodup. inversion Hnodup as [|? ? Hnotin _]; subst.
  apply Hnotin. now left.
Qed.

Lemma candidate_sentences_witness :
  length (candidateSentences
            (join (js " ")
               (map contextText
                  [Samples.sampleContext "Quarterly revenue grew by ten percent. Fine."])))
  <= 15.
Proof.
  refine (proj1 (proj2 (proj2
            (candidate_sentences Samples.plainAnswer (js "what grew")
               [Samples.sampleContext "Quarterly revenue grew by ten percent. Fine."]
               _)))).
  discriminate.
Defined.

(** C7, as stated, fails: a sentence of exactly 20 characters is dropped
    although the claim keeps it, and a terminal mark separates also where no
    whitespace follows it. *)
Lemma candidate_sentences_counterexample :
  length (js "The cat sat on a mat") = 20
  /\ candidateSentences (js "The cat sat on a mat") = []
  /\ Spec.candidateSentences (js "The cat sat on a mat")
     = [js "The cat sat on a mat"]
  /\ candidateSentences (js "Version 1.5 shipped to all users today")
     = [js "5 shipped to all users today"]
  /\ Spec.candidateSentences (js "Version 1.5 shipped to all users today")
     = [js "Version 1.5 shipped to all users today"].
Proof. repeat split. Qed.

End ChatFacts.


(** ** The claims about the chunker *)

Module ChunkerFacts.
Import JsStringFacts Chunker.

Lemma length_mapiFrom {A B : Type} (f : A -> nat -> B) (i : nat) (l : list A) :
  length (mapiFrom f i l) = length l.
Proof.
  revert i. induction l as [|x l IH]; intros i; simpl; [reflexivity|].
  now rewrite IH.
Qed.

Lemma map_mapiFrom {A B C : Type} (g : B -> C) (f : A -> nat -> B) (i : nat)
      (l : list A) :
  map g (mapiFrom f i l) = mapiFrom (fun x j => g (f x j)) i l.
Proof.
  revert i. induction l as [|x l IH]; intros i; simpl; [reflexivity|].
  now rewrite IH.
Qed.

Lemma mapiFrom_index {A B : Type} (h : nat -> B) (i : nat) (l : list A) :
  mapiFrom (fun _ j => h j) i l = map h (seq i (length l)).
Proof.
  revert i. induction l as [|x l IH]; intros i; simpl; [reflexivity|].
  now rewrite IH.
Qed.

Lemma mapiFrom_element {A B : Type} (h : A -> B) (i : nat) (l : list A) :
  mapiFrom (fun x _ => h x) i l = map h l.
Proof.
  revert i. induction l as [|x l IH]; intros i; simpl; [reflexivity|].
  now rewrite IH.
Qed.

Lemma mapiFrom_app {A B : Type} (f : A -> nat -> B) (i : nat) (l l' : list A) :
  mapiFrom f i (l ++ l') = mapiFrom f i l ++ mapiFrom f (i + length l) l'.
Proof.
  revert i. induction l as [|x l IH]; intros i; simpl.
  - now rewrite Nat.add_0_r.
  - rewrite IH. do 3 f_equal. lia.
Qed.

(** *** Token estimates *)

Lemma splitFrom_not_nil (sep : pattern) (prev : option N) (piece : jsstring)
      (skip : nat) (s : jsstring) :
  1 <= length (splitFrom sep prev piece skip s).
Proof.
  revert prev piece skip. induction s as [|c s IH]; intros prev piece skip; simpl.
  - lia.
  - destruct skip; [destruct (sep prev (c :: s))|]; simpl; auto with arith.
Qed.

Lemma ceil_three_quarters (words : Z) :
  Qceiling (inject_Z words * (75 # 100)) = ((3 * words + 3) / 4)%Z.
Proof.
  unfold Qceiling, Qfloor, Qopp, Qmult, inject_Z. cbn [Qnum Qden Pos.mul].
  pose proof (Z.div_mod (- (words * 75)) 100 ltac:(lia)) as H1.
  pose proof (Z.mod_pos_bound (- (words * 75)) 100 ltac:(lia)) as H2.
  pose proof (Z.div_mod (3 * words + 3) 4 ltac:(lia)) as H3.
  pose proof (Z.mod_pos_bound (3 * words + 3) 4 ltac:(lia)) as H4.
  lia.
Qed.

Lemma estimateTokens_positive (s : jsstring) : (1 <= estimateTokens s)%Z.
Proof.
  unfold estimateTokens. rewrite ceil_three_quarters.
  pose proof (splitFrom_not_nil whitespaceRun None [] 0 s) as Hlen.
  fold (split whitespaceRun s) in Hlen.
  apply Z.div_le_lower_bound; lia.
Qed.

(** C8.  The estimate of the chunker is [ceil(0.75 * pieces)] for the number
    of pieces that [split(/\s+/)] returns, empty pieces before leading and
    behind trailing whitespace included, and so is never below 1: the empty
    string estimates to 1 token where [ceil(wordCount * 0.75)] is 0, and
    " A." estimates to 2 tokens where it is 1. *)
Theorem estimateTokens_counts_empty_pieces :
  (forall s, estimateTokens s
             = ((3 * Z.of_nat (length (split whitespaceRun s)) + 3) / 4)%Z
             /\ (1 <= estimateTokens s)%Z)
  /\ estimateTokens [] = 1%Z
  /\ Spec.estimateTokens [] = 0%Z
  /\ estimateTokens (js " A.") = 2%Z
  /\ Spec.estimateTokens (js " A.") = 1%Z.
Proof.
  split; [|repeat split].
  intros s. split; [apply ceil_three_quarters|apply estimateTokens_positive].
Qed.

(** *** Chunk indices *)

Lemma seq_snoc (n : nat) : seq 0 (S n) = seq 0 n ++ [n].
Proof. rewrite seq_S. reflexivity. Qed.

Lemma pushChunk_indexed (chunks : list chunk) (currentChunk : list jsstring)
      (currentTokens : Z) :
  map chunkIndex chunks = map Z.of_nat (seq 0 (length chunks)) ->
  map chunkIndex (pushChunk chunks currentChunk currentTokens)
  = map Z.of_nat (seq 0 (length (pushChunk chunks currentChunk currentTokens))).
Proof.
  intros H. unfold pushChunk.
  destruct (0 <? length (trim (join (js " ") currentChunk))); [|exact H].
  rewrite length_app, Nat.add_1_r, seq_snoc, !map_app, H. reflexivity.
Qed.

Lemma chunkStep_indexed (maxTokens overlapTokens : Z) (st : loopState)
      (sentence : jsstring) :
  map chunkIndex (chunks st) = map Z.of_nat (seq 0 (length (chunks st))) ->
  map chunkIndex (chunks (chunkStep maxTokens overlapTokens st sentence))
  = map Z.of_nat
        (seq 0 (length (chunks (chunkStep maxTokens overlapTokens st sentence)))).
Proof.
  intros H. unfold chunkStep.
  destruct ((currentTokens st + estimateTokens sentence >? maxTokens)%Z
            && (0 <? length (currentChunk st))); [|exact H].
  destruct (overlapOf (currentChunk st) overlapTokens).
  cbn [chunks]. now apply pushChunk_indexed.
Qed.

Lemma chunkLoop_indexed (maxTokens overlapTokens : Z) (sentences : list jsstring)
      (st : loopState) :
  map chunkIndex (chunks st) = map Z.of_nat (seq 0 (length (chunks st))) ->
  let final := fold_left (chunkStep maxTokens overlapTokens) sentences st in
  map chunkIndex (chunks final) = map Z.of_nat (seq 0 (length (chunks final))).
Proof.
  revert st. induction sentences as [|s sentences IH]; intros st H; [exact H|].
  cbn [fold_left]. apply IH. now apply chunkStep_indexed.
Qed.

Lemma chunkText_indexed (text : jsstring) (maxTokens overlapTokens : Z) :
  map chunkIndex (chunkText text maxTokens overlapTokens)
  = map Z.of_nat (seq 0 (length (chunkText text maxTokens overlapTokens))).
Proof.
  unfold chunkText, chunkLoop.
  pose proof (chunkLoop_indexed maxTokens overlapTokens (splitIntoSentences text)
                {| chunks := []; currentChunk := []; currentTokens := 0 |}
                eq_refl) as H.
  cbv zeta in H.
  destruct (0 <? length _); [now apply pushChunk_indexed|exact H].
Qed.

(** C5.  For every text, budgets, document and metadata, the [n] chunks that
    [addMetadataToChunks] makes of the chunks of [chunkText] carry the
    indices 0, 1, ..., n-1 in this order, both as [chunkIndex] and as
    [metadata.chunkIndex]; every chunk has [metadata.totalChunks] n;
    [isFirstChunk] holds of the chunk of index 0 and of no other,
    [isLastChunk] of the chunk of index n-1 and of no other. *)
Theorem chunk_indexing (clock : nat -> jsstring) (text : jsstring)
        (maxTokens overlapTokens : Z) (documentId : jsstring)
        (documentMetadata : list (jsstring * jsval)) :
  let produced :=
    addMetadataToChunks clock (chunkText text maxTokens overlapTokens)
                        documentId documentMetadata in
  let n := length produced in
  n = length (chunkText text maxTokens overlapTokens)
  /\ map (fun c => chunkIndex (base c)) produced = map Z.of_nat (seq 0 n)
  /\ map (fun c => metaChunkIndex (metadata c)) produced = map Z.of_nat (seq 0 n)
  /\ map (fun c => totalChunks (metadata c)) produced
     = map (fun _ => Z.of_nat n) (seq 0 n)
  /\ map (fun c => isFirstChunk (metadata c)) produced
     = map (fun i => i =? 0) (seq 0 n)
  /\ map (fun c => isLastChunk (metadata c)) produced
     = map (fun i => S i =? n) (seq 0 n).
Proof.
  intros produced n.
  assert (Hn : n = length (chunkText text maxTokens overlapTokens)).
  { unfold n, produced, addMetadataToChunks, mapi. apply length_mapiFrom. }
  split; [exact Hn|].
  unfold produced, addMetadataToChunks, mapi.
  rewrite !map_mapiFrom. cbn [base metadata metaChunkIndex totalChunks
                               isFirstChunk isLastChunk].
  rewrite Hn. split; [|split; [|split; [|split]]].
  - rewrite mapiFrom_element. apply chunkText_indexed.
  - apply mapiFrom_index.
  - apply (mapiFrom_index
             (fun _ => Z.of_nat (length (chunkText text maxTokens overlapTokens)))).
  - rewrite (mapiFrom_index (fun i => (Z.of_nat i =? 0)%Z)).
    apply map_ext. intros i.
    destruct (Z.eqb_spec (Z.of_nat i) 0), (Nat.eqb_spec i 0); lia || reflexivity.
  - rewrite (mapiFrom_index
               (fun i => (Z.of_nat i
                          =? Z.of_nat (length (chunkText text maxTokens overlapTokens)) - 1)%Z)).
    apply map_ext. intros i.
    destruct (Z.eqb_spec (Z.of_nat i)
                (Z.of_nat (length (chunkText text maxTokens overlapTokens)) - 1)),
             (Nat.eqb_spec (S i) (length (chunkText text maxTokens overlapTokens)));
      lia || reflexivity.
Qed.

(** *** Overlap *)

Lemma sumTokens_cons (s : jsstring) (l : list jsstring) :
  sumTokens (s :: l) = (estimateTokens s + sumTokens l)%Z.
Proof. reflexivity. Qed.

(** What the inner loop returns: the sentences it took off the end of the
    chunk, their tokens, and why it stopped. *)
Lemma overlapLoop_spec (overlapTokens : Z) (remaining : list jsstring) :
  forall (acc : list jsstring) (count : Z),
    count = sumTokens acc ->
    exists taken rest,
      remaining = taken ++ rest
      /\ overlapLoop overlapTokens remaining acc count
         = (rev taken ++ acc, sumTokens (rev taken ++ acc))
      /\ (taken <> [] -> (sumTokens (rev taken ++ acc) <= overlapTokens)%Z)
      /\ (forall s rest', rest = s :: rest' ->
            (overlapTokens < sumTokens (rev taken ++ acc) + estimateTokens s)%Z).
Proof.
  induction remaining as [|s remaining IH]; intros acc count Hcount.
  - exists [], []. cbn. rewrite Hcount. repeat split; [congruence|discriminate].
  - cbn [overlapLoop].
    destruct (Z.leb_spec (count + estimateTokens s) overlapTokens) as [Hle|Hgt].
    + destruct (IH (s :: acc) (count + estimateTokens s)%Z) as
          (taken & rest & Hsplit & Hrun & Hbound & Hstop).
      { rewrite sumTokens_cons, Hcount. lia. }
      exists (s :: taken), rest. cbn [rev app].
      rewrite <- !app_assoc. cbn [app].
      split; [now rewrite Hsplit|]. split; [exact Hrun|]. split.
      * intros _. destruct taken as [|t taken].
        -- cbn [rev app]. rewrite sumTokens_cons, <- Hcount. lia.
        -- apply Hbound. discriminate.
      * exact Hstop.
    + exists [], (s :: remaining). cbn [rev app]. rewrite Hcount.
      split; [reflexivity|]. split; [reflexivity|]. split; [congruence|].
      intros s' rest' Heq. injection Heq as <- _. lia.
Qed.

Lemma overlapOf_spec (overlapTokens : Z) (currentChunk : list jsstring) :
  currentChunk <> [] ->
  exists before,
    currentChunk = before ++ fst (overlapOf currentChunk overlapTokens)
    /\ snd (overlapOf currentChunk overlapTokens)
       = sumTokens (fst (overlapOf currentChunk overlapTokens))
    /\ (fst (overlapOf currentChunk overlapTokens) = []
        \/ (sumTokens (fst (overlapOf currentChunk overlapTokens))
            <= overlapTokens)%Z)
    /\ forall earlier sentence,
        before = earlier ++ [sentence] ->
        (overlapTokens
         < estimateTokens sentence
           + sumTokens (fst (overlapOf currentChunk overlapTokens)))%Z.
Proof.
  intros Hne. unfold overlapOf.
  destruct (overlapLoop_spec overlapTokens (rev currentChunk) [] 0%Z eq_refl)
    as (taken & rest & Hsplit & Hrun & Hbound & Hstop).
  rewrite Hrun. cbn [fst snd]. rewrite app_nil_r in *.
  exists (rev rest). split; [|split; [reflexivity|split]].
  - rewrite <- (rev_involutive currentChunk), Hsplit, rev_app_distr. reflexivity.
  - destruct taken as [|t taken]; [now left|].
    right. apply Hbound. discriminate.
  - intros earlier sentence Hearlier.
    destruct rest as [|s rest'].
    { cbn in Hearlier. now destruct earlier. }
    cbn [rev] in Hearlier. apply app_inj_tail in Hearlier.
    destruct Hearlier as [_ <-].
    specialize (Hstop s rest' eq_refl). lia.
Qed.

Lemma neighbours_snoc {A : Type} (P : A -> A -> Prop) (l : list A) (a b : A) :
  Spec.neighbours P (l ++ [a]) -> P a b ->
  Spec.neighbours P ((l ++ [a]) ++ [b]).
Proof.
  induction l as [|x l IH]; intros Hl Hab.
  - cbn. tauto.
  - destruct l as [|y l].
    + cbn in *. tauto.
    + cbn [app Spec.neighbours] in *. destruct Hl as [Hxy Hl].
      split; [exact Hxy|]. now apply IH.
Qed.

Lemma neighbours_last {A : Type} (P : A -> A -> Prop) (l : list A) (a a' : A) :
  Spec.neighbours P (l ++ [a]) ->
  (forall p, P p a -> P p a') ->
  Spec.neighbours P (l ++ [a']).
Proof.
  induction l as [|x l IH]; intros Hl Hstep.
  - exact I.
  - destruct l as [|y l].
    + cbn in *. split; [|exact I]. apply Hstep. tauto.
    + cbn [app Spec.neighbours] in *. destruct Hl as [Hxy Hl].
      split; [exact Hxy|]. now apply IH.
Qed.

Lemma neighbours_front {A : Type} (P : A -> A -> Prop) (l : list A) (a : A) :
  Spec.neighbours P (l ++ [a]) -> Spec.neighbours P l.
Proof.
  induction l as [|x l IH]; intros Hl; [exact I|].
  destruct l as [|y l]; [exact I|].
  cbn [app Spec.neighbours] in *. destruct Hl as [Hxy Hl].
  split; [exact Hxy|]. now apply IH.
Qed.

Lemma neighbours_nth {A : Type} (P : A -> A -> Prop) (l : list A) (i : nat)
      (p q : A) :
  Spec.neighbours P l ->
  nth_error l i = Some p -> nth_error l (S i) = Some q -> P p q.
Proof.
  revert i. induction l as [|x l IH]; intros i Hl Hp Hq.
  - destruct i; discriminate.
  - destruct l as [|y l]; [destruct i as [|[|i]]; discriminate|].
    destruct Hl as [Hxy Hl]. destruct i as [|i].
    + cbn in Hp, Hq. injection Hp as <-. injection Hq as <-. exact Hxy.
    + apply (IH i Hl); assumption.
Qed.

(** The groups closed so far followed by the open one are linked. *)
Lemma traceStep_linked (maxTokens overlapTokens : Z) (st : traceState)
      (sentence : jsstring) :
  Spec.neighbours (Spec.carriesOver overlapTokens) (closeGroup st) ->
  Spec.neighbours (Spec.carriesOver overlapTokens)
                  (closeGroup (traceStep maxTokens overlapTokens st sentence)).
Proof.
  intros Hinv. unfold traceStep.
  destruct ((openTokens st + estimateTokens sentence >? maxTokens)%Z
            && (0 <? length (openSentences st))) eqn:Hclose.
  - apply andb_true_iff in Hclose. destruct Hclose as [_ Hlen].
    assert (Hne : openSentences st <> []).
    { destruct (openSentences st); [discriminate|discriminate]. }
    destruct (overlapOf_spec overlapTokens (openSentences st) Hne)
      as (before & Hsuffix & _ & Hbound & Hstop).
    destruct (overlapOf (openSentences st) overlapTokens)
      as [overlapSentences overlapTokenCount].
    cbn [fst snd] in *. unfold closeGroup at 1.
    cbn [closed openOverlap openSentences openTokens].
    apply neighbours_snoc; [exact Hinv|].
    unfold Spec.carriesOver. cbn [groupSentences overlapPrefix].
    split; [exact Hne|]. split; [now exists [sentence]|].
    exists before. split; [exact Hsuffix|]. split; [exact Hbound|exact Hstop].
  - unfold closeGroup in *.
    cbn [closed openOverlap openSentences openTokens].
    eapply neighbours_last; [exact Hinv|].
    intros p (Hne & (rest & Hprefix) & Hcarried).
    cbn [groupSentences overlapPrefix] in *.
    split; [exact Hne|]. split; [|exact Hcarried].
    exists (rest ++ [sentence]). now rewrite Hprefix, app_assoc.
Qed.

Lemma traceLoop_linked (maxTokens overlapTokens : Z) (sentences : list jsstring)
      (st : traceState) :
  Spec.neighbours (Spec.carriesOver overlapTokens) (closeGroup st) ->
  Spec.neighbours (Spec.carriesOver overlapTokens)
    (closeGroup (fold_left (traceStep maxTokens overlapTokens) sentences st)).
Proof.
  revert st. induction sentences as [|s sentences IH]; intros st H; [exact H|].
  cbn [fold_left]. apply IH. now apply traceStep_linked.
Qed.

Lemma chunkGroups_linked (text : jsstring) (maxTokens overlapTokens : Z) :
  Spec.neighbours (Spec.carriesOver overlapTokens)
                  (chunkGroups text maxTokens overlapTokens).
Proof.
  unfold chunkGroups, traceLoop.
  pose proof (traceLoop_linked maxTokens overlapTokens (splitIntoSentences text)
                {| closed := []; openOverlap := []; openSentences := [];
                   openTokens := 0 |} I) as H.
  destruct (0 <? length _); [exact H|].
  unfold closeGroup in H. now apply neighbours_front in H.
Qed.

(** *** The groups are the chunks *)

Lemma splitIntoSentences_not_blank (text : jsstring) :
  Forall (fun s => trim s <> []) (splitIntoSentences text).
Proof.
  apply Forall_forall. intros s Hin. unfold splitIntoSentences in Hin.
  apply filter_In in Hin. destruct Hin as [_ Hlen].
  intros Hblank. rewrite Hblank in Hlen. discriminate.
Qed.

Lemma join_not_blank (sentences : list jsstring) :
  sentences <> [] ->
  Forall (fun s => trim s <> []) sentences ->
  (0 <? length (trim (join (js " ") sentences))) = true.
Proof.
  intros Hne Hall.
  destruct (trim (join (js " ") sentences)) eqn:Hjoin; [|reflexivity].
  exfalso. apply trim_nil_iff in Hjoin.
  destruct sentences as [|s sentences]; [now elim Hne|].
  inversion Hall as [|? ? Hs _]; subst. apply Hs. apply trim_nil_iff.
  apply (forallb_join _ _ _ Hjoin). now left.
Qed.

Lemma pushChunk_group (groups : list sentenceGroup) (g : sentenceGroup) :
  groupSentences g <> [] ->
  Forall (fun s => trim s <> []) (groupSentences g) ->
  pushChunk (mapi chunkOfGroup groups) (groupSentences g) (groupTokens g)
  = mapi chunkOfGroup (groups ++ [g]).
Proof.
  intros Hne Hall. unfold pushChunk.
  rewrite (join_not_blank _ Hne Hall).
  unfold mapi. rewrite mapiFrom_app, length_mapiFrom. reflexivity.
Qed.

(** The loop of [chunkText] and the loop that keeps the sentence arrays
    walk in step. *)
Lemma chunkStep_traceStep (maxTokens overlapTokens : Z) (ls : loopState)
      (ts : traceState) (sentence : jsstring) :
  trim sentence <> [] ->
  chunks ls = mapi chunkOfGroup (closed ts) ->
  currentChunk ls = openSentences ts ->
  currentTokens ls = openTokens ts ->
  Forall (fun s => trim s <> []) (openSentences ts) ->
  let ls' := chunkStep maxTokens overlapTokens ls sentence in
  let ts' := traceStep maxTokens overlapTokens ts sentence in
  chunks ls' = mapi chunkOfGroup (closed ts')
  /\ currentChunk ls' = openSentences ts'
  /\ currentTokens ls' = openTokens ts'
  /\ Forall (fun s => trim s <> []) (openSentences ts').
Proof.
  intros Hs Hchunks Hcurrent Htokens Hall. unfold chunkStep, traceStep.
  rewrite Hcurrent, Htokens, Hchunks.
  destruct ((openTokens ts + estimateTokens sentence >? maxTokens)%Z
            && (0 <? length (openSentences ts))) eqn:Hclose.
  - apply andb_true_iff in Hclose. destruct Hclose as [_ Hlen].
    assert (Hne : openSentences ts <> []).
    { destruct (openSentences ts); discriminate. }
    destruct (overlapOf_spec overlapTokens (openSentences ts) Hne)
      as (before & Hsuffix & _ & _).
    destruct (overlapOf (openSentences ts) overlapTokens)
      as [overlapSentences overlapTokenCount].
    cbn [fst snd chunks currentChunk currentTokens closed openSentences
         openTokens] in *.
    split; [|split; [reflexivity|split; [reflexivity|]]].
    + unfold closeGroup.
      apply (pushChunk_group (closed ts)
               {| overlapPrefix := openOverlap ts;
                  groupSentences := openSentences ts;
                  groupTokens := openTokens ts |}); assumption.
    + apply Forall_app. split; [|now repeat constructor].
      rewrite Hsuffix in Hall. now apply Forall_app in Hall.
  - cbn [chunks currentChunk currentTokens closed openSentences openTokens].
    split; [reflexivity|split; [reflexivity|split; [reflexivity|]]].
    apply Forall_app. split; [exact Hall|now repeat constructor].
Qed.

Lemma chunkLoop_traceLoop (maxTokens overlapTokens : Z) (sentences : list jsstring) :
  Forall (fun s => trim s <> []) sentences ->
  forall (ls : loopState) (ts : traceState),
    chunks ls = mapi chunkOfGroup (closed ts) ->
    currentChunk ls = openSentences ts ->
    currentTokens ls = openTokens ts ->
    Forall (fun s => trim s <> []) (openSentences ts) ->
    let ls' := fold_left (chunkStep maxTokens overlapTokens) sentences ls in
    let ts' := fold_left (traceStep maxTokens overlapTokens) sentences ts in
    chunks ls' = mapi chunkOfGroup (closed ts')
    /\ currentChunk ls' = openSentences ts'
    /\ currentTokens ls' = openTokens ts'
    /\ Forall (fun s => trim s <> []) (openSentences ts').
Proof.
  induction 1 as [|s sentences Hs Hrest IH]; intros ls ts H1 H2 H3 H4.
  - cbn. tauto.
  - cbn [fold_left].
    destruct (chunkStep_traceStep maxTokens overlapTokens ls ts s Hs H1 H2 H3 H4)
      as (H1' & H2' & H3' & H4').
    now apply IH.
Qed.

Lemma chunkText_groups (text : jsstring) (maxTokens overlapTokens : Z) :
  chunkText text maxTokens overlapTokens
  = mapi chunkOfGroup (chunkGroups text maxTokens overlapTokens).
Proof.
  unfold chunkText, chunkGroups, chunkLoop, traceLoop.
  destruct (chunkLoop_traceLoop maxTokens overlapTokens _
              (splitIntoSentences_not_blank text)
              {| chunks := []; currentChunk := []; currentTokens := 0 |}
              {| closed := []; openOverlap := []; openSentences := [];
                 openTokens := 0 |}
              eq_refl eq_refl eq_refl (Forall_nil _))
    as (H1 & H2 & H3 & H4).
  cbv zeta in H1, H2, H3, H4. rewrite H1, H2, H3.
  destruct (0 <? length _) eqn:Hlen; [|reflexivity].
  unfold closeGroup.
  apply (pushChunk_group _
           {| overlapPrefix := openOverlap _;
              groupSentences := openSentences _;
              groupTokens := openTokens _ |}); cbn [groupSentences].
  - intros Hnil. rewrite Hnil in Hlen. discriminate.
  - exact H4.
Qed.

(** C6.  The chunks of [chunkText] are, in order, the joined sentence
    groups of the run.  For two consecutive groups [p] and [q], the
    sentences carried over as overlap are the last sentences of [p] and the
    first of [q], and their estimated tokens sum to at most
    [overlapTokens], unless nothing is carried over because the last
    sentence of [p] alone estimates to more than [overlapTokens]; no
    sentence is split.  More than the claim asks holds: what is carried
    over is never over the budget (it is empty, or within it; for a budget
    that is not negative the sum is always within it), and it is all that
    fits: [p] holds no sentence before it, or that sentence would take the
    sum over the budget. *)
Theorem overlap_bound (text : jsstring) (maxTokens overlapTokens : Z) (i : nat)
        (p q : sentenceGroup) :
  nth_error (chunkGroups text maxTokens overlapTokens) i = Some p ->
  nth_error (chunkGroups text maxTokens overlapTokens) (S i) = Some q ->
  chunkText text maxTokens overlapTokens
  = mapi chunkOfGroup (chunkGroups text maxTokens overlapTokens)
  /\ (exists rest, groupSentences q = overlapPrefix q ++ rest)
  /\ (exists before,
        groupSentences p = before ++ overlapPrefix q
        /\ forall earlier sentence,
            before = earlier ++ [sentence] ->
            (overlapTokens
             < estimateTokens sentence + sumTokens (overlapPrefix q))%Z)
  /\ (overlapPrefix q = []
      \/ (sumTokens (overlapPrefix q) <= overlapTokens)%Z)
  /\ ((0 <= overlapTokens)%Z ->
      (sumTokens (overlapPrefix q) <= overlapTokens)%Z)
  /\ ((sumTokens (overlapPrefix q) <= overlapTokens)%Z
      \/ (overlapPrefix q = []
          /\ exists earlier last,
              groupSentences p = earlier ++ [last]
              /\ (overlapTokens < estimateTokens last)%Z)).
Proof.
  intros Hp Hq. split; [apply chunkText_groups|].
  destruct (neighbours_nth _ _ i p q
              (chunkGroups_linked text maxTokens overlapTokens) Hp Hq)
    as (Hne & Hrest & before & Hsuffix & Hbound & Hstop).
  split; [exact Hrest|]. split; [now exists before|].
  split; [exact Hbound|]. split.
  - intros Hbudget. destruct Hbound as [-> |Hbound]; [exact Hbudget|exact Hbound].
  - destruct Hbound as [Hnil|Hbound]; [|now left].
    right. split; [exact Hnil|].
    rewrite Hnil, app_nil_r in Hsuffix. rewrite Hnil in Hstop.
    destruct (exists_last Hne) as (earlier & last & Hlast).
    exists earlier, last. split; [exact Hlast|].
    specialize (Hstop earlier last). rewrite <- Hsuffix in Hstop.
    specialize (Hstop Hlast). cbn in Hstop. lia.
Qed.

Lemma overlap_bound_witness :
  exists p q,
    nth_error (chunkGroups (js "One two. Three four. Five six seven.") 3 2) 0
    = Some p
    /\ nth_error (chunkGroups (js "One two. Three four. Five six seven.") 3 2) 1
       = Some q
    /\ overlapPrefix q = [js "One two."]
    /\ (overlapPrefix q = [] \/ (sumTokens (overlapPrefix q) <= 2)%Z).
Proof.
  eexists. eexists.
  split; [vm_compute; reflexivity|].
  split; [vm_compute; reflexivity|].
  split; [reflexivity|].
  refine (proj1 (proj2 (proj2 (proj2
            (overlap_bound (js "One two. Three four. Five six seven.") 3 2 0
                           _ _ _ _))))).
  - vm_compute. reflexivity.
  - vm_compute. reflexivity.
Defined.

End ChunkerFacts.

(** ** The claims about cosine similarity *)

Module CosineFacts.
Import VectorStore.

Section Formula.
Context {T : Type} `{JsNumber T}.

(** The three accumulators of the loop are three separate sums. *)
Lemma cosineLoop_sums (a b : list T) :
  length a = length b ->
  forall d x y : T,
    fold_left cosineStep (combine a b) (d, x, y)
    = (fold_left (fun s ab => add s (mul (fst ab) (snd ab))) (combine a b) d,
       fold_left (fun s ab => add s (mul (fst ab) (snd ab))) (combine a a) x,
       fold_left (fun s ab => add s (mul (fst ab) (snd ab))) (combine b b) y).
Proof.
  revert b. induction a as [|ai a IH]; intros [|bi b] Hlen d x y;
    try discriminate; [reflexivity|].
  cbn [combine fold_left cosineStep fst snd].
  apply IH. now injection Hlen.
Qed.

Lemma cosineSimilarity_formula (a b : list T) :
  length a = length b -> cosineSimilarity a b = cosineFormula a b.
Proof.
  intros Hlen. unfold cosineSimilarity, cosineFormula, norm, dot.
  rewrite Hlen, Nat.eqb_refl. cbn [negb].
  now rewrite (cosineLoop_sums a b Hlen).
Qed.

Lemma cosineSimilarity_mismatch (a b : list T) :
  length a <> length b -> cosineSimilarity a b = zero.
Proof.
  intros Hlen. unfold cosineSimilarity.
  apply Nat.eqb_neq in Hlen. now rewrite Hlen.
Qed.

End Formula.

(** *** Over the real numbers *)

Section Reals.
#[local] Open Scope R_scope.

Lemma dotR_acc (l : list (R * R)) (s : R) :
  fold_left (fun s ab => s + fst ab * snd ab) l s
  = s + fold_left (fun s ab => s + fst ab * snd ab) l 0.
Proof.
  revert s. induction l as [|ab l IH]; intros s; cbn [fold_left]; [lra|].
  rewrite (IH (s + _)), (IH (0 + _)). lra.
Qed.

Lemma dotR_cons (x y : R) (a b : list R) :
  dot (x :: a) (y :: b) = x * y + dot a b.
Proof.
  unfold dot. cbn [combine fold_left fst snd add mul zero realNumber].
  rewrite dotR_acc. lra.
Qed.

Lemma dotR_nil_l (b : list R) : dot [] b = 0.
Proof. reflexivity. Qed.

Lemma cauchy_schwarz_step (x y A B s : R) :
  s * s <= A * B -> 0 <= A -> 0 <= B ->
  (x * y + s) * (x * y + s) <= (x * x + A) * (y * y + B).
Proof.
  intros Hcs Ha Hb.
  assert (Hxx : 0 <= x * x) by apply Rle_0_sqr.
  assert (Hyy : 0 <= y * y) by apply Rle_0_sqr.
  assert (Hp : 0 <= x * x * B + A * (y * y)).
  { apply Rplus_le_le_0_compat; apply Rmult_le_pos; assumption. }
  assert (Hsq : (2 * (x * y * s)) * (2 * (x * y * s))
                <= (x * x * B + A * (y * y)) * (x * x * B + A * (y * y))).
  { pose proof (Rle_0_sqr (x * x * B - A * (y * y))) as H1.
    unfold Rsqr in H1.
    assert (H2 : (x * y) * (x * y) * (s * s) <= (x * y) * (x * y) * (A * B)).
    { apply Rmult_le_compat_l; [apply Rle_0_sqr|exact Hcs]. }
    lra. }
  assert (Hmix : 2 * (x * y * s) <= x * x * B + A * (y * y)).
  { destruct (Rle_dec (2 * (x * y * s)) (x * x * B + A * (y * y))) as [Hle|Hgt];
      [exact Hle|].
    apply Rnot_le_lt in Hgt.
    assert (Hlt : (x * x * B + A * (y * y)) * (x * x * B + A * (y * y))
                  < (2 * (x * y * s)) * (2 * (x * y * s))).
    { apply Rmult_le_0_lt_compat; lra. }
    lra. }
  lra.
Qed.

Lemma cauchy_schwarz (a b : list R) :
  length a = length b ->
  dot a b * dot a b <= dot a a * dot b b /\ 0 <= dot a a /\ 0 <= dot b b.
Proof.
  revert b. induction a as [|x a IH]; intros [|y b] Hlen; try discriminate.
  - rewrite !dotR_nil_l. lra.
  - injection Hlen as Hlen. destruct (IH b Hlen) as (Hcs & Ha & Hb).
    rewrite !dotR_cons. split; [now apply cauchy_schwarz_step|].
    pose proof (Rle_0_sqr x) as Hx. pose proof (Rle_0_sqr y) as Hy.
    unfold Rsqr in Hx, Hy. lra.
Qed.

Lemma square_bound (d m : R) :
  0 < m -> d * d <= m * m -> - m <= d <= m.
Proof.
  intros Hm Hsq. split.
  - destruct (Rle_dec (- m) d) as [Hle|Hgt]; [exact Hle|].
    apply Rnot_le_lt in Hgt.
    assert (Hlt : m * m < (- d) * (- d)).
    { apply Rmult_le_0_lt_compat; lra. }
    lra.
  - destruct (Rle_dec d m) as [Hle|Hgt]; [exact Hle|].
    apply Rnot_le_lt in Hgt.
    assert (Hlt : m * m < d * d).
    { apply Rmult_le_0_lt_compat; lra. }
    lra.
Qed.

(** The quotient of the formula lies between -1 and 1. *)
Lemma cosineR_bounds (a b : list R) :
  length a = length b ->
  -1 <= cosineSimilarity a b <= 1.
Proof.
  intros Hlen. rewrite (cosineSimilarity_formula a b Hlen).
  unfold cosineFormula, norm.
  cbn [gtb mul div sqrt zero realNumber].
  destruct (cauchy_schwarz a b Hlen) as (Hcs & Ha & Hb).
  pose proof (sqrt_sqrt _ Ha) as Hsa. pose proof (sqrt_sqrt _ Hb) as Hsb.
  destruct (Rlt_dec 0 (R_sqrt.sqrt (dot a a) * R_sqrt.sqrt (dot b b)))
    as [Hm|_]; [|lra].
  assert (Hmm : (R_sqrt.sqrt (dot a a) * R_sqrt.sqrt (dot b b))
                * (R_sqrt.sqrt (dot a a) * R_sqrt.sqrt (dot b b))
                = dot a a * dot b b).
  { rewrite <- Hsa at 3. rewrite <- Hsb at 3. ring. }
  assert (Hd : - (R_sqrt.sqrt (dot a a) * R_sqrt.sqrt (dot b b)) <= dot a b
               <= R_sqrt.sqrt (dot a a) * R_sqrt.sqrt (dot b b)).
  { apply square_bound; [exact Hm|]. rewrite Hmm. exact Hcs. }
  unfold Rdiv. split.
  - apply (Rmult_le_reg_r _ _ _ Hm).
    rewrite Rmult_assoc, Rinv_l by lra. lra.
  - apply (Rmult_le_reg_r _ _ _ Hm).
    rewrite Rmult_assoc, Rinv_l by lra. lra.
Qed.

Lemma cosineR_zero_norm (a b : list R) :
  length a = length b ->
  norm a = 0 \/ norm b = 0 ->
  cosineSimilarity a b = 0.
Proof.
  intros Hlen Hzero. rewrite (cosineSimilarity_formula a b Hlen).
  unfold cosineFormula. cbn [gtb mul div zero realNumber].
  destruct (Rlt_dec 0 (norm a * norm b)) as [Hm|_]; [|reflexivity].
  destruct Hzero as [Hz|Hz]; rewrite Hz in Hm; lra.
Qed.

End Reals.

(** *** In double arithmetic *)

Section Doubles.
#[local] Open Scope float_scope.

(** A product with a zero factor is a zero or NaN, never above 0. *)
Lemma zero_factor_left (x y : float) :
  (x =? 0) = true -> (0 <? x * y) = false.
Proof.
  rewrite FloatAxioms.eqb_spec, FloatAxioms.ltb_spec, FloatAxioms.mul_spec.
  change (Prim2SF 0) with (S754_zero false).
  destruct (Prim2SF x) as [sx|[|]| |[|] mx ex]; cbn; try discriminate.
  intros _. destruct (Prim2SF y) as [sy|sy| |sy my ey]; reflexivity.
Qed.

Lemma zero_factor_right (x y : float) :
  (y =? 0) = true -> (0 <? x * y) = false.
Proof.
  rewrite FloatAxioms.eqb_spec, FloatAxioms.ltb_spec, FloatAxioms.mul_spec.
  change (Prim2SF 0) with (S754_zero false).
  destruct (Prim2SF y) as [sy|[|]| |[|] my ey]; cbn; try discriminate.
  intros _. destruct (Prim2SF x) as [sx|sx| |sx mx ex]; reflexivity.
Qed.

Lemma cosineF_zero_norm (a b : list float) :
  length a = length b ->
  (norm a =? 0) = true \/ (norm b =? 0) = true ->
  cosineSimilarity a b = 0.
Proof.
  intros Hlen Hzero. rewrite (cosineSimilarity_formula a b Hlen).
  unfold cosineFormula. cbn [gtb mul div zero floatNumber].
  destruct Hzero as [Hz|Hz].
  - now rewrite (zero_factor_left _ _ Hz).
  - now rewrite (zero_factor_right _ _ Hz).
Qed.

Lemma norm_zeros (n : nat) : norm (repeat 0 n) = 0.
Proof.
  unfold norm, dot. cbn [sqrt add mul zero floatNumber].
  assert (Hsum : fold_left (fun s ab => s + fst ab * snd ab)
                           (combine (repeat 0 n) (repeat 0 n)) 0 = 0).
  { induction n as [|n IH]; [reflexivity|]. exact IH. }
  rewrite Hsum. reflexivity.
Qed.

Lemma cosineF_zeros (n : nat) (v : list float) :
  cosineSimilarity (repeat 0 n) v = 0 /\ cosineSimilarity v (repeat 0 n) = 0.
Proof.
  destruct (Nat.eq_dec (length (repeat 0 n)) (length v)) as [Hlen|Hlen].
  - split; apply cosineF_zero_norm; auto; [left|right];
      now rewrite norm_zeros.
  - split.
    + exact (cosineSimilarity_mismatch (repeat 0 n) v Hlen).
    + exact (cosineSimilarity_mismatch v (repeat 0 n)
               (fun E => Hlen (eq_sym E))).
Qed.

Lemma Forall_insertSorted (P : queryMatch -> Prop) (x : queryMatch)
      (l : list queryMatch) :
  P x -> Forall P l -> Forall P (insertSorted x l).
Proof.
  intros Hx. induction 1 as [|y l Hy Hl IH]; cbn [insertSorted].
  - now repeat constructor.
  - destruct (score x - score y <? 0); repeat constructor; auto.
Qed.

Lemma Forall_sortByScore (P : queryMatch -> Prop) (l : list queryMatch) :
  Forall P l -> Forall P (sortByScore l).
Proof.
  induction 1 as [|x l Hx Hl IH]; [constructor|].
  cbn. now apply Forall_insertSorted.
Qed.

Lemma Forall_slice0 {A : Type} (P : A -> Prop) (k : Z) (l : list A) :
  Forall P l -> Forall P (slice0 k l).
Proof.
  intros H. apply Forall_forall. intros x Hx.
  rewrite Forall_forall in H. apply H.
  unfold slice0 in Hx.
  destruct (k <? 0)%Z; now apply JsStringFacts.in_firstn in Hx.
Qed.

Lemma query_zeros (n : nat) (options : queryOptions) (s : store) :
  vector options = repeat 0 n ->
  Forall (fun m => score m = 0) (query options s).
Proof.
  intros Hv. unfold query, scoreAll.
  apply Forall_slice0, Forall_sortByScore, Forall_map, Forall_forall.
  intros v _. cbn [score]. rewrite Hv. apply cosineF_zeros.
Qed.

End Doubles.

(** C4, as amended.  For vectors of equal length the cosine similarity of
    the vector store is the quotient [dot(a,b) / (|a| * |b|)] when the
    product of the norms is above 0 and is 0 otherwise, so in particular
    when a norm is 0; this holds in the double arithmetic of the source and
    over the real numbers alike.  Over the real numbers the similarity lies
    in [-1, 1].  In double arithmetic an all-zero vector has similarity 0
    with every vector, on either side; a query with an all-zero vector gives
    every match the score 0, and an all-zero vector is stored like any
    other. *)
Theorem cosine_similarity :
  (forall a b : list float,
      length a = length b ->
      cosineSimilarity a b = cosineFormula a b
      /\ ((norm a =? 0)%float = true \/ (norm b =? 0)%float = true ->
          cosineSimilarity a b = 0%float))
  /\ (forall a b : list R,
        length a = length b ->
        cosineSimilarity a b = cosineFormula a b
        /\ (norm a = 0%R \/ norm b = 0%R -> cosineSimilarity a b = 0%R)
        /\ (-1 <= cosineSimilarity a b <= 1)%R)
  /\ (forall (n : nat) (v : list float),
        cosineSimilarity (repeat 0%float n) v = 0%float
        /\ cosineSimilarity v (repeat 0%float n) = 0%float)
  /\ (forall (n : nat) (options : queryOptions) (s : store),
        vector options = repeat 0%float n ->
        Forall (fun m => score m = 0%float) (query options s))
  /\ (forall (e : storedVector) (s : store),
        JsMap.get (id e) (fst (upsert [e] s)) = Some e).
Proof.
  split; [|split; [|split; [|split]]].
  - intros a b Hlen. split; [now apply cosineSimilarity_formula|].
    now apply cosineF_zero_norm.
  - intros a b Hlen. split; [now apply cosineSimilarity_formula|].
    split; [now apply cosineR_zero_norm|now apply cosineR_bounds].
  - apply cosineF_zeros.
  - apply query_zeros.
  - intros e s. cbn. apply JsMapFacts.get_set_same.
Qed.

Lemma cosine_similarity_witness :
  (-1 <= cosineSimilarity [3; 4]%R [4; 3]%R <= 1)%R
  /\ cosineSimilarity [0; 0]%float [0.6; 0.8]%float = 0%float.
Proof.
  split.
  - apply (proj1 (proj2 cosine_similarity) [3; 4]%R [4; 3]%R). reflexivity.
  - apply (proj1 (proj2 (proj2 cosine_similarity)) 2 [0.6; 0.8]%float).
Defined.

(** C4, as stated, fails: in double arithmetic the similarity of [1, 1, 1]
    with itself is 1.0000000000000002, above 1, and that of [-1, -1, -1]
    with [1, 1, 1] is below -1. *)
Lemma cosine_similarity_exceeds_one :
  cosineSimilarity [1; 1; 1]%float [1; 1; 1]%float = 0x1.0000000000001p+0%float
  /\ (1 <? cosineSimilarity [1; 1; 1]%float [1; 1; 1]%float)%float = true
  /\ (cosineSimilarity [-1; -1; -1]%float [1; 1; 1]%float <? -1)%float = true.
Proof. repeat split. Qed.

End CosineFacts.

(** ** The embedding on concrete inputs *)

Module Examples.
Import Chunker.

Example split_whitespace :
  split whitespaceRun (js " a  b ") = [js ""; js "a"; js "b"; js ""].
Proof. reflexivity. Qed.

Example split_empty : split whitespaceRun (js "") = [js ""].
Proof. reflexivity. Qed.

Example sentences_need_whitespace :
  splitIntoSentences (js "Hi there.  How are you?I am fine! ok")
  = [js "Hi there."; js "How are you?I am fine!"; js "ok"].
Proof. reflexivity. Qed.

Example trim_both_ends : trim (js "  a b ") = js "a b".
Proof. reflexivity. Qed.

(** The scenario of the specification: "A. B. C." with [maxTokens] 1 and
    [overlapTokens] 0 gives three chunks of one sentence each, with the
    indices 0, 1, 2. *)
Example three_single_sentence_chunks :
  chunkText (js "A. B. C.") 1 0
  = [ {| text := js "A."; tokenCount := 1; sentenceCount := 1; chunkIndex := 0 |};
      {| text := js "B."; tokenCount := 1; sentenceCount := 1; chunkIndex := 1 |};
      {| text := js "C."; tokenCount := 1; sentenceCount := 1; chunkIndex := 2 |} ].
Proof. reflexivity. Qed.

Example overlap_is_carried :
  map text (chunkText (js "One two. Three four. Five six seven.") 3 2)
  = [ js "One two."; js "One two. Three four.";
      js "Three four. Five six seven." ].
Proof. reflexivity. Qed.

(** With [overlapTokens] 1 only the last sentence of the closed chunk fits the
    budget: "Eight." is left behind although it is short. *)
Example overlap_stays_within_the_budget :
  map text (chunkText (js "A b c d e f g h. Eight. Nine. Ten.") 8 1)
  = [ js "A b c d e f g h. Eight. Nine."; js "Nine. Ten." ].
Proof. reflexivity. Qed.

(** A closing sentence that alone exceeds [overlapTokens] is not carried, and
    nothing before it is. *)
Example long_sentence_is_not_carried :
  map text (chunkText (js "A b c d. Five.") 3 1) = [ js "A b c d."; js "Five." ].
Proof. reflexivity. Qed.

Example empty_text_no_chunks : chunkText (js "") 400 50 = [].
Proof. reflexivity. Qed.

Example chunk_ids :
  map id (addMetadataToChunks (fun _ => js "2025-01-01T00:00:00.000Z")
            (chunkText (js "A. B. C.") 1 0) (js "doc-1") [])
  = [js "doc-1_chunk_0"; js "doc-1_chunk_1"; js "doc-1_chunk_2"].
Proof. reflexivity. Qed.

Example similarity_of_orthogonal_vectors :
  VectorStore.cosineSimilarity [1; 0]%float [0; 1]%float = 0%float.
Proof. reflexivity. Qed.

Example similarity_of_different_lengths :
  VectorStore.cosineSimilarity [1; 0]%float [1]%float = 0%float.
Proof. reflexivity. Qed.

Example best_match_first :
  map VectorStore.matchId
      (VectorStore.query
         {| VectorStore.vector := [0; 1]%float;
            VectorStore.topK := 5;
            VectorStore.includeMetadata := true;
            VectorStore.filter := [] |}
         Samples.sampleStore)
  = [js "doc-1_chunk_1"; js "doc-1_chunk_0"].
Proof. reflexivity. Qed.

(** With no completed job the chat route answers without searching. *)
Example chat_without_documents :
  ProcessApi.postChat Samples.constantEmbedding Samples.plainAnswer
    (Samples.sampleServer ProcessApi.Processing)
    (Samples.sampleChat "revenue" None)
  = ([], {| ProcessApi.statusCode := 200;
            ProcessApi.body :=
              ProcessApi.ChatBody (JStr (js "revenue"))
                                  ProcessApi.noDocumentsAnswer [] 0 |}).
Proof. reflexivity. Qed.

End Examples.

(* ================================================================== *)
(** * Part III: further properties of the code *)
(* ================================================================== *)

(** ** Sentences *)

Module SentenceFacts.
Import JsStringFacts Chunker Notions.

Lemma strip_app (a b : jsstring) : strip (a ++ b) = strip a ++ strip b.
Proof. apply filter_app. Qed.

Lemma strip_blank (s : jsstring) :
  forallb isWhiteSpace s = true -> strip s = [].
Proof.
  induction s as [|c s IH]; [reflexivity|]. cbn.
  destruct (isWhiteSpace c); [exact IH|discriminate].
Qed.

(** A separator that matches nothing but whitespace takes nothing but
    whitespace away. *)
Lemma strip_splitFrom (sep : pattern) :
  (forall prev s, sep prev s <= runLength isWhiteSpace s) ->
  forall (s : jsstring) (prev : option N) (piece : jsstring) (skip : nat),
    skip <= runLength isWhiteSpace s ->
    concat (map strip (splitFrom sep prev piece skip s))
    = strip (rev piece) ++ strip s.
Proof.
  intros Hsep. induction s as [|c s IH]; intros prev piece skip Hskip.
  - cbn. now rewrite app_nil_r.
  - cbn [splitFrom]. destruct skip as [|k].
    + pose proof (Hsep prev (c :: s)) as Hm.
      destruct (sep prev (c :: s)) as [|k].
      * rewrite IH by lia. cbn [rev]. rewrite strip_app, <- app_assoc.
        change (c :: s) with ([c] ++ s). now rewrite (strip_app [c] s).
      * cbn [runLength] in Hm. destruct (isWhiteSpace c) eqn:Hc; [|lia].
        cbn [map concat]. rewrite IH by lia.
        cbn. now rewrite Hc.
    + cbn [runLength] in Hskip. destruct (isWhiteSpace c) eqn:Hc; [|lia].
      rewrite IH by lia. cbn. now rewrite Hc.
Qed.

Lemma whitespaceAfterTerminal_le (prev : option N) (s : jsstring) :
  whitespaceAfterTerminal prev s <= runLength isWhiteSpace s.
Proof.
  unfold whitespaceAfterTerminal. destruct prev as [c|]; [|lia].
  destruct (isTerminal c); lia.
Qed.

Lemma strip_drop_blank (pieces : list jsstring) :
  concat (map strip (filter (fun s => 0 <? length (trim s)) pieces))
  = concat (map strip pieces).
Proof.
  induction pieces as [|p pieces IH]; [reflexivity|]. cbn [filter].
  destruct (0 <? length (trim p)) eqn:Hlen.
  - cbn [map concat]. now rewrite IH.
  - assert (Htrim : trim p = []) by (destruct (trim p); [reflexivity|discriminate]).
    apply trim_nil_iff, strip_blank in Htrim.
    cbn [map concat]. now rewrite Htrim, IH.
Qed.

Lemma whitespace_not_terminal (c : N) :
  isWhiteSpace c = true -> isTerminal c = false.
Proof.
  intros Hws. unfold isTerminal.
  destruct (N.eqb_spec c 46) as [->|_]; [discriminate|].
  destruct (N.eqb_spec c 33) as [->|_]; [discriminate|].
  destruct (N.eqb_spec c 63) as [->|_]; [discriminate|reflexivity].
Qed.

(** Every piece that a match closes ends with the terminal mark the
    lookbehind saw. *)
Lemma splitFrom_terminal (s : jsstring) :
  forall (prev : option N) (piece : jsstring) (skip : nat),
    skip <= runLength isWhiteSpace s ->
    (skip <> 0 -> piece = []) ->
    match piece with
    | [] => match prev with
            | Some c => isTerminal c = false
            | None => True
            end
    | c :: _ => prev = Some c
    end ->
    exists init final,
      splitFrom whitespaceAfterTerminal prev piece skip s = init ++ [final]
      /\ Forall endsWithTerminal init.
Proof.
  induction s as [|c s IH]; intros prev piece skip Hskip Hpiece Hprev.
  - exists [], (rev piece). split; [reflexivity|constructor].
  - cbn [splitFrom]. destruct skip as [|k].
    + destruct (whitespaceAfterTerminal prev (c :: s)) as [|k] eqn:Hm.
      * apply IH; [lia|intros H; now elim H|reflexivity].
      * unfold whitespaceAfterTerminal in Hm.
        destruct prev as [t|]; [|discriminate].
        destruct (isTerminal t) eqn:Ht; [|discriminate].
        cbn [runLength] in Hm. destruct (isWhiteSpace c) eqn:Hc; [|discriminate].
        injection Hm as Hm.
        destruct (IH (Some c) [] k) as (init & final & Hsplit & Hinit);
          [lia|reflexivity|now apply whitespace_not_terminal|].
        exists (rev piece :: init), final. rewrite Hsplit.
        split; [reflexivity|]. constructor; [|exact Hinit].
        destruct piece as [|t' piece]; [congruence|].
        injection Hprev as <-. exists (rev piece), t. now split.
    + cbn [runLength] in Hskip. destruct (isWhiteSpace c) eqn:Hc; [|lia].
      rewrite (Hpiece ltac:(discriminate)).
      apply IH; [lia|reflexivity|now apply whitespace_not_terminal].
Qed.

Lemma filter_all_but_last {A : Type} (keep : A -> bool) (P : A -> Prop)
      (init : list A) (final : A) :
  Forall P init ->
  Forall P (removelast (filter keep (init ++ [final]))).
Proof.
  intros Hinit. rewrite filter_app. cbn [filter].
  assert (Hkept : Forall P (filter keep init)).
  { apply Forall_forall. intros x Hx. apply filter_In in Hx.
    rewrite Forall_forall in Hinit. now apply Hinit. }
  destruct (keep final).
  - now rewrite removelast_last.
  - rewrite app_nil_r. apply Forall_forall. intros x Hx.
    rewrite Forall_forall in Hkept. apply Hkept.
    clear - Hx. induction (filter keep init) as [|y l IH]; [destruct Hx|].
    destruct l as [|z l]; [destruct Hx|].
    destruct Hx as [<-|Hx]; [now left|right; now apply IH].
Qed.

Lemma strip_sentences (text : jsstring) :
  concat (map strip (splitIntoSentences text)) = strip text.
Proof.
  unfold splitIntoSentences, split. rewrite strip_drop_blank.
  rewrite (strip_splitFrom _ whitespaceAfterTerminal_le) by (cbn; lia).
  reflexivity.
Qed.

(** X1.  [splitIntoSentences] loses nothing but whitespace: the sentences,
    whitespace taken out, spell the text, whitespace taken out.  No
    sentence is blank, and every sentence but the last ends with '.', '!'
    or '?'. *)
Theorem sentences_keep_the_text (text : jsstring) :
  concat (map strip (splitIntoSentences text)) = strip text
  /\ Forall (fun s => trim s <> []) (splitIntoSentences text)
  /\ Forall endsWithTerminal (removelast (splitIntoSentences text)).
Proof.
  split; [|split].
  - apply strip_sentences.
  - apply ChunkerFacts.splitIntoSentences_not_blank.
  - unfold splitIntoSentences, split.
    destruct (splitFrom_terminal text None [] 0) as (init & final & -> & Hinit);
      [lia|intros H; now elim H|exact I|].
    now apply filter_all_but_last.
Qed.

End SentenceFacts.

(** ** Chunk coverage and budgets *)

Module CoverageFacts.
Import JsStringFacts Chunker Notions ChunkerFacts.

Lemma sumTokens_app (a b : list jsstring) :
  sumTokens (a ++ b) = (sumTokens a + sumTokens b)%Z.
Proof.
  induction a as [|s a IH]; [reflexivity|].
  cbn [app]. rewrite !sumTokens_cons, IH. lia.
Qed.

Lemma fresh_group (overlap added : list jsstring) (tokens : Z) :
  fresh {| overlapPrefix := overlap; groupSentences := overlap ++ added;
           groupTokens := tokens |} = added.
Proof.
  unfold fresh. cbn [overlapPrefix groupSentences].
  induction overlap as [|s overlap IH]; [reflexivity|exact IH].
Qed.

Lemma skipn_prefix {A : Type} (a b : list A) : skipn (length a) (a ++ b) = b.
Proof. induction a as [|x a IH]; [reflexivity|exact IH]. Qed.

Lemma traceStep_invariant (maxTokens overlapTokens : Z) (done : list jsstring)
      (st : traceState) (sentence : jsstring) :
  invariant maxTokens done st ->
  invariant maxTokens (done ++ [sentence])
            (traceStep maxTokens overlapTokens st sentence).
Proof.
  intros (Hclosed & Hdone & Hopen). unfold traceStep.
  destruct ((openTokens st + estimateTokens sentence >? maxTokens)%Z
            && (0 <? length (openSentences st))) eqn:Hclose.
  - apply andb_true_iff in Hclose. destruct Hclose as [_ Hlen].
    assert (Hne : openSentences st <> []).
    { destruct (openSentences st); discriminate. }
    destruct Hopen as [(Hnil & _)|Hwf]; [contradiction|].
    destruct (overlapOf_spec overlapTokens (openSentences st) Hne)
      as (before & _ & Hsum & _).
    destruct (overlapOf (openSentences st) overlapTokens)
      as [overlapSentences overlapTokenCount].
    cbn [fst snd] in Hsum. unfold invariant, closeGroup.
    cbn [closed openOverlap openSentences openTokens].
    split; [|split].
    + apply Forall_app. split; [exact Hclosed|].
      constructor; [exact Hwf|constructor].
    + rewrite map_app, concat_app. cbn [map concat].
      rewrite app_nil_r, skipn_prefix. unfold fresh at 2.
      cbn [overlapPrefix groupSentences]. now rewrite Hdone.
    + right. unfold wellFormed. cbn [overlapPrefix groupSentences groupTokens].
      split; [exists [sentence]; split; [discriminate|reflexivity]|].
      split; [|right; now exists sentence].
      rewrite sumTokens_app, Hsum. cbn. lia.
  - unfold invariant. cbn [closed openOverlap openSentences openTokens].
    split; [exact Hclosed|].
    destruct Hopen as [(Hsent & Hover & Htok & Hcl)|((added & Hadd & Hsplit) & Htok & Hbudget)].
    + rewrite Hsent, Hover, Htok, Hcl in *. cbn in Hdone. subst done.
      split; [reflexivity|]. right. unfold wellFormed.
      cbn [overlapPrefix groupSentences groupTokens app].
      split; [exists [sentence]; split; [discriminate|reflexivity]|].
      split; [cbn; lia|right; now exists sentence].
    + cbn [overlapPrefix groupSentences groupTokens] in *.
      split.
      * rewrite Hsplit in *. rewrite <- app_assoc, skipn_prefix.
        rewrite skipn_prefix in Hdone. rewrite <- Hdone, <- app_assoc.
        reflexivity.
      * right. unfold wellFormed.
        cbn [overlapPrefix groupSentences groupTokens].
        split; [exists (added ++ [sentence]); split|split].
        -- destruct added; discriminate.
        -- now rewrite Hsplit, <- app_assoc.
        -- rewrite sumTokens_app, Htok. cbn. lia.
        -- left. apply andb_false_iff in Hclose.
           destruct Hclose as [Hgt|Hlen].
           ++ destruct (Z.gtb_spec (openTokens st + estimateTokens sentence)
                                   maxTokens); [discriminate|lia].
           ++ rewrite Hsplit in Hlen. destruct (openOverlap st), added;
                try discriminate. now elim Hadd.
Qed.

Lemma traceLoop_invariant (maxTokens overlapTokens : Z)
      (sentences done : list jsstring) (st : traceState) :
  invariant maxTokens done st ->
  invariant maxTokens (done ++ sentences)
            (fold_left (traceStep maxTokens overlapTokens) sentences st).
Proof.
  revert done st. induction sentences as [|s sentences IH]; intros done st H.
  - now rewrite app_nil_r.
  - cbn [fold_left]. change (s :: sentences) with ([s] ++ sentences).
    rewrite app_assoc. apply IH. now apply traceStep_invariant.
Qed.

Lemma wellFormed_fresh (maxTokens : Z) (g : sentenceGroup) :
  wellFormed maxTokens g -> fresh g <> [].
Proof.
  intros ((added & Hadd & Hsplit) & _). unfold fresh.
  now rewrite Hsplit, skipn_prefix.
Qed.

Lemma chunkGroups_shape (text : jsstring) (maxTokens overlapTokens : Z) :
  Forall (wellFormed maxTokens) (chunkGroups text maxTokens overlapTokens)
  /\ concat (map fresh (chunkGroups text maxTokens overlapTokens))
     = splitIntoSentences text.
Proof.
  unfold chunkGroups, traceLoop.
  destruct (traceLoop_invariant maxTokens overlapTokens
              (splitIntoSentences text) []
              {| closed := []; openOverlap := []; openSentences := [];
                 openTokens := 0 |}) as (Hclosed & Hdone & Hopen).
  { split; [constructor|]. split; [reflexivity|]. left. now repeat split. }
  cbn [app] in Hdone.
  destruct (0 <? length (openSentences _)) eqn:Hlen.
  - destruct Hopen as [(Hnil & _)|Hwf];
      [rewrite Hnil in Hlen; discriminate|].
    unfold closeGroup. split.
    + apply Forall_app. split; [exact Hclosed|].
      constructor; [exact Hwf|constructor].
    + rewrite map_app, concat_app. cbn [map concat]. rewrite app_nil_r.
      exact Hdone.
  - destruct Hopen as [(Hnil & Hover & _ & Hcl)|((added & Hadd & Hsplit) & _)].
    + rewrite Hcl in *. rewrite Hnil, Hover in Hdone. cbn in Hdone.
      split; [constructor|exact Hdone].
    + cbn [overlapPrefix groupSentences] in Hsplit. rewrite Hsplit in Hlen.
      destruct (openOverlap _), added; try discriminate. now elim Hadd.
Qed.

Lemma length_concat_ge {A : Type} (lists : list (list A)) :
  Forall (fun l => l <> []) lists -> length lists <= length (concat lists).
Proof.
  induction 1 as [|l lists Hl Hrest IH]; [reflexivity|].
  cbn [concat length]. rewrite length_app.
  destruct l; [now elim Hl|]. cbn [length]. lia.
Qed.

Lemma chunk_coverage_lemma (text : jsstring) (maxTokens overlapTokens : Z) :
  chunkText text maxTokens overlapTokens
  = mapi chunkOfGroup (chunkGroups text maxTokens overlapTokens)
  /\ concat (map fresh (chunkGroups text maxTokens overlapTokens))
     = splitIntoSentences text
  /\ length (chunkText text maxTokens overlapTokens)
     <= length (splitIntoSentences text).
Proof.
  destruct (chunkGroups_shape text maxTokens overlapTokens) as (Hwf & Hcover).
  split; [apply chunkText_groups|]. split; [exact Hcover|].
  rewrite chunkText_groups. unfold mapi. rewrite length_mapiFrom.
  rewrite <- Hcover, <- (length_map fresh).
  apply length_concat_ge. apply Forall_forall. intros l Hl.
  apply in_map_iff in Hl. destruct Hl as (g & <- & Hg).
  rewrite Forall_forall in Hwf. eapply wellFormed_fresh. now apply Hwf.
Qed.

(** X2.  Chunk coverage: the chunks of [chunkText] are the joined sentence
    groups; taking from every group the sentences that are new in it (those
    behind its overlap) and putting them in a row gives the sentences of
    the text, each once and in order.  So every chunk brings at least one
    new sentence and there are no more chunks than sentences. *)
Theorem chunk_coverage (text : jsstring) (maxTokens overlapTokens : Z) :
  chunkText text maxTokens overlapTokens
  = mapi chunkOfGroup (chunkGroups text maxTokens overlapTokens)
  /\ concat (map fresh (chunkGroups text maxTokens overlapTokens))
     = splitIntoSentences text
  /\ Forall (fun g => fresh g <> [])
            (chunkGroups text maxTokens overlapTokens)
  /\ length (chunkText text maxTokens overlapTokens)
     <= length (splitIntoSentences text).
Proof.
  destruct (chunk_coverage_lemma text maxTokens overlapTokens)
    as (Hchunks & Hcover & Hlen).
  split; [exact Hchunks|]. split; [exact Hcover|]. split; [|exact Hlen].
  destruct (chunkGroups_shape text maxTokens overlapTokens) as (Hwf & _).
  eapply Forall_impl; [|exact Hwf]. intros g. apply wellFormed_fresh.
Qed.

Lemma sumTokens_ge_length (sentences : list jsstring) :
  (Z.of_nat (length sentences) <= sumTokens sentences)%Z.
Proof.
  induction sentences as [|s sentences IH]; [reflexivity|].
  rewrite sumTokens_cons. pose proof (estimateTokens_positive s).
  cbn [length]. lia.
Qed.

Lemma nth_error_mapiFrom {A B : Type} (f : A -> nat -> B) (l : list A)
      (start i : nat) :
  nth_error (mapiFrom f start l) i
  = option_map (fun x => f x (start + i)) (nth_error l i).
Proof.
  revert start i. induction l as [|x l IH]; intros start [|i]; cbn;
    try reflexivity.
  - now rewrite Nat.add_0_r.
  - rewrite IH. now rewrite Nat.add_succ_r.
Qed.

(** X3.  Token accounting and budget: the chunk of index [i] is made of
    the sentences of the group of index [i]; its [sentenceCount] is their
    number, at least 1, its [tokenCount] is the sum of their estimates, at
    least the [sentenceCount], and its [tokenCount] is within [maxTokens]
    unless the chunk holds, behind its overlap, exactly one sentence. *)
Theorem chunk_accounting (text : jsstring) (maxTokens overlapTokens : Z)
        (i : nat) (c : chunk) :
  nth_error (chunkText text maxTokens overlapTokens) i = Some c ->
  exists g,
    nth_error (chunkGroups text maxTokens overlapTokens) i = Some g
    /\ Chunker.text c = trim (join (js " ") (groupSentences g))
    /\ chunkIndex c = Z.of_nat i
    /\ sentenceCount c = Z.of_nat (length (groupSentences g))
    /\ (1 <= sentenceCount c)%Z
    /\ tokenCount c = sumTokens (groupSentences g)
    /\ (sentenceCount c <= tokenCount c)%Z
    /\ ((tokenCount c <= maxTokens)%Z
        \/ exists sentence,
            groupSentences g = overlapPrefix g ++ [sentence]).
Proof.
  intros Hc. rewrite chunkText_groups in Hc. unfold mapi in Hc.
  rewrite nth_error_mapiFrom in Hc.
  destruct (nth_error (chunkGroups text maxTokens overlapTokens) i)
    as [g|] eqn:Hg; [|discriminate].
  cbn in Hc. injection Hc as <-. exists g. split; [reflexivity|].
  destruct (chunkGroups_shape text maxTokens overlapTokens) as (Hwf & _).
  rewrite Forall_forall in Hwf.
  destruct (Hwf g (nth_error_In _ _ Hg))
    as ((added & Hadd & Hsplit) & Htok & Hbudget).
  cbn [Chunker.text chunkIndex sentenceCount tokenCount chunkOfGroup].
  repeat split; try reflexivity.
  - rewrite Hsplit, length_app. destruct added; [now elim Hadd|].
    cbn [length]. lia.
  - exact Htok.
  - rewrite Htok. apply sumTokens_ge_length.
  - exact Hbudget.
Qed.

Lemma chunk_accounting_witness :
  exists g,
    nth_error (chunkGroups (js "One two. Three four. Five six seven.") 3 2) 1
    = Some g
    /\ groupSentences g = [js "One two."; js "Three four."].
Proof.
  destruct (chunk_accounting (js "One two. Three four. Five six seven.") 3 2 1
              {| Chunker.text := js "One two. Three four.";
                 tokenCount := 4; sentenceCount := 2; chunkIndex := 1 |}
              eq_refl) as (g & Hg & _).
  exists g. split; [exact Hg|].
  vm_compute in Hg. injection Hg as <-. reflexivity.
Defined.

Lemma strip_nil_blank (s : jsstring) :
  strip s = [] -> forallb isWhiteSpace s = true.
Proof.
  induction s as [|c s IH]; [reflexivity|]. cbn.
  destruct (isWhiteSpace c); [exact IH|discriminate].
Qed.

Lemma sentences_nil_iff (text : jsstring) :
  splitIntoSentences text = [] <-> forallb isWhiteSpace text = true.
Proof.
  pose proof (SentenceFacts.strip_sentences text) as Hstrip.
  pose proof (splitIntoSentences_not_blank text) as Hblank.
  split.
  - intros Hnil. rewrite Hnil in Hstrip. cbn in Hstrip.
    now apply strip_nil_blank.
  - intros Hws. apply SentenceFacts.strip_blank in Hws. rewrite Hws in Hstrip.
    destruct (splitIntoSentences text) as [|s sentences]; [reflexivity|].
    exfalso. inversion Hblank as [|? ? Hs _]; subst. apply Hs.
    apply trim_nil_iff, strip_nil_blank.
    cbn [map concat] in Hstrip. now apply app_eq_nil in Hstrip.
Qed.

Lemma chunks_nil_iff (text : jsstring) (maxTokens overlapTokens : Z) :
  chunkText text maxTokens overlapTokens = []
  <-> forallb isWhiteSpace text = true.
Proof.
  rewrite <- sentences_nil_iff.
  destruct (chunk_coverage_lemma text maxTokens overlapTokens)
    as (Hchunks & Hcover & Hlen).
  split.
  - intros Hnil. rewrite Hchunks in Hnil.
    destruct (chunkGroups text maxTokens overlapTokens); [|discriminate].
    now rewrite <- Hcover.
  - intros Hnil. rewrite Hnil in Hlen.
    destruct (chunkText text maxTokens overlapTokens); [reflexivity|].
    cbn in Hlen. lia.
Qed.

(** X4.  [chunkText] returns no chunk exactly for a text without any
    character that is not whitespace, the empty text among them; any other
    text gives at least one chunk. *)
Theorem no_chunks_iff_blank (text : jsstring) (maxTokens overlapTokens : Z) :
  chunkText text maxTokens overlapTokens = []
  <-> forallb isWhiteSpace text = true.
Proof.
  apply chunks_nil_iff.
Qed.

End CoverageFacts.

(** ** Text cleaning and word counts *)

Module CleaningFacts.
Import JsStringFacts Notions TextCleaning.

Lemma singleSpaced_cons (c : N) (s : jsstring) :
  singleSpaced (c :: s)
  <-> ~ (isWhiteSpace c = true /\ headIsSpace s = true) /\ singleSpaced s.
Proof.
  destruct s as [|c' s]; cbn [singleSpaced headIsSpace]; [|tauto].
  split; [intros _; split; [intros [_ H]; discriminate|exact I]|tauto].
Qed.

Lemma runLength_zero_head (p : N -> bool) (s : jsstring) :
  runLength p s = 0 ->
  match s with c :: _ => p c = false | [] => True end.
Proof.
  destruct s as [|c s]; [trivial|]. cbn. now destruct (p c).
Qed.

(** Collapsing the runs of whitespace leaves no two whitespace characters
    side by side. *)
Lemma collapse_singleSpaced (s : jsstring) :
  forall skip : nat,
    (skip <> 0 -> skip = runLength isWhiteSpace s) ->
    singleSpaced (replaceRuns isWhiteSpace 2 (js " ") skip s)
    /\ headIsSpace (replaceRuns isWhiteSpace 2 (js " ") skip s)
       = if skip =? 0 then headIsSpace s else false.
Proof.
  induction s as [|c s IH]; intros skip Hskip.
  - cbn. split; [exact I|now destruct skip].
  - cbn [replaceRuns]. destruct skip as [|k].
    + cbn [runLength]. destruct (isWhiteSpace c) eqn:Hc; cbn [andb].
      * destruct (runLength isWhiteSpace s) as [|r] eqn:Hr.
        -- cbn [Nat.leb]. destruct (IH 0) as (Hs & Hh); [intros H; now elim H|].
           split; [|cbn; congruence].
           apply singleSpaced_cons. split; [|exact Hs].
           intros [_ Hhead]. rewrite Hh in Hhead. cbn in Hhead.
           apply runLength_zero_head in Hr.
           destruct s; [discriminate|]. cbn in Hhead. congruence.
        -- cbn [Nat.leb]. destruct (IH (S r)) as (Hs & Hh);
             [intros _; reflexivity|].
           cbn [Nat.eqb] in Hh.
           change (js " " ++ ?x) with (32%N :: x).
           split; [|cbn; congruence].
           apply singleSpaced_cons. split; [|exact Hs].
           intros [_ Hhead]. congruence.
      * destruct (IH 0) as (Hs & Hh); [intros H; now elim H|].
        split; [|cbn; congruence].
        apply singleSpaced_cons. split; [|exact Hs].
        intros [Hc' _]. congruence.
    + specialize (Hskip ltac:(discriminate)). cbn [runLength] in Hskip.
      destruct (isWhiteSpace c) eqn:Hc; [|discriminate].
      injection Hskip as Hk.
      destruct (IH k) as (Hs & Hh); [intros _; exact Hk|].
      split; [exact Hs|]. rewrite Hh. cbn [Nat.eqb].
      destruct k; [|reflexivity]. cbn [Nat.eqb].
      symmetry in Hk. apply runLength_zero_head in Hk.
      destruct s; [reflexivity|exact Hk].
Qed.

Lemma singleSpaced_app (a b : jsstring) :
  singleSpaced (a ++ b) -> singleSpaced a /\ singleSpaced b.
Proof.
  induction a as [|c a IH]; intros H; [split; [exact I|exact H]|].
  cbn [app] in H. apply singleSpaced_cons in H. destruct H as [Hc Hrest].
  destruct (IH Hrest) as [Ha Hb]. split; [|exact Hb].
  apply singleSpaced_cons. split; [|exact Ha].
  intros [Hws Hhead]. apply Hc. split; [exact Hws|].
  destruct a; [discriminate|exact Hhead].
Qed.

Lemma dropWhile_suffix (p : N -> bool) (s : jsstring) :
  exists a, s = a ++ dropWhile p s.
Proof.
  induction s as [|c s (a & IH)]; [now exists []|]. cbn.
  destruct (p c); [exists (c :: a); cbn; now rewrite <- IH|now exists []].
Qed.

Lemma dropWhile_head (p : N -> bool) (s : jsstring) (c : N) (rest : jsstring) :
  dropWhile p s = c :: rest -> p c = false.
Proof.
  induction s as [|x s IH]; [discriminate|]. cbn.
  destruct (p x) eqn:Hx; [exact IH|]. intros H. injection H as <- _. exact Hx.
Qed.

Lemma trim_parts (s : jsstring) :
  exists a b, s = a ++ trim s ++ b.
Proof.
  unfold trim, trimEnd, trimStart.
  destruct (dropWhile_suffix isWhiteSpace s) as (a & Ha).
  destruct (dropWhile_suffix isWhiteSpace (rev (dropWhile isWhiteSpace s)))
    as (b & Hb).
  exists a, (rev b). rewrite Ha at 1. f_equal.
  rewrite <- (rev_involutive (dropWhile isWhiteSpace s)) at 1.
  rewrite Hb at 1. now rewrite rev_app_distr.
Qed.

Lemma trim_clean_or_empty (s : jsstring) : trim s = [] \/ clean (trim s).
Proof.
  destruct (trim s) as [|c t] eqn:Ht; [now left|right].
  rewrite <- Ht. unfold clean. split; [congruence|]. split.
  - intros c' s' Heq. unfold trim, trimEnd, trimStart in Heq.
    destruct (dropWhile_suffix isWhiteSpace
                (rev (dropWhile isWhiteSpace s))) as (b & Hb).
    apply (f_equal (@rev N)) in Hb.
    rewrite rev_involutive, rev_app_distr, Heq in Hb. cbn [app] in Hb.
    now apply (dropWhile_head isWhiteSpace s c' (s' ++ rev b)).
  - intros s' c' Heq. unfold trim, trimEnd in Heq.
    apply (f_equal (@rev N)) in Heq.
    rewrite rev_involutive, rev_app_distr in Heq. cbn [rev app] in Heq.
    now apply (dropWhile_head isWhiteSpace _ c' (rev s') Heq).
Qed.

Lemma dropWhile_id (s : jsstring) :
  headIsSpace s = false -> dropWhile isWhiteSpace s = s.
Proof.
  destruct s as [|c s]; [reflexivity|]. cbn. now intros ->.
Qed.

Lemma trim_of_clean (s : jsstring) : s = [] \/ clean s -> trim s = s.
Proof.
  intros [->|(Hne & Hhead & Hlast)]; [reflexivity|].
  unfold trim, trimEnd, trimStart.
  rewrite (dropWhile_id s).
  - rewrite dropWhile_id; [apply rev_involutive|].
    destruct (rev s) as [|c r] eqn:Hr; [reflexivity|]. cbn.
    apply (Hlast (rev r) c).
    rewrite <- (rev_involutive s), Hr. reflexivity.
  - destruct s as [|c s']; [reflexivity|]. cbn. now apply (Hhead c s').
Qed.

Lemma replaceCRLF_id (s : jsstring) :
  singleSpaced s -> replaceCRLF s = s.
Proof.
  induction s as [|c s IH]; [reflexivity|]. intros H.
  apply singleSpaced_cons in H. destruct H as [Hpair Hs].
  cbn [replaceCRLF]. destruct s as [|c' s']; [reflexivity|].
  destruct (N.eqb_spec c 13) as [->|_]; cbn [andb].
  - destruct (N.eqb_spec c' 10) as [->|_]; [|now rewrite IH].
    elim Hpair. now split.
  - now rewrite IH.
Qed.

Lemma replaceRuns_id (p : N -> bool) (least : nat) (replacement s : jsstring) :
  (forall c, p c = true -> isWhiteSpace c = true) ->
  2 <= least ->
  singleSpaced s ->
  replaceRuns p least replacement 0 s = s.
Proof.
  intros Hp Hleast. induction s as [|c s IH]; [reflexivity|]. intros H.
  apply singleSpaced_cons in H. destruct H as [Hpair Hs].
  cbn [replaceRuns runLength].
  destruct (p c) eqn:Hc; cbn [andb]; [|now rewrite IH].
  destruct (least <=? S (runLength p s)) eqn:Hrun; [|now rewrite IH].
  exfalso. apply Nat.leb_le in Hrun. apply Hpair. split; [now apply Hp|].
  destruct s as [|c' s']; [cbn in Hrun; lia|]. cbn in *.
  destruct (p c') eqn:Hc'; [now apply Hp|lia].
Qed.

Lemma collapse_trim_tidy (s : jsstring) :
  let t := trim (replaceRuns isWhiteSpace 2 (js " ") 0 s) in
  singleSpaced t /\ (t = [] \/ clean t).
Proof.
  intros t. split; [|apply trim_clean_or_empty].
  destruct (collapse_singleSpaced s 0) as (Hs & _); [intros H; now elim H|].
  destruct (trim_parts (replaceRuns isWhiteSpace 2 (js " ") 0 s)) as (a & b & Hab).
  rewrite Hab in Hs. apply singleSpaced_app in Hs. destruct Hs as [_ Hs].
  now apply singleSpaced_app in Hs.
Qed.

(** X5.  The text that the extraction routines hand on is tidy: no two
    whitespace characters side by side, no whitespace at either end (the
    text may be empty); this holds for the PDF/TXT cleaning and for the DOCX
    cleaning.  Cleaning a cleaned text changes nothing. *)
Theorem cleaned_text_is_tidy (raw : jsstring) :
  singleSpaced (cleanText raw)
  /\ (cleanText raw = [] \/ clean (cleanText raw))
  /\ singleSpaced (cleanDocxText raw)
  /\ (cleanDocxText raw = [] \/ clean (cleanDocxText raw))
  /\ cleanText (cleanText raw) = cleanText raw.
Proof.
  destruct (collapse_trim_tidy
              (replaceRuns isNewline 3 [10; 10]%N 0 (replaceCRLF raw)))
    as (Hs & Hc).
  destruct (collapse_trim_tidy
              (map (fun c => if (c =? 9)%N then 32%N else c)
                   (replaceRuns isNewline 3 [10; 10]%N 0 (replaceCRLF raw))))
    as (Hs' & Hc').
  split; [exact Hs|]. split; [exact Hc|]. split; [exact Hs'|].
  split; [exact Hc'|].
  fold (cleanText raw) in Hs, Hc. unfold cleanText at 1.
  rewrite (replaceCRLF_id _ Hs).
  rewrite (replaceRuns_id isNewline 3 _ _) by
      (try exact Hs; try lia;
       intros c Hc0; unfold isNewline in Hc0; apply N.eqb_eq in Hc0;
       now subst c).
  rewrite (replaceRuns_id isWhiteSpace 2 _ _) by (try exact Hs; try lia; auto).
  now apply trim_of_clean.
Qed.

(** *** Word counts *)

(** On a string with no whitespace at its end, behind a start that is part
    of a word, [split(/\s+/)] returns no empty piece. *)
Lemma split_words_not_empty (s : jsstring) :
  forall (prev : option N) (piece : jsstring) (skip : nat),
    (forall s' c, s = s' ++ [c] -> isWhiteSpace c = false) ->
    (skip <> 0 -> skip = runLength isWhiteSpace s) ->
    (skip = 0 -> piece = [] -> headIsSpace s = false /\ s <> []) ->
    Forall (fun p => p <> []) (splitFrom whitespaceRun prev piece skip s).
Proof.
  induction s as [|c s IH]; intros prev piece skip Hend Hskip Hpiece.
  - cbn. constructor; [|constructor].
    destruct skip; [|specialize (Hskip ltac:(discriminate)); discriminate].
    destruct piece as [|x piece]; [now destruct (Hpiece eq_refl eq_refl)|].
    intros H. apply (f_equal (@length N)) in H.
    cbn in H. rewrite length_app in H. cbn in H. lia.
  - assert (Hend' : forall s' c', s = s' ++ [c'] -> isWhiteSpace c' = false).
    { intros s' c' ->. now apply (Hend (c :: s') c'). }
    assert (Hlast : s = [] -> isWhiteSpace c = false).
    { intros ->. now apply (Hend [] c). }
    cbn [splitFrom]. destruct skip as [|k].
    + unfold whitespaceRun at 1. cbn [runLength].
      destruct (isWhiteSpace c) eqn:Hc.
      * constructor.
        -- destruct piece as [|x piece].
           ++ destruct (Hpiece eq_refl eq_refl) as [Hh _]. cbn in Hh. congruence.
           ++ intros H. apply (f_equal (@length N)) in H.
              cbn in H. rewrite length_app in H. cbn in H. lia.
        -- apply IH; [exact Hend'|intros _; reflexivity|].
           intros Hrun _. split.
           ++ apply runLength_zero_head in Hrun. now destruct s.
           ++ intros ->. specialize (Hlast eq_refl). congruence.
      * apply IH; [exact Hend'|intros H; now elim H|discriminate].
    + specialize (Hskip ltac:(discriminate)). cbn [runLength] in Hskip.
      destruct (isWhiteSpace c) eqn:Hc; [|discriminate].
      injection Hskip as Hk.
      apply IH; [exact Hend'|intros _; exact Hk|].
      intros -> _. split.
      * symmetry in Hk. apply runLength_zero_head in Hk. now destruct s.
      * intros ->. specialize (Hlast eq_refl). congruence.
Qed.

Lemma filter_all {A : Type} (keep : A -> bool) (l : list A) :
  Forall (fun x => keep x = true) l -> filter keep l = l.
Proof.
  induction 1 as [|x l Hx Hl IH]; [reflexivity|]. cbn. now rewrite Hx, IH.
Qed.

Lemma words_of_clean (s : jsstring) :
  clean s ->
  filter (fun word => 0 <? length word) (split whitespaceRun s)
  = split whitespaceRun s.
Proof.
  intros (Hne & Hhead & Hlast). apply filter_all.
  eapply Forall_impl; [|apply split_words_not_empty].
  - intros p Hp. destruct p; [now elim Hp|reflexivity].
  - exact Hlast.
  - intros H. now elim H.
  - intros _ _. split; [|exact Hne].
    destruct s as [|c s']; [reflexivity|]. cbn. now apply (Hhead c s').
Qed.

(** X6.  On a string that is not empty and has no whitespace at either
    end, so on every cleaned text that is not empty, the token estimate of
    the chunker is [ceil(0.75 * words)] for the number of words that the
    extraction routines count. *)
Theorem estimate_of_clean_text (s : jsstring) :
  clean s ->
  countWords s = Z.of_nat (length (split whitespaceRun s))
  /\ Chunker.estimateTokens s = Qceiling (inject_Z (countWords s) * (75 # 100))
  /\ Chunker.estimateTokens s = Spec.estimateTokens s.
Proof.
  intros Hclean.
  assert (Hwords : countWords s = Z.of_nat (length (split whitespaceRun s))).
  { unfold countWords. now rewrite words_of_clean. }
  split; [exact Hwords|]. split.
  - rewrite Hwords. reflexivity.
  - unfold Spec.estimateTokens, Spec.wordCount.
    now rewrite words_of_clean.
Qed.

Lemma estimate_of_clean_text_witness :
  Chunker.estimateTokens (cleanText (js "  Costs   fell. "))
  = Spec.estimateTokens (cleanText (js "  Costs   fell. ")).
Proof.
  refine (proj2 (proj2 (estimate_of_clean_text
                          (cleanText (js "  Costs   fell. ")) _))).
  destruct (trim_clean_or_empty
              (replaceRuns isWhiteSpace 2 (js " ") 0
                 (replaceRuns isNewline 3 [10; 10]%N 0
                    (replaceCRLF (js "  Costs   fell. ")))))
    as [Hnil|Hclean]; [vm_compute in Hnil; discriminate|exact Hclean].
Defined.

End CleaningFacts.

(** ** The vector store *)

Module StoreFacts.
Import JsStringFacts JsMapFacts VectorStoreFacts VectorStore Notions.

Lemma get_set_other {V : Type} (k k' : jsstring) (v : V) (m : JsMap.t V) :
  k <> k' -> JsMap.get k (JsMap.set k' v m) = JsMap.get k m.
Proof.
  intros Hne. induction m as [|[k0 v0] m IH]; cbn.
  - apply eqb_neq in Hne. now rewrite Hne.
  - destruct (JsString.eqb k' k0) eqn:E; cbn.
    + apply eqb_eq in E. subst k0.
      apply eqb_neq in Hne. now rewrite Hne.
    + now rewrite IH.
Qed.

Lemma get_in {V : Type} (k : jsstring) (v : V) (m : JsMap.t V) :
  JsMap.get k m = Some v -> In (k, v) m.
Proof.
  induction m as [|[k0 v0] m IH]; cbn; [discriminate|].
  destruct (JsString.eqb k k0) eqn:E.
  - apply eqb_eq in E. subst k0. intros H. injection H as <-. now left.
  - intros H. right. now apply IH.
Qed.

Lemma in_get {V : Type} (k : jsstring) (v : V) (m : JsMap.t V) :
  JsMap.wf m -> In (k, v) m -> JsMap.get k m = Some v.
Proof.
  unfold JsMap.wf. induction m as [|[k0 v0] m IH]; cbn; [tauto|].
  intros Hwf Hin. inversion Hwf as [|? ? Hnotin Hwf']; subst.
  destruct Hin as [Heq|Hin].
  - injection Heq as -> ->. now rewrite eqb_refl.
  - destruct (JsString.eqb k k0) eqn:E; [|now apply IH].
    apply eqb_eq in E. subst k0. elim Hnotin.
    change k with (fst (k, v)). now apply in_map.
Qed.

Lemma get_delete_other {V : Type} (k k' : jsstring) (m : JsMap.t V) :
  k <> k' -> JsMap.get k (JsMap.delete k' m) = JsMap.get k m.
Proof.
  intros Hne. induction m as [|[k0 v0] m IH]; cbn; [reflexivity|].
  destruct (JsString.eqb k' k0) eqn:E; cbn.
  - apply eqb_eq in E. subst k0. apply eqb_neq in Hne. now rewrite Hne.
  - now rewrite IH.
Qed.

Lemma keys_delete_incl {V : Type} (k x : jsstring) (m : JsMap.t V) :
  In x (JsMap.keys (JsMap.delete k m)) -> In x (JsMap.keys m).
Proof.
  induction m as [|[k0 v0] m IH]; cbn; [tauto|].
  destruct (JsString.eqb k k0); cbn; tauto.
Qed.

Lemma wf_delete {V : Type} (k : jsstring) (m : JsMap.t V) :
  JsMap.wf m -> JsMap.wf (JsMap.delete k m).
Proof.
  unfold JsMap.wf. induction m as [|[k0 v0] m IH]; cbn; [trivial|].
  intros Hwf. inversion Hwf as [|? ? Hnotin Hwf']; subst.
  destruct (JsString.eqb k k0); [exact Hwf'|]. cbn. constructor.
  - intros Hin. apply Hnotin. now apply (keys_delete_incl k).
  - now apply IH.
Qed.

Lemma get_delete_same {V : Type} (k : jsstring) (m : JsMap.t V) :
  JsMap.wf m -> JsMap.get k (JsMap.delete k m) = None.
Proof.
  unfold JsMap.wf. induction m as [|[k0 v0] m IH]; cbn; [trivial|].
  intros Hwf. inversion Hwf as [|? ? Hnotin Hwf']; subst.
  destruct (JsString.eqb k k0) eqn:E.
  - apply eqb_eq in E. subst k0. now apply get_none_notin.
  - cbn. rewrite E. now apply IH.
Qed.

Lemma length_delete {V : Type} (k : jsstring) (m : JsMap.t V) :
  length (JsMap.delete k m)
  = if JsMap.has k m then length m - 1 else length m.
Proof.
  unfold JsMap.has. induction m as [|[k0 v0] m IH]; cbn; [reflexivity|].
  destruct (JsString.eqb k k0); cbn; [lia|]. rewrite IH.
  destruct (JsMap.get k m) eqn:G; [|reflexivity].
  apply get_in in G. destruct m; [destruct G|cbn; lia].
Qed.

(** *** [upsert] *)

Lemma keyedById_set (e : storedVector) (s : store) :
  keyedById s -> keyedById (JsMap.set (id e) e s).
Proof.
  unfold keyedById. induction 1 as [|[k v] s Hk Hs IH]; cbn.
  - now repeat constructor.
  - destruct (JsString.eqb (id e) k); constructor; auto.
Qed.

Lemma upsertLoop_other (embeddings : list storedVector) (s : store) (k : jsstring) :
  ~ In k (map id embeddings) ->
  JsMap.get k (fold_left (fun vectors e => JsMap.set (id e) e vectors)
                         embeddings s)
  = JsMap.get k s.
Proof.
  revert s. induction embeddings as [|e embeddings IH]; intros s Hk;
    [reflexivity|].
  cbn [fold_left]. rewrite IH by (cbn in Hk; tauto).
  apply get_set_other. cbn in Hk. intros ->. tauto.
Qed.

Lemma upsertLoop_given (embeddings : list storedVector) (s : store) (k : jsstring) :
  In k (map id embeddings) ->
  exists e,
    In e embeddings /\ id e = k
    /\ JsMap.get k (fold_left (fun vectors e => JsMap.set (id e) e vectors)
                              embeddings s) = Some e.
Proof.
  revert s. induction embeddings as [|e embeddings IH]; intros s Hk;
    [destruct Hk|].
  cbn [fold_left].
  destruct (in_dec (list_eq_dec N.eq_dec) k (map id embeddings)) as [Hin|Hout].
  - destruct (IH (JsMap.set (id e) e s) Hin) as (e' & He' & Hid & Hget).
    exists e'. split; [now right|now split].
  - destruct Hk as [Hk|Hk]; [|contradiction].
    exists e. split; [now left|]. split; [exact Hk|].
    rewrite upsertLoop_other by exact Hout. subst k. apply get_set_same.
Qed.

Lemma upsertLoop_shape (embeddings : list storedVector) (s : store) :
  JsMap.wf s -> keyedById s ->
  let after := fold_left (fun vectors e => JsMap.set (id e) e vectors)
                         embeddings s in
  JsMap.wf after /\ keyedById after
  /\ length s <= length after <= length s + length embeddings.
Proof.
  revert s. induction embeddings as [|e embeddings IH]; intros s Hwf Hkey.
  - cbn. repeat split; auto; lia.
  - cbn [fold_left].
    destruct (IH (JsMap.set (id e) e s)) as (Hwf' & Hkey' & Hlen).
    { now apply wf_set. }
    { now apply keyedById_set. }
    cbv zeta. split; [exact Hwf'|]. split; [exact Hkey'|].
    rewrite length_set in Hlen. cbn [length].
    destruct (JsMap.has (id e) s); lia.
Qed.

(** X7.  [upsert] on a store with distinct ids: afterwards every id it
    was given is bound to an embedding given under that id, the ids it was
    not given are bound as before, the ids are still distinct and every
    record sits under its own id.  The store grows by at most the number of
    embeddings given, and that number is the [storedCount] of the answer,
    also when embeddings replaced records or each other. *)
Theorem upsert_round_trip (embeddings : list storedVector) (s : store) :
  JsMap.wf s -> keyedById s ->
  let after := fst (upsert embeddings s) in
  snd (upsert embeddings s) = Z.of_nat (length embeddings)
  /\ JsMap.wf after /\ keyedById after
  /\ (forall k, In k (map id embeddings) ->
        exists e, In e embeddings /\ id e = k /\ JsMap.get k after = Some e)
  /\ (forall k, ~ In k (map id embeddings) ->
        JsMap.get k after = JsMap.get k s)
  /\ (JsMap.size s <= JsMap.size after
      <= JsMap.size s + Z.of_nat (length embeddings))%Z.
Proof.
  intros Hwf Hkey after. unfold after, upsert. cbn [fst snd].
  destruct (upsertLoop_shape embeddings s Hwf Hkey) as (Hwf' & Hkey' & Hlen).
  split; [reflexivity|]. split; [exact Hwf'|]. split; [exact Hkey'|].
  split; [intros k; apply upsertLoop_given|].
  split; [intros k; apply upsertLoop_other|].
  unfold JsMap.size. lia.
Qed.

Lemma upsert_round_trip_witness :
  exists e,
    In e [snd (Samples.sampleVector "doc-1" "report.txt" 0 [0; 1]%float)]
    /\ JsMap.get (js "doc-1_chunk_0")
         (fst (upsert
                 [snd (Samples.sampleVector "doc-1" "report.txt" 0 [0; 1]%float)]
                 Samples.sampleStore))
       = Some e.
Proof.
  assert (Hwf : JsMap.wf Samples.sampleStore).
  { unfold JsMap.wf. vm_compute.
    repeat constructor; cbn; intuition discriminate. }
  assert (Hkey : keyedById Samples.sampleStore).
  { unfold keyedById. repeat constructor. }
  destruct (proj1 (proj2 (proj2 (proj2
              (upsert_round_trip
                 [snd (Samples.sampleVector "doc-1" "report.txt" 0 [0; 1]%float)]
                 Samples.sampleStore Hwf Hkey))))
              (js "doc-1_chunk_0")) as (e & He & _ & Hget).
  - now left.
  - exists e. now split.
Defined.

(** *** [query] *)

Lemma in_insertSorted (x y : queryMatch) (l : list queryMatch) :
  In y (insertSorted x l) <-> y = x \/ In y l.
Proof.
  induction l as [|z l IH]; cbn [insertSorted].
  - cbn. intuition.
  - destruct (score x - score z <? 0)%float; cbn; [rewrite IH|];
      intuition.
Qed.

Lemma in_sortByScore (y : queryMatch) (l : list queryMatch) :
  In y (sortByScore l) <-> In y l.
Proof.
  induction l as [|x l IH]; [reflexivity|].
  change (sortByScore (x :: l)) with (insertSorted x (sortByScore l)).
  rewrite in_insertSorted, IH. cbn. intuition.
Qed.

Lemma length_insertSorted (x : queryMatch) (l : list queryMatch) :
  length (insertSorted x l) = S (length l).
Proof.
  induction l as [|z l IH]; [reflexivity|]. cbn [insertSorted].
  destruct (score x - score z <? 0)%float; cbn; [now rewrite IH|reflexivity].
Qed.

Lemma length_sortByScore (l : list queryMatch) :
  length (sortByScore l) = length l.
Proof.
  induction l as [|x l IH]; [reflexivity|].
  change (sortByScore (x :: l)) with (insertSorted x (sortByScore l)).
  rewrite length_insertSorted, IH. reflexivity.
Qed.

Lemma in_slice0 {A : Type} (k : Z) (l : list A) (x : A) :
  In x (slice0 k l) -> In x l.
Proof.
  unfold slice0. destruct (k <? 0)%Z; apply in_firstn.
Qed.

(** X8.  What [query] answers: every match stands for a stored record that
    meets all constraints of the filter, with the id of the record, its
    cosine similarity to the query vector as score and its metadata when
    asked for; the number of matches is [topK] or the number of records
    that meet the filter, whichever is smaller (for a negative [topK]: all
    but the last [-topK] of them). *)
Theorem query_matches (options : queryOptions) (s : store) :
  Forall (fun m =>
            exists v,
              In v (JsMap.values s)
              /\ passesFilter (filter options) v = true
              /\ matchId m = id v
              /\ score m = cosineSimilarity (vector options) (values v)
              /\ matchMetadata m
                 = if includeMetadata options then Some (metadata v) else None)
         (query options s)
  /\ length (query options s)
     = let passing :=
         length (List.filter (passesFilter (filter options)) (JsMap.values s)) in
       if (topK options <? 0)%Z
       then Z.to_nat (Z.max (Z.of_nat passing + topK options) 0)
       else Nat.min (Z.to_nat (topK options)) passing.
Proof.
  split.
  - apply Forall_forall. intros m Hm. unfold query in Hm.
    apply in_slice0 in Hm. apply (proj1 (in_sortByScore _ _)) in Hm.
    unfold scoreAll in Hm.
    apply in_map_iff in Hm. destruct Hm as (v & <- & Hv).
    apply filter_In in Hv. destruct Hv as [Hin Hpass].
    exists v. now repeat split.
  - unfold query, slice0, scoreAll. cbv zeta.
    destruct (Z.ltb_spec (topK options) 0) as [Hneg|Hpos];
      rewrite length_firstn, !length_sortByScore, !length_map; lia.
Qed.

Lemma firstn_all_in {A : Type} (n : nat) (l : list A) (x : A) :
  length l <= n -> In x l -> In x (firstn n l).
Proof.
  intros Hlen Hin. now rewrite firstn_all2.
Qed.

(** X9.  When [topK] is at least the number of stored records, [query]
    leaves out no record that meets the filter. *)
Theorem query_complete (options : queryOptions) (s : store) (v : storedVector) :
  (JsMap.size s <= topK options)%Z ->
  In v (JsMap.values s) ->
  passesFilter (filter options) v = true ->
  exists m,
    In m (query options s)
    /\ matchId m = id v
    /\ score m = cosineSimilarity (vector options) (values v).
Proof.
  intros Hk Hin Hpass.
  exists {| matchId := id v;
            score := cosineSimilarity (vector options) (values v);
            matchMetadata :=
              if includeMetadata options then Some (metadata v) else None |}.
  split; [|now split].
  unfold query, slice0. unfold JsMap.size in Hk.
  destruct (Z.ltb_spec (topK options) 0) as [Hneg|_]; [lia|].
  apply firstn_all_in.
  - rewrite length_sortByScore. unfold scoreAll.
    rewrite length_map.
    pose proof (filter_length_le (passesFilter (filter options))
                                 (JsMap.values s)) as Hle.
    unfold JsMap.values in *. rewrite length_map in Hle. lia.
  - apply in_sortByScore. unfold scoreAll.
    apply in_map_iff. exists v. split; [reflexivity|].
    apply filter_In. now split.
Qed.

Lemma query_complete_witness :
  exists m,
    In m (query {| vector := [0; 1]%float; topK := 2;
                   includeMetadata := true; filter := [] |}
                Samples.sampleStore)
    /\ matchId m = js "doc-1_chunk_1".
Proof.
  destruct (query_complete
              {| vector := [0; 1]%float; topK := 2;
                 includeMetadata := true; filter := [] |}
              Samples.sampleStore
              (snd (Samples.sampleVector "doc-1" "report.txt" 1 [0.6; 0.8]%float)))
    as (m & Hm & Hid & _).
  - vm_compute. discriminate.
  - right. now left.
  - reflexivity.
  - exists m. now split.
Defined.

End StoreFacts.

(** ** Deleting records *)

Module DeletionFacts.
Import JsStringFacts JsMapFacts VectorStoreFacts StoreFacts VectorStore Notions.

Lemma delete_under_cursor {V : Type} (kept : JsMap.t V) (k : jsstring) (v : V)
      (rest : JsMap.t V) :
  ~ In k (JsMap.keys kept) ->
  JsMap.delete k (kept ++ (k, v) :: rest) = kept ++ rest.
Proof.
  induction kept as [|[k0 v0] kept IH]; cbn; intros Hk.
  - now rewrite eqb_refl.
  - destruct (JsString.eqb k k0) eqn:E.
    + apply eqb_eq in E. subst k0. elim Hk. now left.
    + rewrite IH; [reflexivity|]. tauto.
Qed.

(** The loop of [deleteMany] with the cursor between [kept], the entries
    it has passed and left in place, and [todo]. *)
Lemma deleteLoop_cursor (argument : deleteArgument) (todo kept : store) (count : Z) :
  JsMap.wf (kept ++ todo) ->
  fold_left (deleteStep argument) todo (kept ++ todo, count)
  = (kept ++ List.filter
               (fun e => negb (passesFilter (filterOrEmpty argument) (snd e)))
               todo,
     (count + Z.of_nat
                (length (List.filter
                           (fun e => passesFilter (filterOrEmpty argument) (snd e))
                           todo)))%Z).
Proof.
  revert kept count. induction todo as [|[k v] todo IH]; intros kept count Hwf.
  - cbn. f_equal. lia.
  - cbn [fold_left]. unfold deleteStep at 2. cbn [fst snd List.filter].
    destruct (passesFilter (filterOrEmpty argument) v) eqn:Hpass;
      cbn [negb].
    + unfold JsMap.wf, JsMap.keys in Hwf. rewrite map_app in Hwf.
      cbn [map fst] in Hwf.
      pose proof (NoDup_remove_1 _ _ _ Hwf) as Hwf'.
      pose proof (NoDup_remove_2 _ _ _ Hwf) as Hnotin.
      rewrite delete_under_cursor
        by (intros Hin; apply Hnotin, in_or_app; now left).
      rewrite IH.
      * f_equal. cbn [length]. lia.
      * unfold JsMap.wf, JsMap.keys. now rewrite map_app.
    + change (kept ++ (k, v) :: todo) with (kept ++ [(k, v)] ++ todo).
      rewrite app_assoc. rewrite IH.
      * now rewrite <- app_assoc.
      * now rewrite <- app_assoc.
Qed.

Lemma deleteMany_cursor_result (argument : deleteArgument) (s : store) :
  JsMap.wf s ->
  deleteMany argument s
  = (List.filter
       (fun e => negb (passesFilter (filterOrEmpty argument) (snd e))) s,
     Z.of_nat
       (length (List.filter
                  (fun e => passesFilter (filterOrEmpty argument) (snd e)) s))).
Proof.
  intros Hwf. exact (deleteLoop_cursor argument s [] 0%Z Hwf).
Qed.

(** X10.  [deleteMany] on a store with distinct ids removes exactly the
    records that meet every constraint of the filter, keeps the others in
    their order, and counts the removed ones; deleting under the cursor of
    the running iteration skips nothing. *)
Theorem deleteMany_removes_the_matching_records
        (argument : deleteArgument) (s : store) :
  JsMap.wf s ->
  deleteMany argument s
  = (List.filter
       (fun e => negb (passesFilter (filterOrEmpty argument) (snd e))) s,
     Z.of_nat
       (length (List.filter
                  (fun e => passesFilter (filterOrEmpty argument) (snd e)) s))).
Proof.
  apply deleteMany_cursor_result.
Qed.

Lemma deleteMany_removes_the_matching_records_witness :
  deleteMany {| filterProperty := Some [(js "chunkIndex", JNum 0)];
                deleteAllProperty := None |}
             Samples.sampleStore
  = ([Samples.sampleVector "doc-1" "report.txt" 1 [0.6; 0.8]%float], 1%Z).
Proof.
  rewrite (deleteMany_removes_the_matching_records _ Samples.sampleStore).
  - reflexivity.
  - unfold JsMap.wf. vm_compute.
    repeat constructor; cbn; intuition discriminate.
Defined.

Lemma wf_filter {V : Type} (p : jsstring * V -> bool) (m : JsMap.t V) :
  JsMap.wf m -> JsMap.wf (List.filter p m).
Proof.
  unfold JsMap.wf, JsMap.keys. induction m as [|e m IH]; cbn; [trivial|].
  intros Hwf. inversion Hwf as [|? ? Hnotin Hwf']; subst.
  destruct (p e); cbn; [constructor|]; auto.
  intros Hin. apply Hnotin. apply in_map_iff in Hin.
  destruct Hin as (e' & He' & Hin). apply filter_In in Hin.
  apply in_map_iff. exists e'. tauto.
Qed.

Lemma get_filter {V : Type} (p : jsstring * V -> bool) (m : JsMap.t V)
      (k : jsstring) (v : V) :
  JsMap.wf m -> JsMap.get k m = Some v -> p (k, v) = true ->
  JsMap.get k (List.filter p m) = Some v.
Proof.
  intros Hwf Hget Hp. apply in_get; [now apply wf_filter|].
  apply filter_In. split; [now apply get_in|exact Hp].
Qed.

Lemma recordsNotOf_none (d : jsstring) (s : store) :
  Spec.noEmbeddings d (recordsNotOf d s).
Proof.
  unfold Spec.noEmbeddings, recordsNotOf. apply Forall_forall.
  intros e He. apply filter_In in He. destruct He as [_ He].
  apply negb_true_iff in He. now apply eqb_neq.
Qed.

Lemma deleteDocumentEmbeddings_result (s : store) (d : jsstring) :
  JsMap.wf s ->
  EmbeddingService.deleteDocumentEmbeddings s d
  = (recordsNotOf d s,
     Returned
       {| EmbeddingService.success := true;
          EmbeddingService.deletedCount :=
            Z.of_nat (length (recordsOf d s));
          EmbeddingService.deletedDocumentId := d;
          EmbeddingService.statsBefore := describeIndexStats s;
          EmbeddingService.statsAfter :=
            describeIndexStats (recordsNotOf d s) |}).
Proof.
  intros Hwf. unfold EmbeddingService.deleteDocumentEmbeddings.
  rewrite deleteMany_cursor_result by exact Hwf.
  cbn [filterOrEmpty filterProperty]. unfold recordsNotOf, recordsOf.
  rewrite (filter_ext _ (fun e => negb (JsString.eqb
                                          (documentId (metadata (snd e))) d)))
    by (intros e; now rewrite passesFilter_documentId).
  rewrite (filter_ext (fun e => passesFilter _ (snd e))
                      (fun e => JsString.eqb (documentId (metadata (snd e))) d))
    by (intros e; now rewrite passesFilter_documentId).
  reflexivity.
Qed.

Lemma length_filter_split {A : Type} (p : A -> bool) (l : list A) :
  length (List.filter p l) + length (List.filter (fun x => negb (p x)) l)
  = length l.
Proof.
  induction l as [|x l IH]; [reflexivity|]. cbn.
  destruct (p x); cbn; lia.
Qed.

(** X11.  [deleteDocumentEmbeddings] on a store with distinct ids returns;
    afterwards no record of the document is left, the records of the other
    documents are found under their ids as before, the answer counts the
    records that were removed, which is also the difference of the sizes
    in [statsBefore] and [statsAfter], and a second call finds nothing and
    reports a deleted count of 0. *)
Theorem deleteDocumentEmbeddings_clears_the_document (s : store) (d : jsstring) :
  JsMap.wf s ->
  let after := fst (EmbeddingService.deleteDocumentEmbeddings s d) in
  Spec.noEmbeddings d after
  /\ (forall k v, JsMap.get k s = Some v -> documentId (metadata v) <> d ->
                  JsMap.get k after = Some v)
  /\ (forall k v, JsMap.get k after = Some v -> JsMap.get k s = Some v)
  /\ snd (EmbeddingService.deleteDocumentEmbeddings s d)
     = Returned
         {| EmbeddingService.success := true;
            EmbeddingService.deletedCount :=
              Z.of_nat (length (recordsOf d s));
            EmbeddingService.deletedDocumentId := d;
            EmbeddingService.statsBefore := describeIndexStats s;
            EmbeddingService.statsAfter := describeIndexStats after |}
  /\ (JsMap.size after = JsMap.size s - Z.of_nat (length (recordsOf d s)))%Z
  /\ EmbeddingService.deleteDocumentEmbeddings after d
     = (after,
        Returned
          {| EmbeddingService.success := true;
             EmbeddingService.deletedCount := 0;
             EmbeddingService.deletedDocumentId := d;
             EmbeddingService.statsBefore := describeIndexStats after;
             EmbeddingService.statsAfter := describeIndexStats after |}).
Proof.
  intros Hwf after. unfold after.
  rewrite deleteDocumentEmbeddings_result by exact Hwf. cbn [fst snd].
  split; [apply recordsNotOf_none|].
  split.
  { intros k v Hget Hd. unfold recordsNotOf.
    apply get_filter; auto. cbn [snd].
    apply negb_true_iff. now apply eqb_neq. }
  split.
  { intros k v Hget. apply in_get; [exact Hwf|].
    apply get_in in Hget. unfold recordsNotOf in Hget.
    now apply filter_In in Hget. }
  split; [reflexivity|].
  split.
  { unfold JsMap.size, recordsNotOf, recordsOf.
    pose proof (length_filter_split
                  (fun e => JsString.eqb (documentId (metadata (snd e))) d) s).
    lia. }
  apply ProcessApiFacts.deleteDocumentEmbeddings_absent.
  apply recordsNotOf_none.
Qed.

Lemma deleteDocumentEmbeddings_clears_the_document_witness :
  Spec.noEmbeddings (js "doc-1")
    (fst (EmbeddingService.deleteDocumentEmbeddings
            Samples.sampleStore (js "doc-1"))).
Proof.
  apply (deleteDocumentEmbeddings_clears_the_document
           Samples.sampleStore (js "doc-1")).
  unfold JsMap.wf. vm_compute.
  repeat constructor; cbn; intuition discriminate.
Defined.

End DeletionFacts.

(** ** Searching *)

Module SearchFacts.
Import JsStringFacts JsMapFacts VectorStoreFacts StoreFacts VectorStore Notions.

Lemma strictEq_string (a : jsstring) (b : jsval) :
  strictEq (JStr a) b = true -> b = JStr a.
Proof.
  destruct b; cbn; try discriminate.
  intros H. apply eqb_eq in H. now subst.
Qed.

Lemma query_sound (options : queryOptions) (s : store) (m : queryMatch) :
  In m (query options s) ->
  exists v,
    In v (JsMap.values s)
    /\ passesFilter (filter options) v = true
    /\ matchId m = id v
    /\ score m = cosineSimilarity (vector options) (values v)
    /\ matchMetadata m
       = if includeMetadata options then Some (metadata v) else None.
Proof.
  intros Hm. unfold query in Hm.
  apply in_slice0 in Hm. apply (proj1 (in_sortByScore _ _)) in Hm.
  unfold scoreAll in Hm.
  apply in_map_iff in Hm. destruct Hm as (v & <- & Hv).
  apply filter_In in Hv. destruct Hv as [Hin Hpass].
  exists v. now repeat split.
Qed.

Lemma length_query_le (options : queryOptions) (s : store) :
  length (query options s) <= length s
  /\ ((topK options < 0)%Z
      \/ (Z.of_nat (length (query options s)) <= topK options)%Z).
Proof.
  unfold query, slice0, scoreAll.
  pose proof (filter_length_le (passesFilter (filter options))
                               (JsMap.values s)) as Hle.
  unfold JsMap.values in Hle. rewrite length_map in Hle.
  destruct (Z.ltb_spec (topK options) 0) as [Hneg|Hpos];
    rewrite length_firstn, !length_sortByScore, !length_map;
    unfold JsMap.values; (split; [lia|]); [now left|right; lia].
Qed.

Section Search.
Variable textToVector : jsstring -> list float.

(** X12.  What [searchSimilarChunks] answers: every result stands for a
    stored record, with its id, its metadata and its cosine similarity to
    the embedding of the query text as score; the score is at least the
    threshold in force ([options.threshold], or 0.5 when that is 0 or
    NaN); with a document id in the options every result belongs to that
    document.  [aboveThreshold] is the number of results and is at most
    [totalFound], which is at most the size of the store and, unless it is
    negative, at most the [topK] in force ([options.topK] as [slice] reads
    it, or 5 when that is 0 or another falsy value). *)
Theorem search_results (s : store) (text : jsstring)
        (options : EmbeddingService.searchOptions) :
  let answer :=
    EmbeddingService.searchSimilarChunks textToVector s text options in
  let minimum :=
    if EmbeddingService.numberTruthy (EmbeddingService.threshold options)
    then EmbeddingService.threshold options else 0.5%float in
  let limit := if countTruthy (EmbeddingService.topK options)
               then sliceEnd (JsMap.size s) (EmbeddingService.topK options)
               else 5%Z in
  Forall (fun m =>
            PrimFloat.leb minimum (score m) = true
            /\ exists v,
                In v (JsMap.values s)
                /\ matchId m = id v
                /\ matchMetadata m = Some (metadata v)
                /\ score m = cosineSimilarity (textToVector text) (values v)
                /\ (truthy (EmbeddingService.documentId options) = true ->
                    EmbeddingService.documentId options
                    = JStr (documentId (metadata v))))
         (EmbeddingService.results answer)
  /\ EmbeddingService.aboveThreshold answer
     = Z.of_nat (length (EmbeddingService.results answer))
  /\ (EmbeddingService.aboveThreshold answer
      <= EmbeddingService.totalFound answer <= JsMap.size s)%Z
  /\ ((limit < 0)%Z \/ (EmbeddingService.totalFound answer <= limit)%Z).
Proof.
  intros answer minimum limit. unfold answer, EmbeddingService.searchSimilarChunks.
  cbn [EmbeddingService.results EmbeddingService.aboveThreshold EmbeddingService.totalFound].
  split.
  { apply Forall_forall. intros m Hm. apply filter_In in Hm.
    destruct Hm as [Hm Hscore]. split; [exact Hscore|].
    destruct (query_sound _ _ _ Hm) as (v & Hin & Hpass & Hid & Hsc & Hmeta).
    exists v. split; [exact Hin|]. split; [exact Hid|].
    split; [exact Hmeta|]. split; [exact Hsc|].
    intros Htruthy. unfold EmbeddingService.queryOptionsOf in Hpass. cbn [filter] in Hpass.
    rewrite Htruthy in Hpass. unfold passesFilter in Hpass.
    cbn [forallb fst snd] in Hpass. rewrite andb_true_r in Hpass.
    now apply strictEq_string in Hpass. }
  split; [reflexivity|].
  pose proof (length_query_le
                (EmbeddingService.queryOptionsOf textToVector s text options) s)
    as [Hsize Hlimit].
  pose proof (filter_length_le
                (fun m => PrimFloat.leb minimum (score m))
                (query (EmbeddingService.queryOptionsOf textToVector s text
                                                        options) s)) as Hle.
  split; [unfold JsMap.size; fold minimum; lia|].
  assert (Hasked :
            topK (EmbeddingService.queryOptionsOf textToVector s text options)
            = limit).
  { unfold limit, EmbeddingService.queryOptionsOf. cbn [topK].
    now destruct (countTruthy (EmbeddingService.topK options)). }
  rewrite Hasked in Hlimit. exact Hlimit.
Qed.

End Search.

Lemma unique_spec (ids seen : list jsstring) :
  NoDup (EmbeddingService.unique seen ids)
  /\ forall d, In d (EmbeddingService.unique seen ids) <-> In d ids /\ ~ In d seen.
Proof.
  revert seen. induction ids as [|i ids IH]; intros seen.
  - split; [constructor|]. cbn. tauto.
  - cbn [EmbeddingService.unique].
    destruct (existsb (JsString.eqb i) seen) eqn:E.
    + destruct (IH seen) as [Hnd Hin]. split; [exact Hnd|].
      intros d. rewrite Hin. cbn [In]. split; [tauto|].
      intros [[->|Hd] Hs]; [|tauto].
      elim Hs. apply existsb_exists in E. destruct E as (x & Hx & Hix).
      apply eqb_eq in Hix. now subst.
    + destruct (IH (i :: seen)) as [Hnd Hin].
      assert (Hi : ~ In i seen).
      { intros Hi. apply not_true_iff_false in E. apply E.
        apply existsb_exists. exists i. split; [exact Hi|apply eqb_refl]. }
      split.
      * constructor; [|exact Hnd]. rewrite Hin. cbn. tauto.
      * intros d. cbn [In]. rewrite Hin. cbn [In].
        destruct (list_eq_dec N.eq_dec i d) as [->|Hne]; tauto.
Qed.

(** X13.  [getAvailableDocumentIds] on a store of at most 10000 records
    lists the document ids of the stored records: each id that is not the
    empty string, each once. *)
Theorem getAvailableDocumentIds_lists_the_documents (s : store) :
  (JsMap.size s <= 10000)%Z ->
  NoDup (EmbeddingService.getAvailableDocumentIds s)
  /\ forall d,
       In d (EmbeddingService.getAvailableDocumentIds s)
       <-> d <> []
           /\ exists v, In v (JsMap.values s) /\ documentId (metadata v) = d.
Proof.
  intros Hsize. unfold EmbeddingService.getAvailableDocumentIds.
  match goal with
  | |- context [EmbeddingService.unique [] ?l] => destruct (unique_spec l []) as [Hnd Hin]
  end.
  split; [exact Hnd|]. intros d. rewrite Hin. cbn [In].
  rewrite filter_In, in_flat_map. split.
  - intros [[(m & Hm & Hd) Hne] _]. split.
    + apply negb_true_iff in Hne. now apply eqb_neq.
    + destruct (query_sound _ _ _ Hm) as (v & Hv & _ & _ & _ & Hmeta).
      cbn [includeMetadata] in Hmeta. rewrite Hmeta in Hd.
      destruct Hd as [Hd|[]]. now exists v.
  - intros [Hne (v & Hv & Hd)]. split; [|tauto]. split.
    + exists {| matchId := id v;
                score := cosineSimilarity [0%float] (values v);
                matchMetadata := Some (metadata v) |}.
      split; [|now left].
      unfold query, slice0. cbn [topK].
      change (10000 <? 0)%Z with false. cbv iota.
      apply firstn_all_in.
      * rewrite length_sortByScore. unfold scoreAll. rewrite length_map.
        match goal with
        | |- length (List.filter ?p ?l) <= _ =>
            pose proof (filter_length_le p l) as Hle
        end.
        unfold JsMap.values, JsMap.size in *. rewrite length_map in Hle.
        lia.
      * apply in_sortByScore. unfold scoreAll. apply in_map_iff.
        exists v. split; [reflexivity|]. apply filter_In. now split.
    + apply negb_true_iff. now apply eqb_neq.
Qed.

Lemma getAvailableDocumentIds_lists_the_documents_witness :
  NoDup (EmbeddingService.getAvailableDocumentIds Samples.sampleStore).
Proof.
  apply (getAvailableDocumentIds_lists_the_documents Samples.sampleStore).
  vm_compute. discriminate.
Defined.

End SearchFacts.

(** ** Chunk records *)

Module RecordFacts.
Import JsStringFacts ChunkerFacts CoverageFacts Chunker Notions.

Lemma js_injective (a b : string) : js a = js b -> a = b.
Proof.
  unfold js. intros H.
  rewrite <- (string_of_list_ascii_of_string a),
          <- (string_of_list_ascii_of_string b).
  f_equal. revert H.
  generalize (list_ascii_of_string a), (list_ascii_of_string b).
  induction l as [|x l IH]; intros [|y l']; cbn; try discriminate;
    [reflexivity|].
  intros H. injection H as Hxy Hl.
  rewrite <- (ascii_N_embedding x), <- (ascii_N_embedding y), Hxy.
  f_equal. now apply IH.
Qed.

Lemma ofNat_injective (i j : nat) : ofNat i = ofNat j -> i = j.
Proof.
  unfold ofNat. intros H. apply js_injective in H.
  assert (Hu : Nat.to_uint i = Nat.to_uint j).
  { pose proof (NilEmpty.usu (Nat.to_uint i)) as Hi.
    pose proof (NilEmpty.usu (Nat.to_uint j)) as Hj.
    rewrite H in Hi. rewrite Hi in Hj. now injection Hj. }
  rewrite <- (DecimalNat.Unsigned.of_to i), <- (DecimalNat.Unsigned.of_to j).
  now rewrite Hu.
Qed.

Lemma digits_of_uint (u : Decimal.uint) :
  forallb AnswerSynthesis.isDigit (js (NilEmpty.string_of_uint u)) = true.
Proof.
  induction u; cbn; auto.
Qed.

Lemma digits_then_mark (a b x y : jsstring) (c : N) :
  forallb AnswerSynthesis.isDigit a = true ->
  forallb AnswerSynthesis.isDigit b = true ->
  AnswerSynthesis.isDigit c = false ->
  a ++ c :: x = b ++ c :: y -> a = b /\ x = y.
Proof.
  intros Ha Hb Hc. revert b Hb.
  induction a as [|a0 a IH]; intros [|b0 b] Hb H; cbn in *.
  - injection H as ->. now split.
  - injection H as -> _. apply andb_prop in Hb. destruct Hb as [Hb _].
    congruence.
  - injection H as -> _. apply andb_prop in Ha. destruct Ha as [Ha _].
    congruence.
  - injection H as -> H. apply andb_prop in Ha, Hb.
    destruct (IH (proj2 Ha) b (proj2 Hb) H) as [-> ->]. now split.
Qed.

Lemma chunk_id_injective (d d' : jsstring) (i j : nat) :
  d ++ js "_chunk_" ++ ofNat i = d' ++ js "_chunk_" ++ ofNat j ->
  d = d' /\ i = j.
Proof.
  intros H. apply (f_equal (@rev N)) in H.
  rewrite !rev_app_distr in H.
  change (rev (js "_chunk_")) with ([95%N] ++ js "knuhc_") in H.
  rewrite <- !app_assoc in H. cbn [app] in H.
  apply digits_then_mark in H.
  - destruct H as [Hdigits Hrest].
    apply (f_equal (@rev N)) in Hdigits. rewrite !rev_involutive in Hdigits.
    apply ofNat_injective in Hdigits.
    change (107%N :: 110%N :: 117%N :: 104%N :: 99%N :: 95%N :: rev d)
      with (js "knuhc_" ++ rev d) in Hrest.
    change (107%N :: 110%N :: 117%N :: 104%N :: 99%N :: 95%N :: rev d')
      with (js "knuhc_" ++ rev d') in Hrest.
    apply app_inv_head in Hrest.
    apply (f_equal (@rev N)) in Hrest. rewrite !rev_involutive in Hrest.
    now split.
  - rewrite forallb_rev. apply digits_of_uint.
  - rewrite forallb_rev. apply digits_of_uint.
  - reflexivity.
Qed.

Lemma in_mapiFrom {A B : Type} (f : A -> nat -> B) (l : list A) (start : nat)
      (y : B) :
  In y (mapiFrom f start l) ->
  exists x i, nth_error l i = Some x /\ y = f x (start + i).
Proof.
  intros Hy. apply In_nth_error in Hy. destruct Hy as [i Hi].
  rewrite nth_error_mapiFrom in Hi.
  destruct (nth_error l i) as [x|] eqn:Hx; [|discriminate].
  cbn in Hi. injection Hi as <-. now exists x, i.
Qed.

Lemma NoDup_map_injective {A B : Type} (f : A -> B) (l : list A) :
  (forall x y, f x = f y -> x = y) -> NoDup l -> NoDup (map f l).
Proof.
  intros Hf. induction 1 as [|x l Hx Hl IH]; cbn; constructor; auto.
  intros Hin. apply in_map_iff in Hin. destruct Hin as (y & Hy & Hin).
  apply Hf in Hy. now subst.
Qed.

Lemma chunk_ids_NoDup (clock : nat -> jsstring) (chunks : list chunk)
      (d : jsstring) (meta : list (jsstring * jsval)) :
  NoDup (map id (addMetadataToChunks clock chunks d meta)).
Proof.
  unfold addMetadataToChunks, mapi. rewrite map_mapiFrom. cbn [id].
  rewrite (mapiFrom_index (fun j => d ++ js "_chunk_" ++ ofNat j)).
  apply NoDup_map_injective; [|apply seq_NoDup].
  intros x y H. now apply chunk_id_injective in H.
Qed.

(** X14.  The ids that [addMetadataToChunks] gives: the chunks of one call
    have pairwise distinct ids, every chunk carries the document id it was
    made for, and an id determines the document id and the index it was
    built from, so chunks of different documents never share an id. *)
Theorem chunk_ids_identify (clock : nat -> jsstring) (chunks : list chunk)
        (d : jsstring) (meta : list (jsstring * jsval)) :
  let produced := addMetadataToChunks clock chunks d meta in
  NoDup (map id produced)
  /\ Forall (fun c =>
               documentId c = d
               /\ forall d' i,
                    id c = d' ++ js "_chunk_" ++ ofNat i ->
                    d' = d /\ Z.of_nat i = metaChunkIndex (metadata c))
            produced.
Proof.
  intros produced. split; [apply chunk_ids_NoDup|].
  apply Forall_forall. intros c Hc.
  unfold produced, addMetadataToChunks, mapi in Hc.
  apply in_mapiFrom in Hc. destruct Hc as (x & i & _ & ->).
  cbn [documentId id metadata metaChunkIndex]. split; [reflexivity|].
  intros d' j H. apply chunk_id_injective in H.
  destruct H as [-> ->]. now split.
Qed.

Section Records.
Variable textToVector : jsstring -> list float.

Lemma generateEmbeddings_loop (chunks : list chunkWithMetadata)
      (embeddings : list VectorStore.storedVector) (totalTokens : Z) :
  fold_left
    (fun acc chunk =>
       let '(embeddings, totalTokens) := acc in
       let '(embedding, tokens) :=
         EmbeddingService.generateEmbedding textToVector
                                            (text (base chunk)) in
       (embeddings ++ [recordOfChunk textToVector chunk],
        (totalTokens + tokens)%Z))
    chunks (embeddings, totalTokens)
  = (embeddings ++ map (recordOfChunk textToVector) chunks,
     (totalTokens
      + fold_right Z.add 0
          (map (fun chunk =>
                  Z.of_nat (length (split whitespaceRun (text (base chunk)))))
               chunks))%Z).
Proof.
  revert embeddings totalTokens.
  induction chunks as [|chunk chunks IH]; intros embeddings totalTokens.
  - cbn. rewrite app_nil_r. f_equal. lia.
  - cbn [fold_left map fold_right]. cbv beta iota zeta.
    unfold EmbeddingService.generateEmbedding at 2. cbv beta iota.
    rewrite IH. rewrite <- app_assoc. cbn [app]. f_equal. lia.
Qed.

Lemma generateEmbeddings_records (chunks : list chunkWithMetadata) :
  EmbeddingService.generateEmbeddingsForChunks textToVector chunks
  = (map (recordOfChunk textToVector) chunks,
     fold_right Z.add 0%Z
       (map (fun chunk =>
               Z.of_nat (length (split whitespaceRun (text (base chunk)))))
            chunks)).
Proof.
  exact (generateEmbeddings_loop chunks [] 0%Z).
Qed.

(** X15.  [generateEmbeddingsForChunks] returns one record per chunk, in
    the order of the chunks: each under the id of its chunk, with the
    embedding of the whole text of the chunk as values, and in its metadata
    the document id, the index and the token count of the chunk and the
    first 1000 code units of its text.  [totalTokens] is the sum over the
    chunks of the number of pieces [split(/\s+/)] makes of the text. *)
Theorem generateEmbeddingsForChunks_records (chunks : list chunkWithMetadata) :
  let answer :=
    EmbeddingService.generateEmbeddingsForChunks textToVector chunks in
  Forall2 (fun chunk record =>
             VectorStore.id record = id chunk
             /\ VectorStore.values record = textToVector (text (base chunk))
             /\ VectorStore.documentId (VectorStore.metadata record)
                = documentId chunk
             /\ VectorStore.chunkIndex (VectorStore.metadata record)
                = chunkIndex (base chunk)
             /\ VectorStore.tokenCount (VectorStore.metadata record)
                = tokenCount (base chunk)
             /\ VectorStore.text (VectorStore.metadata record)
                = firstn 1000 (text (base chunk)))
          chunks (fst answer)
  /\ snd answer
     = fold_right Z.add 0%Z
         (map (fun chunk =>
                 Z.of_nat (length (split whitespaceRun (text (base chunk)))))
              chunks).
Proof.
  intros answer. unfold answer. rewrite generateEmbeddings_records.
  cbn [fst snd]. split; [|reflexivity].
  induction chunks as [|chunk chunks' IH]; cbn [map]; constructor; auto.
  cbn. now repeat split.
Qed.

End Records.

End RecordFacts.

(** ** The background task *)

Module PipelineFacts.
Import JsStringFacts JsMapFacts StoreFacts RecordFacts Notions.
Import ProcessApi Pipeline.

Lemma updateProgress_progressed (d progress details : jsstring) (srv : server) :
  progressed d srv (updateProgress d progress details srv).
Proof.
  unfold progressed, updateProgress.
  destruct (JsMap.get d (processedDocuments srv)) as [doc|] eqn:Hget;
    cbn [processedDocuments documentChunks vectorStore].
  - split; [reflexivity|]. split; [reflexivity|].
    split; [intros k Hk; now apply get_set_other|].
    split; [intros Hwf; now apply wf_set|].
    eexists. split; [apply get_set_same|reflexivity].
  - repeat split; auto.
Qed.

Lemma progressed_trans (d : jsstring) (a b c : server) :
  progressed d a b -> progressed d b c -> progressed d a c.
Proof.
  intros (C1 & V1 & O1 & W1 & J1) (C2 & V2 & O2 & W2 & J2).
  unfold progressed.
  split; [congruence|]. split; [congruence|].
  split; [intros k Hk; rewrite O2, O1; auto|].
  split; [auto|].
  destruct (JsMap.get d (processedDocuments a)) as [doc|] eqn:Ha.
  - destruct J1 as (doc1 & G1 & S1). rewrite G1 in J2.
    destruct J2 as (doc2 & G2 & S2). exists doc2. split; [exact G2|].
    congruence.
  - subst b. rewrite Ha in J2. exact J2.
Qed.

Lemma NoDup_map_unique {A B : Type} (f : A -> B) (l : list A) (x y : A) :
  NoDup (map f l) -> In x l -> In y l -> f x = f y -> x = y.
Proof.
  induction l as [|a l IH]; cbn; [tauto|].
  intros Hnd Hx Hy Hf. inversion Hnd as [|? ? Hnotin Hnd']; subst.
  destruct Hx as [->|Hx], Hy as [->|Hy]; auto.
  - elim Hnotin. rewrite Hf. now apply in_map.
  - elim Hnotin. rewrite <- Hf. now apply in_map.
Qed.

Section Task.
Variable textToVector : jsstring -> list float.
Variable clock : nat -> jsstring.
Variable now : jsstring.

(** The state behind the four progress updates and the two stores of a run
    whose extraction returned. *)
Lemma stored_state (d : jsstring) (fileName fileType : jsval)
      (extractionResult : TextCleaning.extraction) (srv : server) :
  let chunks := chunksOf clock d fileName fileType extractionResult in
  exists srv4,
    progressed d srv srv4
    /\ forall s3Key,
         processDocumentInBackgroundRest textToVector clock now d
           fileName fileType s3Key (Returned extractionResult) srv
         = let stored :=
             {| processedDocuments := processedDocuments srv4;
                documentChunks :=
                  JsMap.set d chunks (documentChunks srv);
                vectorStore :=
                  fst (VectorStore.upsert
                         (map (recordOfChunk textToVector) chunks)
                         (vectorStore srv)) |} in
           match JsMap.get d (processedDocuments srv4) with
           | Some doc =>
               {| processedDocuments :=
                    JsMap.set d
                      (completedDoc d fileName fileType s3Key
                                    (startedAt doc) now)
                      (processedDocuments srv4);
                  documentChunks := documentChunks stored;
                  vectorStore := vectorStore stored |}
           | None => stored
           end.
Proof.
  intros chunks.
  set (srv1 := updateProgress d (js "Text chunked") (js "Created chunks") srv).
  set (srv2 := updateProgress d (js "Adding metadata...")
                 (js "Enriching chunks with document information") srv1).
  set (srv3 := updateProgress d (js "Generating embeddings...")
                 (js "Converting text to AI vectors") srv2).
  set (srv4 := updateProgress d (js "Storing vectors...")
                 (js "Saving embeddings to vector store") srv3).
  assert (H4 : progressed d srv srv4).
  { apply (progressed_trans d srv srv3 srv4);
      [|apply updateProgress_progressed].
    apply (progressed_trans d srv srv2 srv3);
      [|apply updateProgress_progressed].
    apply (progressed_trans d srv srv1 srv2);
      apply updateProgress_progressed. }
  exists srv4. split; [exact H4|].
  destruct H4 as (C4 & V4 & _).
  intros s3Key. unfold processDocumentInBackgroundRest.
  fold chunks. fold srv1. fold srv2. fold srv3. fold srv4.
  rewrite generateEmbeddings_records. cbn [fst].
  unfold EmbeddingService.storeEmbeddings. cbv zeta.
  cbn [processedDocuments documentChunks vectorStore].
  rewrite C4, V4.
  destruct (JsMap.get d (processedDocuments srv4)); reflexivity.
Qed.

Lemma records_stored (chunks : list Chunker.chunkWithMetadata)
      (s : VectorStore.store) :
  NoDup (map Chunker.id chunks) ->
  Forall (fun c =>
            JsMap.get (Chunker.id c)
              (fst (VectorStore.upsert
                      (map (recordOfChunk textToVector) chunks) s))
            = Some (recordOfChunk textToVector c))
         chunks.
Proof.
  intros Hnd. apply Forall_forall. intros c Hc.
  unfold VectorStore.upsert. cbn [fst].
  destruct (upsertLoop_given (map (recordOfChunk textToVector) chunks) s
                             (Chunker.id c)) as (e & He & Hid & Hget).
  { rewrite map_map. cbn [recordOfChunk VectorStore.id].
    now apply in_map. }
  rewrite Hget. f_equal.
  apply in_map_iff in He. destruct He as (c' & <- & Hc').
  cbn [recordOfChunk VectorStore.id] in Hid.
  now rewrite (NoDup_map_unique Chunker.id chunks c' c Hnd Hc' Hc Hid).
Qed.

(** X16.  A run of the background task whose extraction returned, for a
    document that still has its entry: afterwards the entry is the
    completed job, with the names the task was started with, the
    [startedAt] of the entry it found and [completedAt] the time of
    completion; the chunk table holds the chunks made of the extracted text
    under the document id; the vector store holds, under the id of every
    chunk, the record made of that chunk; the entries of other documents
    in the registry and the chunk table are as before, and so are the
    records under other ids, records from an earlier run for the same
    document among them. *)
Theorem processing_completes (d : jsstring) (fileName fileType s3Key : jsval)
        (extractionResult : TextCleaning.extraction) (srv : server)
        (doc : job) :
  JsMap.get d (processedDocuments srv) = Some doc ->
  let chunks := chunksOf clock d fileName fileType extractionResult in
  let after :=
    processDocumentInBackgroundRest textToVector clock now d
      fileName fileType s3Key (Returned extractionResult) srv in
  JsMap.get d (processedDocuments after)
  = Some (completedDoc d fileName fileType s3Key (startedAt doc) now)
  /\ JsMap.get d (documentChunks after) = Some chunks
  /\ Forall (fun c =>
               JsMap.get (Chunker.id c) (vectorStore after)
               = Some (recordOfChunk textToVector c))
            chunks
  /\ (forall k, k <> d ->
        JsMap.get k (processedDocuments after)
        = JsMap.get k (processedDocuments srv)
        /\ JsMap.get k (documentChunks after)
           = JsMap.get k (documentChunks srv))
  /\ (forall k, ~ In k (map Chunker.id chunks) ->
        JsMap.get k (vectorStore after) = JsMap.get k (vectorStore srv)).
Proof.
  intros Hdoc chunks after.
  destruct (stored_state d fileName fileType extractionResult srv)
    as (srv4 & (_ & _ & Hother & _ & Hjob) & Hrest).
  unfold after. rewrite Hrest. fold chunks. cbv zeta.
  rewrite Hdoc in Hjob. destruct Hjob as (doc4 & -> & Hstarted).
  cbn [processedDocuments documentChunks vectorStore].
  rewrite Hstarted.
  split; [apply get_set_same|]. split; [apply get_set_same|].
  split; [apply records_stored; apply chunk_ids_NoDup|].
  split.
  - intros k Hk. rewrite !get_set_other by exact Hk. split; auto.
  - intros k Hk. unfold VectorStore.upsert. cbn [fst].
    apply upsertLoop_other. rewrite map_map.
    cbn [recordOfChunk VectorStore.id]. exact Hk.
Qed.


(** X18.  A run of the background task whose extraction returned after
    the entry of the document was deleted: the registry stays as it is,
    without an entry for the document, while the chunks of the document
    are put into the chunk table and their records into the vector store. *)
Theorem processing_after_deletion (d : jsstring) (fileName fileType s3Key : jsval)
        (extractionResult : TextCleaning.extraction) (srv : server) :
  JsMap.get d (processedDocuments srv) = None ->
  let chunks := chunksOf clock d fileName fileType extractionResult in
  let after :=
    processDocumentInBackgroundRest textToVector clock now d
      fileName fileType s3Key (Returned extractionResult) srv in
  processedDocuments after = processedDocuments srv
  /\ JsMap.get d (documentChunks after) = Some chunks
  /\ Forall (fun c =>
               JsMap.get (Chunker.id c) (vectorStore after)
               = Some (recordOfChunk textToVector c)
               /\ VectorStore.documentId
                    (VectorStore.metadata (recordOfChunk textToVector c)) = d)
            chunks.
Proof.
  intros Hnone chunks after.
  destruct (stored_state d fileName fileType extractionResult srv)
    as (srv4 & (_ & _ & _ & _ & Hjob) & Hrest).
  unfold after. rewrite Hrest. fold chunks. cbv zeta.
  rewrite Hnone in Hjob. subst srv4. rewrite Hnone.
  cbn [processedDocuments documentChunks vectorStore].
  split; [reflexivity|]. split; [apply get_set_same|].
  pose proof (records_stored chunks (vectorStore srv)
                (chunk_ids_NoDup clock _ d _)) as Hstored.
  rewrite Forall_forall in *. intros c Hc. split; [now apply Hstored|].
  cbn [recordOfChunk VectorStore.metadata VectorStore.documentId].
  unfold chunks, chunksOf, Chunker.addMetadataToChunks, mapi in Hc.
  apply in_mapiFrom in Hc. destruct Hc as (x & i & _ & ->). reflexivity.
Qed.

End Task.

End PipelineFacts.

(** ** The state of the server across the handlers *)

Module ServerFacts.
Import JsStringFacts JsMapFacts StoreFacts DeletionFacts RecordFacts
       PipelineFacts Notions.
Import ProcessApi Pipeline.

Lemma processing_completes_witness :
  JsMap.get (js "doc-1")
    (processedDocuments
       (processDocumentInBackgroundRest
          Samples.constantEmbedding MoreSamples.sampleClock Samples.sampleNow
          (js "doc-1") (JStr (js "report.txt")) (JStr (js "text/plain"))
          (JStr (js "documents/1-report.txt"))
          (Returned MoreSamples.sampleExtraction)
          (Samples.sampleServer Processing)))
  = Some (completedDoc (js "doc-1") (JStr (js "report.txt"))
            (JStr (js "text/plain")) (JStr (js "documents/1-report.txt"))
            (js "2025-01-01T00:00:00.000Z") Samples.sampleNow).
Proof.
  exact (proj1 (processing_completes
                  Samples.constantEmbedding MoreSamples.sampleClock
                  Samples.sampleNow (js "doc-1") (JStr (js "report.txt"))
                  (JStr (js "text/plain"))
                  (JStr (js "documents/1-report.txt"))
                  MoreSamples.sampleExtraction
                  (Samples.sampleServer Processing)
                  (Samples.sampleJob "doc-1" Processing) eq_refl)).
Defined.

Lemma processing_after_deletion_witness :
  processedDocuments
    (processDocumentInBackgroundRest
       Samples.constantEmbedding MoreSamples.sampleClock Samples.sampleNow
       (js "doc-2") (JStr (js "notes.txt")) (JStr (js "text/plain"))
       (JStr (js "documents/2-notes.txt"))
       (Returned MoreSamples.sampleExtraction)
       (Samples.sampleServer Completed))
  = processedDocuments (Samples.sampleServer Completed).
Proof.
  exact (proj1 (processing_after_deletion
                  Samples.constantEmbedding MoreSamples.sampleClock
                  Samples.sampleNow (js "doc-2") (JStr (js "notes.txt"))
                  (JStr (js "text/plain"))
                  (JStr (js "documents/2-notes.txt"))
                  MoreSamples.sampleExtraction
                  (Samples.sampleServer Completed) eq_refl)).
Defined.

Lemma keyedById_filter (p : jsstring * VectorStore.storedVector -> bool)
      (s : VectorStore.store) :
  keyedById s -> keyedById (List.filter p s).
Proof.
  unfold keyedById. intros H. apply Forall_forall. intros e He.
  apply filter_In in He. rewrite Forall_forall in H. now apply H.
Qed.

Lemma consistent_postProcess (now : jsstring) (srv : server) (d : jsstring)
      (request : processRequest) :
  consistent srv -> consistent (fst (postProcess now srv d request)).
Proof.
  intros (Hjobs & Hchunks & Hstore & Hkeyed). unfold postProcess.
  assert (Hstarted :
            consistent (processDocumentInBackgroundStart d
                          (register (processingDoc now d request) srv))).
  { unfold processDocumentInBackgroundStart.
    destruct (updateProgress_progressed d (js "Extracting text...")
                (js "Downloading and parsing document")
                (register (processingDoc now d request) srv))
      as (C & V & _ & W & _).
    unfold consistent. rewrite C, V. split; [|now repeat split].
    apply W. unfold register. cbn [processedDocuments].
    now apply wf_set. }
  destruct (negb (truthy (reqFileName request))
            || negb (truthy (reqFileType request))
            || negb (truthy (reqS3Key request))); [now repeat split|].
  destruct (JsMap.get d (processedDocuments srv)) as [existing|];
    [destruct (status existing)|]; cbn [fst]; auto; now repeat split.
Qed.

Section Task.
Variable textToVector : jsstring -> list float.
Variable clock : nat -> jsstring.
Variable now : jsstring.

Lemma consistent_task (d : jsstring) (fileName fileType s3Key : jsval)
      (extracted : outcome TextCleaning.extraction) (srv : server) :
  consistent srv ->
  consistent (processDocumentInBackgroundRest textToVector clock now d
                fileName fileType s3Key extracted srv).
Proof.
  intros (Hjobs & Hchunks & Hstore & Hkeyed).
  destruct extracted as [extractionResult|message].
  - destruct (stored_state textToVector clock now d fileName fileType
                           extractionResult srv)
      as (srv4 & (_ & _ & _ & Hwf & _) & ->). cbv zeta.
    destruct (VectorStore.upsert
                (map (recordOfChunk textToVector)
                     (chunksOf clock d fileName fileType extractionResult))
                (vectorStore srv)) as [s' n] eqn:Hup.
    pose proof (upsertLoop_shape
                  (map (recordOfChunk textToVector)
                       (chunksOf clock d fileName fileType extractionResult))
                  (vectorStore srv) Hstore Hkeyed) as (Hwf' & Hkeyed' & _).
    unfold VectorStore.upsert in Hup. injection Hup as <- _.
    destruct (JsMap.get d (processedDocuments srv4));
      unfold consistent; cbn [processedDocuments documentChunks vectorStore fst];
      (split; [|split; [|split]]); auto using wf_set.
  - cbn [processDocumentInBackgroundRest]. unfold recordFailure.
    destruct (JsMap.get d (processedDocuments srv));
      unfold consistent; cbn [processedDocuments documentChunks vectorStore];
      (split; [|split; [|split]]); auto using wf_set.
Qed.

End Task.

Lemma consistent_deleteDocument (srv : server) (d : jsstring) :
  consistent srv -> consistent (fst (deleteDocument srv d)).
Proof.
  intros (Hjobs & Hchunks & Hstore & Hkeyed). unfold deleteDocument.
  rewrite deleteDocumentEmbeddings_result by exact Hstore. cbn [fst].
  unfold consistent. cbn [processedDocuments documentChunks vectorStore].
  split; [now apply wf_delete|]. split; [now apply wf_delete|].
  split; [now apply wf_filter|]. now apply keyedById_filter.
Qed.

(** X19.  The handlers keep the state in shape: when the registry, the
    chunk table and the vector store have pairwise distinct keys and every
    record of the store sits under its own id, this is still so after a
    processing request, after the rest of a background task (whether its
    extraction returned or raised) and after the deletion of a document.
    The state of a server that has handled nothing is of this shape. *)
Theorem handlers_keep_the_state_consistent (srv : server) :
  consistent srv ->
  (forall now d request, consistent (fst (postProcess now srv d request)))
  /\ (forall textToVector clock now d fileName fileType s3Key extracted,
         consistent (processDocumentInBackgroundRest textToVector clock now d
                       fileName fileType s3Key extracted srv))
  /\ (forall d, consistent (fst (deleteDocument srv d)))
  /\ consistent {| processedDocuments := JsMap.empty;
                   documentChunks := JsMap.empty;
                   vectorStore := JsMap.empty |}.
Proof.
  intros H.
  split; [intros; now apply consistent_postProcess|].
  split; [intros; now apply consistent_task|].
  split; [intros; now apply consistent_deleteDocument|].
  unfold consistent, JsMap.wf. cbn. repeat split; constructor.
Qed.

Lemma handlers_keep_the_state_consistent_witness :
  consistent (fst (deleteDocument (Samples.sampleServer Completed)
                                  (js "doc-1"))).
Proof.
  apply (handlers_keep_the_state_consistent (Samples.sampleServer Completed)).
  unfold consistent, JsMap.wf. cbn.
  repeat split; repeat constructor; cbn; intuition discriminate.
Defined.

(** X20.  Deleting a document from a state in shape is answered 200 and
    leaves nothing of it: no entry in the registry, no chunks, no record
    in the vector store; entries and chunks of other documents, and the
    records that belong to other documents, are as before.  The summary
    names the file of the deleted job (or "Unknown Document"), says for
    each of the two tables whether it held the document, and gives the
    sizes of the tables after the removal.  Deleting the same document
    again changes nothing. *)
Theorem delete_document_leaves_nothing (srv : server) (d : jsstring) :
  consistent srv ->
  let after := fst (deleteDocument srv d) in
  JsMap.get d (processedDocuments after) = None
  /\ JsMap.get d (documentChunks after) = None
  /\ Spec.noEmbeddings d (vectorStore after)
  /\ (forall k, k <> d ->
        JsMap.get k (processedDocuments after)
        = JsMap.get k (processedDocuments srv)
        /\ JsMap.get k (documentChunks after)
           = JsMap.get k (documentChunks srv))
  /\ (forall k v,
        JsMap.get k (vectorStore srv) = Some v ->
        VectorStore.documentId (VectorStore.metadata v) <> d ->
        JsMap.get k (vectorStore after) = Some v)
  /\ snd (deleteDocument srv d)
     = {| statusCode := 200;
          body :=
            DeletedBody (js "Document deletion completed")
              {| summaryDocumentId := d;
                 summaryFileName :=
                   match JsMap.get d (processedDocuments srv) with
                   | Some doc =>
                       orElse (fileName doc) (JStr (js "Unknown Document"))
                   | None => JStr (js "Unknown Document")
                   end;
                 cleared :=
                   {| clearedProcessedDocuments :=
                        JsMap.has d (processedDocuments srv);
                      clearedDocumentChunks :=
                        JsMap.has d (documentChunks srv);
                      clearedEmbeddings := true |};
                 remainingDocs :=
                   (JsMap.size (processedDocuments srv)
                    - if JsMap.has d (processedDocuments srv)
                      then 1 else 0)%Z;
                 remainingChunks :=
                   (JsMap.size (documentChunks srv)
                    - if JsMap.has d (documentChunks srv)
                      then 1 else 0)%Z |} |}
  /\ fst (deleteDocument after d) = after.
Proof.
  intros (Hjobs & Hchunks & Hstore & Hkeyed) after.
  assert (Hafter :
            after = {| processedDocuments :=
                         JsMap.delete d (processedDocuments srv);
                       documentChunks := JsMap.delete d (documentChunks srv);
                       vectorStore := recordsNotOf d (vectorStore srv) |}).
  { unfold after, deleteDocument.
    now rewrite deleteDocumentEmbeddings_result by exact Hstore. }
  rewrite Hafter. cbn [processedDocuments documentChunks vectorStore].
  split; [now apply get_delete_same|].
  split; [now apply get_delete_same|].
  split; [apply recordsNotOf_none|].
  split; [intros k Hk; split; now apply get_delete_other|].
  split.
  { intros k v Hget Hd. unfold recordsNotOf. apply get_filter; auto.
    cbn [snd]. apply negb_true_iff. now apply eqb_neq. }
  split.
  { unfold deleteDocument.
    rewrite deleteDocumentEmbeddings_result by exact Hstore. cbn [snd].
    unfold JsMap.size. rewrite !length_delete. unfold JsMap.has.
    destruct (JsMap.get d (processedDocuments srv)) as [doc|] eqn:Hdoc,
             (JsMap.get d (documentChunks srv)) as [chunks|] eqn:Hch;
      repeat f_equal; try lia.
    all: try (apply get_in in Hdoc; destruct (processedDocuments srv);
              [destruct Hdoc|cbn [length]; lia]).
    all: try (apply get_in in Hch; destruct (documentChunks srv);
              [destruct Hch|cbn [length]; lia]). }
  unfold deleteDocument.
  cbn [processedDocuments documentChunks vectorStore].
  rewrite ProcessApiFacts.deleteDocumentEmbeddings_absent
    by apply recordsNotOf_none.
  cbn [fst]. f_equal; apply delete_absent; now apply get_delete_same.
Qed.

Lemma delete_document_leaves_nothing_witness :
  JsMap.get (js "doc-1")
    (processedDocuments
       (fst (deleteDocument (Samples.sampleServer Completed) (js "doc-1"))))
  = None.
Proof.
  apply (delete_document_leaves_nothing (Samples.sampleServer Completed)
                                        (js "doc-1")).
  unfold consistent, JsMap.wf. cbn.
  repeat split; repeat constructor; cbn; intuition discriminate.
Defined.

Section Search.
Variable textToVector : jsstring -> list float.

(** X21.  Once the embeddings of a document are deleted from a store with
    distinct ids, no search finds the document: whatever the query text
    and the options, no result of [searchSimilarChunks] belongs to it. *)
Theorem deleted_document_is_not_found (s : VectorStore.store) (d : jsstring)
        (text : jsstring) (options : EmbeddingService.searchOptions) :
  JsMap.wf s ->
  Forall (fun m =>
            exists meta,
              VectorStore.matchMetadata m = Some meta
              /\ VectorStore.documentId meta <> d)
         (EmbeddingService.results
            (EmbeddingService.searchSimilarChunks textToVector
               (fst (EmbeddingService.deleteDocumentEmbeddings s d))
               text options)).
Proof.
  intros Hwf. rewrite deleteDocumentEmbeddings_result by exact Hwf.
  cbn [fst]. apply Forall_forall. intros m Hm.
  unfold EmbeddingService.searchSimilarChunks in Hm.
  cbn [EmbeddingService.results] in Hm. apply filter_In in Hm.
  destruct Hm as [Hm _].
  destruct (SearchFacts.query_sound _ _ _ Hm)
    as (v & Hv & _ & _ & _ & Hmeta).
  cbn [EmbeddingService.queryOptionsOf VectorStore.includeMetadata] in Hmeta.
  exists (VectorStore.metadata v). split; [exact Hmeta|].
  unfold JsMap.values in Hv. apply in_map_iff in Hv.
  destruct Hv as (e & <- & He).
  pose proof (recordsNotOf_none d s) as Hnone.
  unfold Spec.noEmbeddings in Hnone. rewrite Forall_forall in Hnone.
  now apply Hnone.
Qed.

End Search.

Lemma deleted_document_is_not_found_witness :
  Forall (fun m =>
            exists meta,
              VectorStore.matchMetadata m = Some meta
              /\ VectorStore.documentId meta <> js "doc-1")
         (EmbeddingService.results
            (EmbeddingService.searchSimilarChunks Samples.constantEmbedding
               (fst (EmbeddingService.deleteDocumentEmbeddings
                       Samples.sampleStore (js "doc-1")))
               (js "revenue")
               {| EmbeddingService.topK := CountNumber 5;
                  EmbeddingService.documentId := JNull;
                  EmbeddingService.threshold := 0.15%float |})).
Proof.
  apply (deleted_document_is_not_found Samples.constantEmbedding
           Samples.sampleStore (js "doc-1")).
  unfold JsMap.wf. vm_compute.
  repeat constructor; cbn; intuition discriminate.
Defined.

End ServerFacts.

(** ** The answers of the chat route *)

Module AnswerFacts.
Import JsStringFacts CleaningFacts AnswerSynthesis Notions.

Lemma dropWhile_stop (p : N -> bool) (a b : jsstring) (e : N) :
  p e = false -> exists a', dropWhile p (a ++ e :: b) = a' ++ e :: b.
Proof.
  intros He. induction a as [|x a (a' & IH)]; cbn.
  - rewrite He. now exists [].
  - destruct (p x); [now exists a'|now exists (x :: a)].
Qed.

(** [trim] keeps a prefix that neither starts nor ends with whitespace. *)
Lemma trim_keeps_prefix (h rest : jsstring) (c e : N) (h' b : jsstring) :
  h = c :: h' -> isWhiteSpace c = false ->
  rev h = e :: b -> isWhiteSpace e = false ->
  exists rest', trim (h ++ rest) = h ++ rest'.
Proof.
  intros Hh Hc Hrev He. unfold trim, trimEnd, trimStart.
  assert (Hstart : dropWhile isWhiteSpace (h ++ rest) = h ++ rest).
  { subst h. cbn. now rewrite Hc. }
  rewrite Hstart, rev_app_distr, Hrev.
  destruct (dropWhile_stop isWhiteSpace (rev rest) b e He) as (a' & ->).
  exists (rev a'). rewrite rev_app_distr, <- Hrev, rev_involutive.
  reflexivity.
Qed.

Lemma trim_basedOn (body : jsstring) :
  exists rest, trim (basedOn ++ body) = js "Based on your documents:" ++ rest.
Proof.
  unfold basedOn. rewrite <- app_assoc.
  eapply trim_keeps_prefix; reflexivity.
Qed.

Lemma trim_accordingTo (body : jsstring) :
  exists rest,
    trim (accordingTo ++ body) = js "According to your documents:" ++ rest.
Proof.
  unfold accordingTo. rewrite <- app_assoc.
  eapply trim_keeps_prefix; reflexivity.
Qed.

Section Answers.
Variable toLowerCase : jsstring -> jsstring.

Ltac branches :=
  repeat match goal with
         | |- context [if ?c then _ else _] => destruct c
         end.

Lemma builders_put_a_header (question questionLower : jsstring)
      (sentences : list jsstring) :
  Forall (fun response =>
            exists body,
              response = basedOn ++ body \/ response = accordingTo ++ body)
         [ buildOverviewResponse toLowerCase sentences;
           buildListResponse sentences;
           buildHowResponse toLowerCase sentences;
           buildWhyResponse toLowerCase sentences;
           buildWhenWhereResponse toLowerCase sentences questionLower;
           buildGeneralResponse toLowerCase question sentences ].
Proof.
  repeat constructor;
    unfold buildOverviewResponse, buildListResponse, buildHowResponse,
      buildWhyResponse, buildWhenWhereResponse, buildGeneralResponse;
    cbv zeta; branches; eexists; (left; reflexivity) || (right; reflexivity).
Qed.

Lemma header_survives (response : jsstring) (sentences : list jsstring) :
  (exists body,
      response = basedOn ++ body \/ response = accordingTo ++ body) ->
  trim (if (length response =? 0) || (length (trim response) =? 0)
        then buildFallbackResponse sentences
        else response)
  = trim response
  /\ ((exists rest, trim response = js "Based on your documents:" ++ rest)
      \/ (exists rest,
             trim response = js "According to your documents:" ++ rest)).
Proof.
  intros (body & [->| ->]).
  - destruct (trim_basedOn body) as (rest & Hrest).
    rewrite Hrest. split; [|left; now exists rest].
    match goal with
    | |- context [if ?c then _ else _] => replace c with false by reflexivity
    end.
    exact Hrest.
  - destruct (trim_accordingTo body) as (rest & Hrest).
    rewrite Hrest. split; [|right; now exists rest].
    match goal with
    | |- context [if ?c then _ else _] => replace c with false by reflexivity
    end.
    exact Hrest.
Qed.

Lemma composeAnswer_opens (question : jsstring) (sentences : list jsstring)
      (combinedContext : jsstring) :
  (exists rest,
      composeAnswer toLowerCase question sentences combinedContext
      = js "Based on your documents:" ++ rest)
  \/ (exists rest,
         composeAnswer toLowerCase question sentences combinedContext
         = js "According to your documents:" ++ rest).
Proof.
  unfold composeAnswer. cbv zeta.
  pose proof (builders_put_a_header question
                (trim (toLowerCase question)) sentences) as Hb.
  repeat match type of Hb with
         | Forall _ (_ :: _) =>
             let H := fresh "H" in
             inversion Hb as [|? ? H Hb']; subst; clear Hb; rename Hb' into Hb
         end.
  match goal with
  | |- context [trim (if _ then buildFallbackResponse _ else ?r)] =>
      assert (Hr : exists body, r = basedOn ++ body \/ r = accordingTo ++ body)
  end.
  { branches; assumption. }
  apply (header_survives _ sentences) in Hr. destruct Hr as [-> Hr].
  exact Hr.
Qed.

(** X22.  Every answer composed from retrieved context opens with
    "Based on your documents:" or "According to your documents:", whatever
    the question and the candidate sentences.  The fallback text for
    answers that came out empty is never given, since no answer comes out
    empty: with no candidate sentence at all the answer is the bare
    opening line (followed by a full stop for an overview question). *)
Theorem answers_open_with_a_header (question : jsstring)
        (sentences : list jsstring) (combinedContext : jsstring) :
  let answer :=
    composeAnswer toLowerCase question sentences combinedContext in
  let bare := composeAnswer toLowerCase question [] combinedContext in
  ((exists rest, answer = js "Based on your documents:" ++ rest)
   \/ (exists rest, answer = js "According to your documents:" ++ rest))
  /\ answer <> fallbackAnswer
  /\ (bare = js "Based on your documents:"
      \/ bare = js "According to your documents:"
      \/ bare = js "Based on your documents:" ++ [10; 10; 46]%N).
Proof.
  intros answer bare.
  pose proof (composeAnswer_opens question sentences combinedContext)
    as Hopen.
  fold answer in Hopen.
  split; [exact Hopen|]. split.
  - destruct Hopen as [(rest & ->)|(rest & ->)]; discriminate.
  - unfold bare, composeAnswer, buildOverviewResponse, buildListResponse,
      buildHowResponse, buildWhyResponse, buildWhenWhereResponse,
      buildGeneralResponse.
    cbv zeta. cbn [List.filter flat_map length Nat.ltb Nat.leb].
    match goal with
    | |- context [trim (if _ then buildFallbackResponse _ else ?r)] =>
        assert (Hr : r = basedOn \/ r = accordingTo \/ r = basedOn ++ js ".")
    end.
    { branches; vm_compute; auto. }
    destruct Hr as [-> |[-> | ->]]; vm_compute; auto.
Qed.

End Answers.

End AnswerFacts.

(** ** The chat route with its answers *)

Module ChatRouteFacts.
Import JsStringFacts AnswerFacts Notions.
Import ProcessApi.

Section Route.
Variable textToVector : jsstring -> list float.
Variable toLowerCase : jsstring -> jsstring.

Lemma answerFrom_kind (message : jsstring) (m : VectorStore.queryMatch)
      (results : list VectorStore.queryMatch) :
  exists answer sources,
    answerFrom (AnswerSynthesis.composeAnswer toLowerCase) message
               (m :: results)
    = {| statusCode := 200;
         body := ChatBody (JStr message) answer sources
                          (Z.of_nat (length (m :: results))) |}
    /\ length sources = length (m :: results)
    /\ ((exists rest, answer = js "Based on your documents:" ++ rest)
        \/ (exists rest, answer = js "According to your documents:" ++ rest)).
Proof.
  unfold answerFrom. cbv zeta. eexists. eexists.
  split; [reflexivity|]. split; [now rewrite !length_map|].
  cbn [map generateContextualResponse]. apply composeAnswer_opens.
Qed.

(** X23.  What the chat route can answer, with the answers composed by
    [generateContextualResponse]: 400 "Message is required"; 500 "Chat
    failed" (a message that is no string); or, for a string message, 200
    with the text for no processed documents and no sources, 200 with the
    text for nothing relevant found and no sources, or 200 with one source
    per retrieved chunk, at least one, and an answer that opens with
    "Based on your documents:" or "According to your documents:".  The
    texts for missing context and for an empty answer are never sent. *)
Theorem chat_answer_kinds (srv : server) (request : chatRequest) :
  let answered :=
    snd (postChat textToVector (AnswerSynthesis.composeAnswer toLowerCase)
                  srv request) in
  answered = {| statusCode := 400;
                body := ErrorBody (js "Message is required") |}
  \/ answered = {| statusCode := 500; body := ErrorBody (js "Chat failed") |}
  \/ exists message,
       chatMessage request = JStr message
       /\ (answered = {| statusCode := 200;
                         body := ChatBody (JStr message) noDocumentsAnswer
                                          [] 0 |}
           \/ answered = {| statusCode := 200;
                            body := ChatBody (JStr message) notFoundAnswer
                                             [] 0 |}
           \/ exists answer sources,
               answered = {| statusCode := 200;
                             body := ChatBody (JStr message) answer sources
                                              (Z.of_nat (length sources)) |}
               /\ 1 <= length sources
               /\ ((exists rest,
                       answer = js "Based on your documents:" ++ rest)
                   \/ (exists rest,
                          answer
                          = js "According to your documents:" ++ rest))).
Proof.
  intros answered. unfold answered, postChat.
  destruct (chatMessage request) as [| |b|z|message] eqn:Hmessage;
    try (left; reflexivity).
  - destruct b; [right; left|left]; reflexivity.
  - destruct (negb (truthy (JNum z))); [left|right; left]; reflexivity.
  - destruct (negb (truthy (JStr message)) || (length (trim message) =? 0));
      [left; reflexivity|].
    right. right. exists message. split; [reflexivity|].
    destruct (length (List.filter _ _) =? 0); [left; reflexivity|].
    right.
    destruct (EmbeddingService.results
                (EmbeddingService.searchSimilarChunks textToVector
                   (vectorStore srv) message
                   (searchArguments request 0.15%float))) as [|m results].
    + cbn [length Nat.eqb].
      destruct (EmbeddingService.results
                  (EmbeddingService.searchSimilarChunks textToVector
                     (vectorStore srv) message
                     (searchArguments request 0.05%float)))
        as [|m results]; [left; reflexivity|].
      right. cbn [length Nat.eqb snd].
      destruct (answerFrom_kind message m results)
        as (answer & sources & -> & Hlen & Hopen).
      exists answer, sources. rewrite Hlen. split; [reflexivity|].
      split; [cbn; lia|exact Hopen].
    + right. cbn [length Nat.eqb snd].
      destruct (answerFrom_kind message m results)
        as (answer & sources & -> & Hlen & Hopen).
      exists answer, sources. rewrite Hlen. split; [reflexivity|].
      split; [cbn; lia|exact Hopen].
Qed.

End Route.

End ChatRouteFacts.

(** ** What the extraction hands to the chunker *)

Module ExtractionFacts.
Import JsStringFacts SentenceFacts CoverageFacts CleaningFacts Notions
       TextCleaning.

Lemma strip_cons_blank (c : N) (s : jsstring) :
  isWhiteSpace c = true -> strip (c :: s) = strip s.
Proof.
  intros Hc. unfold strip. cbn. now rewrite Hc.
Qed.

Lemma strip_replaceCRLF (s : jsstring) : strip (replaceCRLF s) = strip s.
Proof.
  induction s as [|c s IH]; [reflexivity|].
  cbn [replaceCRLF]. destruct s as [|c' s']; [reflexivity|].
  destruct ((c =? 13) && (c' =? 10))%N eqn:E.
  - apply andb_prop in E. destruct E as [E _]. apply N.eqb_eq in E. subst c.
    rewrite IH. symmetry. now apply strip_cons_blank.
  - change (c :: replaceCRLF (c' :: s')) with ([c] ++ replaceCRLF (c' :: s')).
    change (c :: c' :: s') with ([c] ++ c' :: s').
    now rewrite !strip_app, IH.
Qed.

Lemma strip_replaceRuns (p : N -> bool) (least : nat) (replacement : jsstring) :
  (forall c, p c = true -> isWhiteSpace c = true) ->
  strip replacement = [] ->
  forall s skip,
    skip <= runLength p s ->
    strip (replaceRuns p least replacement skip s) = strip s.
Proof.
  intros Hp Hrep. induction s as [|c s IH]; intros skip Hskip;
    [reflexivity|].
  cbn [replaceRuns]. cbn [runLength] in Hskip.
  destruct skip as [|k].
  - destruct (p c && (least <=? runLength p (c :: s))) eqn:E.
    + apply andb_prop in E. destruct E as [Hc _].
      rewrite strip_app, Hrep, IH by lia. cbn [app].
      symmetry. apply strip_cons_blank. now apply Hp.
    + change (c :: replaceRuns p least replacement 0 s)
        with ([c] ++ replaceRuns p least replacement 0 s).
      change (c :: s) with ([c] ++ s).
      rewrite !strip_app, IH by lia. reflexivity.
  - destruct (p c) eqn:Hc; [|lia].
    rewrite IH by lia. symmetry. apply strip_cons_blank. now apply Hp.
Qed.

Lemma strip_tabs (s : jsstring) :
  strip (map (fun c => if (c =? 9)%N then 32%N else c) s) = strip s.
Proof.
  induction s as [|c s IH]; [reflexivity|]. cbn [map].
  destruct (N.eqb_spec c 9) as [->|Hc].
  - rewrite !strip_cons_blank by reflexivity. exact IH.
  - change (c :: map (fun c0 => if (c0 =? 9)%N then 32%N else c0) s)
      with ([c] ++ map (fun c0 => if (c0 =? 9)%N then 32%N else c0) s).
    change (c :: s) with ([c] ++ s).
    now rewrite !strip_app, IH.
Qed.

Lemma strip_dropWhile (s : jsstring) :
  strip (dropWhile isWhiteSpace s) = strip s.
Proof.
  induction s as [|c s IH]; [reflexivity|]. cbn [dropWhile].
  destruct (isWhiteSpace c) eqn:Hc; [|reflexivity].
  rewrite IH. symmetry. now apply strip_cons_blank.
Qed.

Lemma strip_rev (s : jsstring) : strip (rev s) = rev (strip s).
Proof.
  induction s as [|c s IH]; [reflexivity|].
  cbn [rev]. rewrite strip_app, IH.
  change (c :: s) with ([c] ++ s). rewrite strip_app, rev_app_distr.
  f_equal. unfold strip. cbn. now destruct (isWhiteSpace c).
Qed.

Lemma strip_trim (s : jsstring) : strip (trim s) = strip s.
Proof.
  unfold trim, trimEnd, trimStart.
  now rewrite strip_rev, strip_dropWhile, strip_rev, rev_involutive,
    strip_dropWhile.
Qed.

Lemma strip_cleanText (raw : jsstring) : strip (cleanText raw) = strip raw.
Proof.
  unfold cleanText. rewrite strip_trim.
  rewrite strip_replaceRuns; [|auto|reflexivity|lia].
  rewrite strip_replaceRuns; [|idtac|reflexivity|lia].
  - apply strip_replaceCRLF.
  - intros c Hc. unfold isNewline in Hc. apply N.eqb_eq in Hc. now subst c.
Qed.

Lemma strip_cleanDocxText (raw : jsstring) :
  strip (cleanDocxText raw) = strip raw.
Proof.
  unfold cleanDocxText. rewrite strip_trim.
  rewrite strip_replaceRuns; [|auto|reflexivity|lia].
  rewrite strip_tabs.
  rewrite strip_replaceRuns; [|idtac|reflexivity|lia].
  - apply strip_replaceCRLF.
  - intros c Hc. unfold isNewline in Hc. apply N.eqb_eq in Hc. now subst c.
Qed.

(** X24.  The cleaning of the extraction routines touches whitespace only:
    the characters of the cleaned text that are not whitespace are those of
    the raw text, in their order; so do the sentences that the chunker makes
    of the cleaned text, put end to end.  This holds for the PDF/TXT
    cleaning and for the DOCX cleaning. *)
Theorem cleaning_touches_whitespace_only (raw : jsstring) :
  strip (cleanText raw) = strip raw
  /\ strip (cleanDocxText raw) = strip raw
  /\ concat (map strip (Chunker.splitIntoSentences (cleanText raw)))
     = strip raw
  /\ concat (map strip (Chunker.splitIntoSentences (cleanDocxText raw)))
     = strip raw.
Proof.
  split; [apply strip_cleanText|]. split; [apply strip_cleanDocxText|].
  split.
  - now rewrite strip_sentences, strip_cleanText.
  - now rewrite strip_sentences, strip_cleanDocxText.
Qed.

Lemma blank_iff_strip (s : jsstring) :
  forallb isWhiteSpace s = true <-> strip s = [].
Proof.
  split; [apply strip_blank|apply strip_nil_blank].
Qed.

Lemma cleanText_nil_iff (raw : jsstring) :
  cleanText raw = [] <-> forallb isWhiteSpace raw = true.
Proof.
  rewrite blank_iff_strip, <- strip_cleanText. split.
  - now intros ->.
  - intros Hstrip. destruct (trim_clean_or_empty
                               (replaceRuns isWhiteSpace 2 (js " ") 0
                                  (replaceRuns isNewline 3 [10; 10]%N 0
                                     (replaceCRLF raw))))
      as [Hnil|(Hne & Hhead & _)]; [exact Hnil|].
    fold (cleanText raw) in Hne, Hhead.
    destruct (cleanText raw) as [|c t]; [reflexivity|].
    specialize (Hhead c t eq_refl). unfold strip in Hstrip. cbn in Hstrip.
    rewrite Hhead in Hstrip. discriminate.
Qed.

Lemma countWords_zero_iff (s : jsstring) :
  s = [] \/ clean s -> (countWords s = 0%Z <-> s = []).
Proof.
  intros [->|Hclean]; [split; reflexivity|].
  split.
  - intros Hzero. exfalso.
    pose proof (words_of_clean s Hclean) as Hwords.
    unfold countWords in Hzero. rewrite Hwords in Hzero.
    pose proof (ChunkerFacts.splitFrom_not_nil whitespaceRun None [] 0 s)
      as Hlen.
    change (splitFrom whitespaceRun None [] 0 s)
      with (split whitespaceRun s) in Hlen.
    destruct (split whitespaceRun s); [cbn in Hlen; lia|discriminate].
  - intros ->. reflexivity.
Qed.

Lemma ceil_pages (words : Z) :
  Qceiling (inject_Z words / inject_Z 250) = ((words + 249) / 250)%Z.
Proof.
  unfold Qceiling, Qfloor, Qopp, Qdiv, Qmult, Qinv, inject_Z.
  cbn [Qnum Qden Pos.mul].
  pose proof (Z.div_mod (- (words * 1)) 250 ltac:(lia)) as H1.
  pose proof (Z.mod_pos_bound (- (words * 1)) 250 ltac:(lia)) as H2.
  pose proof (Z.div_mod (words + 249) 250 ltac:(lia)) as H3.
  pose proof (Z.mod_pos_bound (words + 249) 250 ltac:(lia)) as H4.
  lia.
Qed.

(** X25.  What [extractTextFromTXT] reports: the word count is 0 exactly
    when the cleaned text is empty, which is exactly when the file holds
    nothing but whitespace, and exactly then the chunker makes no chunk of
    the text.  The page estimate is at least 1 and is the least number of
    pages of 250 words that hold the words; the metadata carry the same
    number; the character count is the length of the cleaned text. *)
Theorem txt_extraction_report (decoded : jsstring)
        (maxTokens overlapTokens : Z) :
  let report := extractTextFromTXT decoded in
  (wordCount report = 0%Z <-> text report = [])
  /\ (text report = [] <-> forallb isWhiteSpace decoded = true)
  /\ (Chunker.chunkText (text report) maxTokens overlapTokens = []
      <-> wordCount report = 0%Z)
  /\ (1 <= pages report)%Z
  /\ (wordCount report <= 250 * pages report)%Z
  /\ (pages report = 1%Z \/ (250 * (pages report - 1) < wordCount report)%Z)
  /\ Chunker.lookupKey (js "pages") (metadata report) = JNum (pages report)
  /\ characterCount report = Z.of_nat (length (text report)).
Proof.
  intros report. unfold report, extractTextFromTXT.
  cbn [text pages metadata wordCount characterCount].
  assert (Hzero : countWords (cleanText decoded) = 0%Z
                  <-> cleanText decoded = []).
  { apply countWords_zero_iff.
    destruct (trim_clean_or_empty
                (replaceRuns isWhiteSpace 2 (js " ") 0
                   (replaceRuns isNewline 3 [10; 10]%N 0
                      (replaceCRLF decoded)))); auto. }
  split; [exact Hzero|]. split; [apply cleanText_nil_iff|].
  split.
  { rewrite chunks_nil_iff, Hzero. split.
    - intros Hblank. apply cleanText_nil_iff.
      apply blank_iff_strip. rewrite <- strip_cleanText.
      now apply blank_iff_strip.
    - now intros ->. }
  unfold estimatePages. rewrite ceil_pages.
  assert (Hwords : (0 <= countWords (cleanText decoded))%Z)
    by (unfold countWords; lia).
  pose proof (Z.div_mod (countWords (cleanText decoded) + 249) 250
                        ltac:(lia)) as Hdiv.
  pose proof (Z.mod_pos_bound (countWords (cleanText decoded) + 249) 250
                              ltac:(lia)) as Hmod.
  split; [lia|]. split; [lia|]. split; [lia|].
  split; reflexivity.
Qed.

End ExtractionFacts.

(** ** Chunk statistics *)

Module StatsFacts.
Import ChunkStats.

Lemma maxLoop_finite (values : list Z) (b : Z) :
  fold_left (fun best v =>
               match best with
               | Finite b => Finite (Z.max b v)
               | _ => Finite v
               end) values (Finite b)
  = Finite (fold_left Z.max values b).
Proof.
  revert b. induction values as [|v values IH]; intros b; [reflexivity|].
  cbn [fold_left]. apply IH.
Qed.

Lemma minLoop_finite (values : list Z) (b : Z) :
  fold_left (fun best v =>
               match best with
               | Finite b => Finite (Z.min b v)
               | _ => Finite v
               end) values (Finite b)
  = Finite (fold_left Z.min values b).
Proof.
  revert b. induction values as [|v values IH]; intros b; [reflexivity|].
  cbn [fold_left]. apply IH.
Qed.

Lemma fold_max_spec (values : list Z) (b : Z) :
  (b <= fold_left Z.max values b)%Z
  /\ Forall (fun v => (v <= fold_left Z.max values b)%Z) values
  /\ (fold_left Z.max values b = b \/ In (fold_left Z.max values b) values).
Proof.
  revert b. induction values as [|v values IH]; intros b; cbn [fold_left].
  - split; [lia|]. split; [constructor|now left].
  - destruct (IH (Z.max b v)) as (Hb & Hall & Hin).
    split; [lia|]. split; [constructor; [lia|exact Hall]|].
    destruct Hin as [Hin|Hin]; [|right; now right].
    destruct (Z.max_spec b v) as [[_ Hm]|[_ Hm]]; rewrite Hm in *.
    + right. left. now symmetry.
    + now left.
Qed.

Lemma fold_min_spec (values : list Z) (b : Z) :
  (fold_left Z.min values b <= b)%Z
  /\ Forall (fun v => (fold_left Z.min values b <= v)%Z) values
  /\ (fold_left Z.min values b = b \/ In (fold_left Z.min values b) values).
Proof.
  revert b. induction values as [|v values IH]; intros b; cbn [fold_left].
  - split; [lia|]. split; [constructor|now left].
  - destruct (IH (Z.min b v)) as (Hb & Hall & Hin).
    split; [lia|]. split; [constructor; [lia|exact Hall]|].
    destruct Hin as [Hin|Hin]; [|right; now right].
    destruct (Z.min_spec b v) as [[_ Hm]|[_ Hm]]; rewrite Hm in *.
    + now left.
    + right. left. now symmetry.
Qed.

Lemma fold_add (values : list Z) (a : Z) :
  fold_left Z.add values a = (a + fold_right Z.add 0 values)%Z.
Proof.
  revert a. induction values as [|v values IH]; intros a; cbn; [lia|].
  rewrite IH. lia.
Qed.

Lemma sum_between (lo hi : Z) (values : list Z) :
  Forall (fun v => (lo <= v <= hi)%Z) values ->
  (lo * Z.of_nat (length values) <= fold_right Z.add 0 values
   <= hi * Z.of_nat (length values))%Z.
Proof.
  induction 1 as [|v values Hv Hvalues IH]; [cbn; lia|].
  cbn [fold_right length]. lia.
Qed.

Lemma roundedMean_positive (total : Z) (n : nat) :
  roundedMean total (S n)
  = Finite ((2 * total + Z.of_nat (S n)) / (2 * Z.of_nat (S n))).
Proof.
  unfold roundedMean. f_equal.
  change (Z.of_nat (S n)) with (Z.pos (Pos.of_succ_nat n)).
  unfold Qfloor, Qplus, Qdiv, Qmult, Qinv, inject_Z.
  cbn [Qnum Qden Pos.mul]. f_equal; lia.
Qed.

(** X26.  The statistics [getChunkingStats] reports for token totals below
    2^52, where the double quotient rounds as the exact one.  For a list of
    chunks that is not empty: the minimum and the maximum are token counts
    of chunks and bound every token count, the total is the sum of the
    token counts, and the average is the integer nearest to total/chunks
    (halves upwards), which lies between the minimum and the maximum.  For
    no chunks, the report of a document without text: 0 chunks, 0 tokens,
    NaN as average, -Infinity as maximum and Infinity as minimum. *)
Theorem chunking_stats (chunks : list Chunker.chunkWithMetadata) :
  let counts := map (fun c => Chunker.tokenCount (Chunker.base c)) chunks in
  let total := fold_right Z.add 0%Z counts in
  let n := Z.of_nat (length chunks) in
  let stats := getChunkingStats chunks in
  (Z.abs total < 2 ^ 52)%Z ->
  totalChunks stats = n
  /\ totalTokens stats = total
  /\ match chunks with
     | [] =>
         avgTokensPerChunk stats = NaN
         /\ maxTokensPerChunk stats = NegInfinity
         /\ minTokensPerChunk stats = PosInfinity
     | _ :: _ =>
         exists lo mean hi,
           minTokensPerChunk stats = Finite lo
           /\ avgTokensPerChunk stats = Finite mean
           /\ maxTokensPerChunk stats = Finite hi
           /\ In lo counts /\ In hi counts
           /\ Forall (fun v => (lo <= v <= hi)%Z) counts
           /\ (lo <= mean <= hi)%Z
           /\ (2 * total - n < 2 * n * mean <= 2 * total + n)%Z
     end.
Proof.
  intros counts total n stats _. unfold stats, getChunkingStats.
  cbn [totalChunks totalTokens avgTokensPerChunk maxTokensPerChunk
       minTokensPerChunk].
  fold counts. rewrite fold_add. fold total. cbn [Z.add].
  split; [reflexivity|]. split; [reflexivity|].
  destruct chunks as [|c chunks]; [now repeat split|].
  set (first := Chunker.tokenCount (Chunker.base c)).
  set (others := map (fun c => Chunker.tokenCount (Chunker.base c)) chunks).
  assert (Hcounts : counts = first :: others) by reflexivity.
  unfold maxOf, minOf. rewrite Hcounts. cbn [fold_left].
  rewrite maxLoop_finite, minLoop_finite.
  destruct (fold_max_spec others first) as (Hb & Hall & Hin).
  destruct (fold_min_spec others first) as (Hb' & Hall' & Hin').
  set (hi := fold_left Z.max others first) in *.
  set (lo := fold_left Z.min others first) in *.
  assert (Hbetween : Forall (fun v => (lo <= v <= hi)%Z) (first :: others)).
  { constructor; [lia|]. rewrite Forall_forall in *. intros v Hv.
    split; [now apply Hall'|now apply Hall]. }
  pose proof (sum_between lo hi (first :: others) Hbetween) as Hsum.
  rewrite <- Hcounts in Hsum. fold total in Hsum.
  assert (Hn : n = Z.of_nat (length counts)).
  { unfold n, counts. now rewrite length_map. }
  rewrite <- Hn in Hsum.
  assert (Hpos : (0 < n)%Z) by (unfold n; cbn [length]; lia).
  cbn [length]. rewrite roundedMean_positive.
  change (Z.of_nat (S (length chunks))) with n.
  exists lo, ((2 * total + n) / (2 * n))%Z, hi.
  split; [reflexivity|]. split; [reflexivity|]. split; [reflexivity|].
  split; [destruct Hin' as [->|Hin']; [now left|now right]|].
  split; [destruct Hin as [->|Hin]; [now left|now right]|].
  split; [exact Hbetween|].
  pose proof (Z.div_mod (2 * total + n) (2 * n) ltac:(lia)) as Hdiv.
  pose proof (Z.mod_pos_bound (2 * total + n) (2 * n) ltac:(lia)) as Hmod.
  split; [|lia].
  split.
  - apply Z.div_le_lower_bound; lia.
  - apply Z.lt_succ_r. apply Z.div_lt_upper_bound; lia.
Qed.

Lemma chunking_stats_witness :
  totalTokens
    (getChunkingStats
       (Chunker.addMetadataToChunks MoreSamples.sampleClock
          (Chunker.chunkText (js "Revenue grew. Costs fell.") 400 50)
          (js "doc-1") []))
  = 4%Z.
Proof.
  assert (Hsmall :
            (Z.abs
               (fold_right Z.add 0
                  (map (fun c => Chunker.tokenCount (Chunker.base c))
                       (Chunker.addMetadataToChunks MoreSamples.sampleClock
                          (Chunker.chunkText (js "Revenue grew. Costs fell.")
                                             400 50)
                          (js "doc-1") [])))
             < 2 ^ 52)%Z) by (vm_compute; reflexivity).
  rewrite (proj1 (proj2 (chunking_stats _ Hsmall))).
  vm_compute. reflexivity.
Defined.

End StatsFacts.

(** ** The placeholder embedding *)

Module EmbeddingFacts.
Import JsStringFacts Embedding.

Lemma length_addAt (i : nat) (x : float) (vector : list float) :
  length (addAt i x vector) = length vector.
Proof.
  revert i. induction vector as [|y vector IH]; intros [|i]; cbn; auto.
Qed.

Lemma splitFrom_whitespaceRun_clean (s piece : jsstring) (prev : option N)
      (skip : nat) :
  forallb (fun c => negb (isWhiteSpace c)) piece = true ->
  skip <= runLength isWhiteSpace s ->
  Forall (fun p => forallb (fun c => negb (isWhiteSpace c)) p = true)
         (splitFrom whitespaceRun prev piece skip s).
Proof.
  revert piece prev skip.
  induction s as [|c s IH]; intros piece prev skip Hp Hskip; simpl.
  - constructor; [|constructor]. rewrite forallb_rev. exact Hp.
  - destruct skip as [|k].
    + unfold whitespaceRun at 1. simpl. destruct (isWhiteSpace c) eqn:Hc.
      * constructor; [rewrite forallb_rev; exact Hp|].
        apply IH; [reflexivity|lia].
      * apply IH; [simpl; now rewrite Hc|lia].
    + simpl in Hskip. destruct (isWhiteSpace c); [|lia].
      apply IH; [exact Hp|lia].
Qed.

(** The pieces that [split(/\s+/)] makes of a string of whitespace are
    empty. *)
Lemma split_blank (s : jsstring) :
  forallb isWhiteSpace s = true ->
  Forall (fun word => word = []) (split whitespaceRun s).
Proof.
  intros Hblank.
  assert (Hcat : concat (map Notions.strip (split whitespaceRun s)) = []).
  { unfold split.
    rewrite (SentenceFacts.strip_splitFrom whitespaceRun)
      by (intros; unfold whitespaceRun; lia).
    cbn [rev app]. now apply SentenceFacts.strip_blank. }
  pose proof (splitFrom_whitespaceRun_clean s [] None 0 eq_refl
                ltac:(lia)) as Hclean.
  fold (split whitespaceRun s) in Hclean.
  induction (split whitespaceRun s) as [|word words IH]; [constructor|].
  inversion Hclean as [|? ? Hword Hwords]; subst.
  cbn [map concat] in Hcat. apply app_eq_nil in Hcat.
  destruct Hcat as [Hnil Hcat]. constructor; [|now apply IH].
  destruct word as [|c word]; [reflexivity|].
  cbn in Hword. apply andb_prop in Hword. destruct Hword as [Hc _].
  unfold Notions.strip in Hnil. cbn in Hnil. rewrite Hc in Hnil.
  discriminate.
Qed.

Lemma filter_nothing {A : Type} (keep : A -> bool) (l : list A) :
  Forall (fun x => keep x = false) l -> List.filter keep l = [].
Proof.
  induction 1 as [|x l Hx Hl IH]; [reflexivity|].
  cbn. now rewrite Hx.
Qed.

Section Vectors.
Variable toLowerCase : jsstring -> jsstring.
Variable sin : float -> float.

Lemma length_charLoop (dimensions index : nat) (word : jsstring) :
  forall i vector,
    length (charLoop sin dimensions index i word vector) = length vector.
Proof.
  induction word as [|c word IH]; intros i vector; [reflexivity|].
  cbn [charLoop]. cbv zeta. now rewrite IH, length_addAt.
Qed.

Lemma length_wordLoop (dimensions : nat) (words : list jsstring) :
  forall index vector,
    length (wordLoop sin dimensions index words vector) = length vector.
Proof.
  induction words as [|word words IH]; intros index vector; [reflexivity|].
  cbn [wordLoop]. now rewrite IH, length_charLoop.
Qed.

Lemma wordLoop_blank (dimensions : nat) (words : list jsstring) :
  Forall (fun word => word = []) words ->
  forall index vector,
    wordLoop sin dimensions index words vector = vector.
Proof.
  induction 1 as [|word words Hword Hwords IH]; intros index vector;
    [reflexivity|].
  subst word. cbn [wordLoop charLoop]. apply IH.
Qed.

Lemma squares_of_zeros (n : nat) :
  fold_left (fun sum val => (sum + val * val)%float) (repeat 0%float n)
            0%float
  = 0%float.
Proof.
  induction n as [|n IH]; [reflexivity|]. exact IH.
Qed.

Lemma textToVector_blank (dimensions : nat) (text : jsstring) :
  forallb isWhiteSpace (toLowerCase text) = true ->
  textToVector toLowerCase sin dimensions text = repeat 0%float dimensions.
Proof.
  intros Hblank. unfold textToVector. cbv zeta.
  rewrite (wordLoop_blank dimensions _ (split_blank _ Hblank)).
  now rewrite squares_of_zeros.
Qed.

Lemma above_zero (m : float) :
  (0 <? m)%float = true -> (m <=? 0)%float = false.
Proof.
  rewrite FloatAxioms.ltb_spec, FloatAxioms.leb_spec.
  change (Prim2SF 0) with (SpecFloat.S754_zero false).
  destruct (Prim2SF m) as [sign|sign| |sign mantissa exponent];
    try (destruct sign); cbn; congruence.
Qed.

(** X27.  The placeholder embedding [textToVector] returns a vector of
    [dimensions] entries.  For a text that is empty or, in lower case, all
    whitespace, every entry is 0; a search for such a text with this
    embedding returns no result under any threshold above 0 (the default
    0.5 among them), whatever the store holds. *)
Theorem textToVector_shape (dimensions : nat) (text : jsstring)
        (s : VectorStore.store) (options : EmbeddingService.searchOptions) :
  length (textToVector toLowerCase sin dimensions text) = dimensions
  /\ (forallb isWhiteSpace (toLowerCase text) = true ->
      textToVector toLowerCase sin dimensions text
      = repeat 0%float dimensions
      /\ ((0 <? (if EmbeddingService.numberTruthy
                      (EmbeddingService.threshold options)
                 then EmbeddingService.threshold options
                 else 0.5))%float = true ->
          EmbeddingService.results
            (EmbeddingService.searchSimilarChunks
               (textToVector toLowerCase sin dimensions) s text options)
          = [])).
Proof.
  split.
  - unfold textToVector. cbv zeta.
    destruct (0 <? _)%float;
      rewrite ?length_map, length_wordLoop, repeat_length; reflexivity.
  - intros Hblank. split; [now apply textToVector_blank|].
    intros Habove. unfold EmbeddingService.searchSimilarChunks.
    cbn [EmbeddingService.results].
    pose proof (CosineFacts.query_zeros dimensions
                  (EmbeddingService.queryOptionsOf
                     (textToVector toLowerCase sin dimensions) s text options)
                  s) as Hzeros.
    cbn [EmbeddingService.queryOptionsOf VectorStore.vector
         EmbeddingService.generateEmbedding fst] in Hzeros.
    specialize (Hzeros (textToVector_blank dimensions text Hblank)).
    apply filter_nothing.
    eapply Forall_impl; [|exact Hzeros].
    intros m Hm. cbv beta. rewrite Hm. now apply above_zero.
Qed.

End Vectors.

End EmbeddingFacts.

(** ** From the request to the deletion *)

Module LifecycleFacts.
Import JsStringFacts JsMapFacts StoreFacts DeletionFacts RecordFacts
       PipelineFacts ServerFacts Notions.
Import ProcessApi Pipeline StatusRoute.

Lemma deleteDocument_state (srv : server) (d : jsstring) :
  consistent srv ->
  fst (deleteDocument srv d)
  = {| processedDocuments := JsMap.delete d (processedDocuments srv);
       documentChunks := JsMap.delete d (documentChunks srv);
       vectorStore := recordsNotOf d (vectorStore srv) |}.
Proof.
  intros (_ & _ & Hstore & _). unfold deleteDocument.
  now rewrite deleteDocumentEmbeddings_result by exact Hstore.
Qed.

Section Lifecycle.
Variable textToVector : jsstring -> list float.
Variable clock : nat -> jsstring.

(** X28.  The life of a document, from a state in shape in which it is not
    being processed.  After a processing request with the three fields the
    status route shows a job in processing, started at the time of the
    request.  When the extraction returns and the task has run, the status
    route shows the completed job with the names of the request, the same
    start and the time of completion, and the chunks of the extracted text
    are in the chunk table.  After the deletion the status route answers
    404, the chunk table has no chunks of the document and the vector
    store no record of it, and the state is in shape again. *)
Theorem document_lifecycle (now now' : jsstring) (srv : server)
        (d : jsstring) (request : processRequest)
        (extractionResult : TextCleaning.extraction) :
  consistent srv ->
  complete request ->
  (forall existing,
      JsMap.get d (processedDocuments srv) = Some existing ->
      status existing <> Processing) ->
  let started := fst (postProcess now srv d request) in
  let finished :=
    processDocumentInBackgroundRest textToVector clock now' d
      (reqFileName request) (reqFileType request) (reqS3Key request)
      (Returned extractionResult) started in
  let deleted := fst (deleteDocument finished d) in
  (exists running,
      getDocument started d = (200%Z, Found running)
      /\ status running = Processing
      /\ startedAt running = now)
  /\ getDocument finished d
     = (200%Z,
        Found (completedDoc d (reqFileName request) (reqFileType request)
                            (reqS3Key request) now now'))
  /\ JsMap.get d (documentChunks finished)
     = Some (chunksOf clock d (reqFileName request) (reqFileType request)
                      extractionResult)
  /\ getDocument deleted d = (404%Z, NotFound d)
  /\ JsMap.get d (documentChunks deleted) = None
  /\ Spec.noEmbeddings d (vectorStore deleted)
  /\ consistent deleted.
Proof.
  intros Hsrv Hrequest Hidle started finished deleted.
  assert (Hstarted :
            started = processDocumentInBackgroundStart d
                        (register (processingDoc now d request) srv)).
  { unfold started.
    rewrite (ProcessApiFacts.postProcess_complete now srv d request Hrequest).
    destruct (JsMap.get d (processedDocuments srv)) as [existing|] eqn:Hget;
      [|reflexivity].
    specialize (Hidle existing eq_refl).
    destruct (status existing); [now elim Hidle|reflexivity|reflexivity]. }
  destruct (ProcessApiFacts.get_after_start now srv d request)
    as (running & Hrunning & Hstatus & _ & Hstart).
  rewrite <- Hstarted in Hrunning.
  assert (Hshape1 : consistent started)
    by (unfold started; now apply consistent_postProcess).
  assert (Hshape2 : consistent finished)
    by (unfold finished; now apply consistent_task).
  destruct (stored_state textToVector clock now' d (reqFileName request)
              (reqFileType request) extractionResult started)
    as (srv4 & (_ & _ & _ & _ & Hjob) & Hrest).
  rewrite Hrunning in Hjob. destruct Hjob as (doc4 & Hdoc4 & Hstart4).
  assert (Hfinished :
            JsMap.get d (processedDocuments finished)
            = Some (completedDoc d (reqFileName request)
                      (reqFileType request) (reqS3Key request) now now')
            /\ JsMap.get d (documentChunks finished)
               = Some (chunksOf clock d (reqFileName request)
                         (reqFileType request) extractionResult)).
  { unfold finished. rewrite Hrest. cbv zeta. rewrite Hdoc4.
    cbn [processedDocuments documentChunks vectorStore].
    rewrite Hstart4, Hstart. split; apply get_set_same. }
  destruct Hfinished as [Hdone Hchunks].
  split.
  { exists running. unfold getDocument. rewrite Hrunning. now repeat split. }
  split; [unfold getDocument; now rewrite Hdone|].
  split; [exact Hchunks|].
  destruct Hshape2 as (Hjobs & Hchunkswf & Hstore & Hkeyed).
  assert (Hdeleted : deleted
                     = {| processedDocuments :=
                            JsMap.delete d (processedDocuments finished);
                          documentChunks :=
                            JsMap.delete d (documentChunks finished);
                          vectorStore :=
                            recordsNotOf d (vectorStore finished) |}).
  { unfold deleted. apply deleteDocument_state. now repeat split. }
  split.
  { unfold getDocument. rewrite Hdeleted. cbn [processedDocuments].
    now rewrite get_delete_same. }
  split; [rewrite Hdeleted; now apply get_delete_same|].
  split; [rewrite Hdeleted; apply recordsNotOf_none|].
  unfold deleted. apply consistent_deleteDocument. now repeat split.
Qed.

End Lifecycle.

Lemma document_lifecycle_witness :
  getDocument
    (fst (deleteDocument
            (processDocumentInBackgroundRest
               Samples.constantEmbedding MoreSamples.sampleClock
               Samples.sampleNow (js "doc-1")
               (reqFileName Samples.sampleRequest)
               (reqFileType Samples.sampleRequest)
               (reqS3Key Samples.sampleRequest)
               (Returned MoreSamples.sampleExtraction)
               (fst (postProcess Samples.sampleNow
                       (Samples.sampleServer Completed) (js "doc-1")
                       Samples.sampleRequest)))
            (js "doc-1")))
    (js "doc-1")
  = (404%Z, NotFound (js "doc-1")).
Proof.
  assert (Hshape : consistent (Samples.sampleServer Completed)).
  { unfold consistent, JsMap.wf. cbn.
    repeat split; repeat constructor; cbn; intuition discriminate. }
  assert (Hrequest : complete Samples.sampleRequest)
    by (repeat split; reflexivity).
  assert (Hidle : forall existing,
             JsMap.get (js "doc-1")
               (processedDocuments (Samples.sampleServer Completed))
             = Some existing ->
             status existing <> Processing).
  { intros existing Hget. vm_compute in Hget. injection Hget as <-.
    discriminate. }
  exact (proj1 (proj2 (proj2 (proj2
           (document_lifecycle Samples.constantEmbedding
              MoreSamples.sampleClock Samples.sampleNow Samples.sampleNow
              (Samples.sampleServer Completed) (js "doc-1")
              Samples.sampleRequest MoreSamples.sampleExtraction
              Hshape Hrequest Hidle))))).
Defined.

End LifecycleFacts.

(** ** The task by the type of the file *)

Module FileTypeFacts.
Import JsStringFacts JsMapFacts StoreFacts RecordFacts PipelineFacts Notions.
Import ProcessApi Pipeline Extraction.

Section Task.
Variable buffer : Type.
Variable extractTextFromPDF : buffer -> outcome TextCleaning.extraction.
Variable extractTextFromDOCX : buffer -> outcome TextCleaning.extraction.
Variable decode : buffer -> jsstring.
Variable textToVector : jsstring -> list float.
Variable clock : nat -> jsstring.
Variable now : jsstring.

Lemma failure_recorded (d : jsstring) (fileName fileType s3Key : jsval)
      (message : jsstring) (srv : server) (doc : job) :
  JsMap.get d (processedDocuments srv) = Some doc ->
  failedWith d message srv
    (processDocumentInBackgroundRest textToVector clock now d
       fileName fileType s3Key (Raised message) srv).
Proof.
  intros Hdoc. unfold failedWith, processDocumentInBackgroundRest,
                 recordFailure.
  rewrite Hdoc. cbn [processedDocuments documentChunks vectorStore].
  split; [|now split].
  eexists. split; [apply get_set_same|]. now repeat split.
Qed.

(** X29.  How a run of the background task ends, by the download and the
    type of the file, for a document that has its entry and a type that is
    a string.  A download that fails ends the run as a failure with the
    message "Failed to retrieve file from S3: ..." whatever the type.  With
    the file downloaded, a type other than PDF, DOCX and plain text ends
    the run as a failure with the message "Unsupported file type: " and the
    type; plain text ends it with the completed job and the chunks of the
    cleaned text in the chunk table; for PDF and DOCX the extraction is
    that of the routine of the type.  A failure leaves the chunk table and
    the vector store as they were. *)
Theorem task_outcome_by_file_type (d : jsstring) (fileName : jsval)
        (fileType : jsstring) (s3Key : jsval) (download : outcome buffer)
        (srv : server) (doc : job) :
  JsMap.get d (processedDocuments srv) = Some doc ->
  let extracted :=
    extractTextFromDocument buffer extractTextFromPDF extractTextFromDOCX
                            decode download (JStr fileType) in
  let after :=
    processDocumentInBackgroundRest textToVector clock now d
      fileName (JStr fileType) s3Key extracted srv in
  match download with
  | Raised message =>
      failedWith d (js "Failed to retrieve file from S3: " ++ message)
                 srv after
  | Returned contents =>
      if JsString.eqb fileType txtType
      then
        JsMap.get d (processedDocuments after)
        = Some (completedDoc d fileName (JStr fileType) s3Key
                             (startedAt doc) now)
        /\ JsMap.get d (documentChunks after)
           = Some (chunksOf clock d fileName (JStr fileType)
                     (TextCleaning.extractTextFromTXT (decode contents)))
      else if JsString.eqb fileType pdfType
      then extracted = extractTextFromPDF contents
      else if JsString.eqb fileType docxType
      then extracted = extractTextFromDOCX contents
      else
        failedWith d (js "Unsupported file type: " ++ fileType) srv after
  end.
Proof.
  intros Hdoc extracted after.
  destruct download as [contents|message].
  - unfold after, extracted, extractTextFromDocument.
    cbn [getFileFromS3 strictEq display].
    destruct (JsString.eqb fileType txtType) eqn:Htxt.
    + apply eqb_eq in Htxt. subst fileType.
      change (JsString.eqb txtType pdfType) with false.
      change (JsString.eqb txtType docxType) with false.
      cbv iota.
      destruct (stored_state textToVector clock now d fileName
                  (JStr txtType)
                  (TextCleaning.extractTextFromTXT (decode contents)) srv)
        as (srv4 & (_ & _ & _ & _ & Hjob) & Hrest).
      rewrite Hrest. cbv zeta. rewrite Hdoc in Hjob.
      destruct Hjob as (doc4 & -> & Hstart).
      cbn [processedDocuments documentChunks vectorStore].
      rewrite Hstart. split; apply get_set_same.
    + destruct (JsString.eqb fileType pdfType); [reflexivity|].
      destruct (JsString.eqb fileType docxType); [reflexivity|].
      now apply (failure_recorded _ _ _ _ _ _ doc).
  - unfold after, extracted, extractTextFromDocument. cbn [getFileFromS3].
    now apply (failure_recorded _ _ _ _ _ _ doc).
Qed.

End Task.

Lemma task_outcome_by_file_type_witness :
  failedWith (js "doc-1") (js "Unsupported file type: image/png")
    (Samples.sampleServer Processing)
    (processDocumentInBackgroundRest
       Samples.constantEmbedding MoreSamples.sampleClock Samples.sampleNow
       (js "doc-1") (JStr (js "photo.png")) (JStr (js "image/png"))
       (JStr (js "documents/1-photo.png"))
       (extractTextFromDocument jsstring
          (fun _ => Raised (js "no parser")) (fun _ => Raised (js "no parser"))
          (fun contents => contents)
          (Returned (js "89 50 4e 47")) (JStr (js "image/png")))
       (Samples.sampleServer Processing)).
Proof.
  exact (task_outcome_by_file_type jsstring
           (fun _ => Raised (js "no parser")) (fun _ => Raised (js "no parser"))
           (fun contents => contents)
           Samples.constantEmbedding MoreSamples.sampleClock Samples.sampleNow
           (js "doc-1") (JStr (js "photo.png")) (js "image/png")
           (JStr (js "documents/1-photo.png"))
           (Returned (js "89 50 4e 47"))
           (Samples.sampleServer Processing)
           (Samples.sampleJob "doc-1" Processing) eq_refl).
Defined.

End FileTypeFacts.
